(** * aibtc-roadmap: the project registry and its background scans

    A shallow embedding of the registry code of the AIBTC project board
    ([functions/api/_tasks.js], [items.js], [reorder.js] and the earlier
    revision of [items.js] that still stores a status), with the properties
    the specification states about it.

    Conventions.
    - A JavaScript string is the list of its UTF-16 code units ([jsstring]),
      so that [length] is JavaScript's [.length] and the dash characters the
      title splitter looks for are single units.
    - An instant is the number of milliseconds since the epoch ([Z]); the
      ISO text that the code stores and parses back is not modelled.  One
      invocation reads one clock value [now].
    - A field that the code tests only for truthiness is an [option]:
      [None] stands for a missing, [undefined] or [null] value. *)

From stdpp Require Import base numbers list strings gmap sorting.
From Stdlib Require Import ZArith Lia.
From Stdlib Require Strings.String Strings.Ascii.

Local Open Scope Z_scope.

(** ** JavaScript strings *)

Abbreviation jsstring := (list N).

Definition str (s : string) : jsstring :=
  map Ascii.N_of_ascii (String.list_ascii_of_string s).

Definition chr (s : string) : N :=
  match s with
  | String a _ => Ascii.N_of_ascii a
  | EmptyString => 0%N
  end.

Fixpoint jseqb (s t : jsstring) : bool :=
  match s, t with
  | [], [] => true
  | c :: s', d :: t' => (c =? d)%N && jseqb s' t'
  | _, _ => false
  end.

(** [s.startsWith(p)] *)
Fixpoint startsWith (s p : jsstring) : bool :=
  match p, s with
  | [], _ => true
  | c :: p', d :: s' => (c =? d)%N && startsWith s' p'
  | _ :: _, [] => false
  end.

(** [s.includes(t)] *)
Fixpoint includes (s t : jsstring) : bool :=
  startsWith s t ||
  match s with
  | [] => false
  | _ :: s' => includes s' t
  end.

(** [s.endsWith(t)] *)
Definition endsWith (s t : jsstring) : bool :=
  startsWith (rev s) (rev t).

(** Truthiness of a string-valued field: present and not empty. *)
Definition truthy (o : option jsstring) : bool :=
  match o with
  | Some (_ :: _) => true
  | _ => false
  end.

(** [o === 'lit'] for a field that may be missing. *)
Definition is_str (o : option jsstring) (lit : string) : bool :=
  match o with
  | Some s => jseqb s (str lit)
  | None => false
  end.

(** Membership in a list of strings ([Array.includes], [Set.has]). *)
Definition mem (s : jsstring) (l : list jsstring) : bool :=
  existsb (jseqb s) l.

(** White space and line terminators: the class [\s] of regular
    expressions and what [trim] removes. *)
Definition isWs (c : N) : bool :=
  ((9 <=? c) && (c <=? 13) || (c =? 32) || (c =? 160) || (c =? 5760)
   || (8192 <=? c) && (c <=? 8202) || (c =? 8232) || (c =? 8233)
   || (c =? 8239) || (c =? 8287) || (c =? 12288) || (c =? 65279))%N.

(** The longest prefix whose units satisfy [p], and the rest. *)
Fixpoint span (p : N -> bool) (s : jsstring) : jsstring * jsstring :=
  match s with
  | [] => ([], [])
  | c :: s' =>
    if p c then let '(a, b) := span p s' in (c :: a, b) else ([], s)
  end.

Definition trimStart (s : jsstring) : jsstring := snd (span isWs s).

(** [s.trim()] *)
Definition trim (s : jsstring) : jsstring :=
  rev (trimStart (rev (trimStart s))).

(** The rest of [s] after the prefix [p], when [s] starts with [p]. *)
Definition stripPrefix (p s : jsstring) : option jsstring :=
  if startsWith s p then Some (drop (length p) s) else None.

(** [s.split(c)] for a separator of one unit, given as a predicate. *)
Fixpoint splitOn (sep : N -> bool) (s : jsstring) : list jsstring :=
  match s with
  | [] => [[]]
  | c :: s' =>
    if sep c then [] :: splitOn sep s'
    else match splitOn sep s' with
         | piece :: pieces => (c :: piece) :: pieces
         | [] => [[c]]
         end
  end.

(** The first suffix of [s], from the left, on which [f] succeeds: how an
    unanchored regular expression finds its match. *)
Fixpoint search {A} (f : jsstring -> option A) (s : jsstring) : option A :=
  match f s with
  | Some a => Some a
  | None =>
    match s with
    | [] => None
    | _ :: s' => search f s'
    end
  end.

Definition isDigit (c : N) : bool := ((48 <=? c) && (c <=? 57))%N.
Definition isLower (c : N) : bool := ((97 <=? c) && (c <=? 122))%N.
Definition isUpper (c : N) : bool := ((65 <=? c) && (c <=? 90))%N.

(** [parseInt] of a run of decimal digits. *)
Definition parseInt (digits : jsstring) : Z :=
  fold_left (fun acc c => 10 * acc + (Z.of_N c - 48)) digits 0.

(** [Array.prototype.sort] with a comparator: the sort is stable, so for a
    consistent comparator its result is the one of insertion sort. *)
Fixpoint insertSorted {A} (cmp : A -> A -> Z) (x : A) (l : list A) : list A :=
  match l with
  | [] => [x]
  | y :: l' => if cmp x y <=? 0 then x :: l else y :: insertSorted cmp x l'
  end.

Definition jsSort {A} (cmp : A -> A -> Z) (l : list A) : list A :=
  foldr (insertSorted cmp) [] l.

(** ASCII case folding, the case-insensitivity of a regular expression
    without the [u] flag on ASCII patterns. *)
Definition lowerAscii (c : N) : N := if isUpper c then (c + 32)%N else c.

(** [\w] *)
Definition isWordChar (c : N) : bool :=
  (isLower c || isUpper c || isDigit c || (c =? 95))%N.

(** [l.findIndex(f)], [None] for [-1]. *)
Fixpoint findIndex {A} (f : A -> bool) (l : list A) : option nat :=
  match l with
  | [] => None
  | x :: l' => if f x then Some 0%nat else option_map S (findIndex f l')
  end.

(** ** Data model *)

(** The six lifecycle values ([VALID_STATUSES]). *)
Inductive Status :=
  | todo | in_progress | done | blocked | shipped | paid.

(** [item.githubData]: the snapshot built by [fetchGithubData]. *)
Record GithubData := {
  gd_type : option jsstring;
  gd_number : option Z;
  gd_title : option jsstring;
  gd_state : option jsstring;
  gd_merged : bool;
  gd_assignees : list jsstring;
  gd_labels : list jsstring;
  gd_stars : option Z;
  gd_homepage : option jsstring;
  gd_ownerLogin : option jsstring;
  gd_fetchedAt : option Z;
  gd_notFoundCount : option Z;
}.

(** The object spread [{ ...item.githubData }] of a missing snapshot. *)
Definition emptyGithubData : GithubData := {|
  gd_type := None; gd_number := None; gd_title := None; gd_state := None;
  gd_merged := false; gd_assignees := []; gd_labels := []; gd_stars := None;
  gd_homepage := None; gd_ownerLogin := None; gd_fetchedAt := None;
  gd_notFoundCount := None |}.

(** An account as the registry stores it: founder, claimant, contributor. *)
Record Agent := {
  btcAddress : jsstring;
  displayName : jsstring;
  agentId : option Z;
  profileUrl : option jsstring;
  claimedAt : option Z;
}.

Record Leader := {
  l_btcAddress : jsstring;
  l_displayName : jsstring;
  l_agentId : option Z;
  l_profileUrl : jsstring;
  l_assignedAt : Z;
  l_lastActiveAt : option Z;
}.

Record Rating := {
  r_agentId : option Z;
  r_btcAddress : jsstring;
  r_displayName : jsstring;
  r_score : Z;
  r_review : option jsstring;
  r_ratedAt : Z;
}.

(** [reputation.average] is kept in tenths: [47] stands for [4.7]. *)
Record Reputation := {
  average10 : Z;
  count : nat;
}.

Record Deliverable := {
  d_url : option jsstring;
  d_title : jsstring;
  d_addedAt : Z;
}.

(** A field that the code distinguishes as [undefined], [null] or set. *)
Inductive nullable (A : Type) :=
  | Undefined | Null | Val (a : A).
Arguments Undefined {A}.
Arguments Null {A}.
Arguments Val {A} a.

Inductive WebsiteSource :=
  | src_homepage | src_description | src_readme | src_deliverable | src_message.

Record Website := {
  w_url : jsstring;
  w_source : WebsiteSource;
  w_discoveredAt : Z;
}.

Record Item := {
  id : jsstring;
  title : option jsstring;
  githubUrl : option jsstring;
  githubData : option GithubData;
  status : Status;
  founder : option Agent;
  claimedBy : option Agent;
  leader : option Leader;
  contributors : list Agent;
  deliverables : list Deliverable;
  ratings : list Rating;
  reputation : option Reputation;
  mentions : option Z;
  website : nullable Website;
  searchTerms : list jsstring;
  createdAt : option Z;
  updatedAt : option Z;
}.

(** The blob under [roadmap:items]. *)
Record Registry := {
  version : Z;
  writeVersion : option Z;
  items : list Item;
  reg_updatedAt : option Z;
}.

(** The activity feed's entries and the archived copies of them.  An
    archived message has no [type] and always has a time stamp. *)
Record Party := {
  p_btcAddress : option jsstring;
  p_displayName : option jsstring;
}.

Record Message := {
  ev_type : option jsstring;
  ev_timestamp : option jsstring;
  ev_messagePreview : option jsstring;
  ev_agent : option Party;
  ev_recipient : option Party;
}.

Record ArchivedMsg := {
  am_timestamp : jsstring;
  am_agent : option Party;
  am_recipient : option Party;
  am_messagePreview : option jsstring;
}.

(** The blob under [roadmap:mention-scan].  [processedIds] is a JavaScript
    [Set] of time stamps: a list without repetition in insertion order. *)
Record MentionScan := {
  lastScanAt : option Z;
  processedIds : list (option jsstring);
}.

(** The blob under [roadmap:github-scan]: per repository bookkeeping. *)
Record RepoState := {
  rs_contributors : option Z;
  rs_contributorFails : option Z;
  rs_events : option Z;
  rs_eventFails : option Z;
  rs_website : option Z;
  rs_websiteFails : option Z;
}.

Record ScanState := {
  repos : gmap jsstring RepoState;
  websiteFilterVersion : option Z;
}.

(** The key-value store [env.ROADMAP_KV], one field per key. *)
Record KV := {
  kv_items : option Registry;
  kv_mention_scan : option MentionScan;
  kv_archive : option (list ArchivedMsg);
  kv_github_scan : option ScanState;
}.

(** The audit stream written by [recordEvent]. *)
Inductive AuditEvent :=
  | status_synced (itemId : jsstring) (oldStatus newStatus : Status)
  | auto_completed (itemId : jsstring) (oldStatus newStatus : Status)
  | mentioned (itemId : jsstring) (sender : option Party)
  | rated (itemId : jsstring) (by_ : jsstring) (score : Z) (newAverage10 : Z)
  | leadership_claimed (itemId : jsstring) (previousLeader by_ : jsstring)
      (inactiveDays : Z).

(** ** The platform

    What the code takes from the JavaScript runtime and does not define:
    Unicode lower-casing (which never empties a string), the URL parser
    ([new URL(s)], [None] when it throws) and the collation order of
    [localeCompare], a total preorder. *)

Record Url := {
  hostname : jsstring;
  pathname : jsstring;
}.

Class Platform := {
  toLowerCase : jsstring -> jsstring;
  parseUrl : jsstring -> option Url;
  localeCompare : jsstring -> jsstring -> Z;
  toLowerCase_nonempty : forall s, toLowerCase s = [] -> s = [];
  localeCompare_total : forall a b, localeCompare a b <= 0 \/ localeCompare b a <= 0;
  localeCompare_trans : forall a b c,
    localeCompare a b <= 0 -> localeCompare b c <= 0 -> localeCompare a c <= 0;
}.

(** ** Effects

    An invocation runs against a world: the store, the writes of other
    invocations that are still to land, the delays it has slept and the
    audit stream.  [yield] lets the next pending write of another invocation
    land; the code reaches it where it waits for the store or for a timer. *)

Inductive Error := ConcurrencyError.

Inductive Result (A : Type) :=
  | Ok (a : A)
  | Throw (e : Error).
Arguments Ok {A} a.
Arguments Throw {A} e.

Record World := {
  kv : KV;
  others : list (KV -> KV);
  slept : list Z;
  audit : list AuditEvent;
}.

Definition M (A : Type) : Type := World -> Result A * World.

Definition ret {A} (a : A) : M A := fun w => (Ok a, w).

Definition bind {A B} (m : M A) (f : A -> M B) : M B :=
  fun w =>
    match m w with
    | (Ok a, w') => f a w'
    | (Throw e, w') => (Throw e, w')
    end.

Notation "'let*' x := m 'in' k" := (bind m (fun x => k))
  (at level 10, x pattern, m at level 100, k at level 200).
Notation "m ;; k" := (bind m (fun _ => k))
  (at level 100, k at level 200, right associativity).

Definition throw {A} (e : Error) : M A := fun w => (Throw e, w).

(** [try { m } catch (err) { h err }] *)
Definition try_catch {A} (m : M A) (h : Error -> M A) : M A :=
  fun w =>
    match m w with
    | (Ok a, w') => (Ok a, w')
    | (Throw e, w') => h e w'
    end.

Definition getKV : M KV := fun w => (Ok (kv w), w).

Definition putKV (f : KV -> KV) : M unit :=
  fun w => (Ok tt, {| kv := f (kv w); others := others w;
                      slept := slept w; audit := audit w |}).

Definition yield : M unit :=
  fun w =>
    match others w with
    | [] => (Ok tt, w)
    | f :: rest => (Ok tt, {| kv := f (kv w); others := rest;
                              slept := slept w; audit := audit w |})
    end.

(** [await new Promise(r => setTimeout(r, ms))] *)
Definition sleep (ms : Z) : M unit :=
  (fun w => (Ok tt, {| kv := kv w; others := others w;
                       slept := slept w ++ [ms]; audit := audit w |})) ;;
  yield.

Definition recordEvent (e : AuditEvent) : M unit :=
  fun w => (Ok tt, {| kv := kv w; others := others w;
                      slept := slept w; audit := audit w ++ [e] |}).

Fixpoint recordEvents (es : list AuditEvent) : M unit :=
  match es with
  | [] => ret tt
  | e :: es' => recordEvent e ;; recordEvents es'
  end.

Definition put_items (r : Registry) (k : KV) : KV :=
  {| kv_items := Some r; kv_mention_scan := kv_mention_scan k;
     kv_archive := kv_archive k; kv_github_scan := kv_github_scan k |}.

Definition put_mention_scan (m : MentionScan) (k : KV) : KV :=
  {| kv_items := kv_items k; kv_mention_scan := Some m;
     kv_archive := kv_archive k; kv_github_scan := kv_github_scan k |}.

Definition put_archive (a : list ArchivedMsg) (k : KV) : KV :=
  {| kv_items := kv_items k; kv_mention_scan := kv_mention_scan k;
     kv_archive := Some a; kv_github_scan := kv_github_scan k |}.

Definition put_github_scan (s : ScanState) (k : KV) : KV :=
  {| kv_items := kv_items k; kv_mention_scan := kv_mention_scan k;
     kv_archive := kv_archive k; kv_github_scan := Some s |}.

(** Record updates of the fields the code assigns. *)
Definition set_writeVersion (v : option Z) (r : Registry) : Registry :=
  {| version := version r; writeVersion := v; items := items r;
     reg_updatedAt := reg_updatedAt r |}.

Definition set_reg_updatedAt (t : option Z) (r : Registry) : Registry :=
  {| version := version r; writeVersion := writeVersion r; items := items r;
     reg_updatedAt := t |}.

Definition set_items (l : list Item) (r : Registry) : Registry :=
  {| version := version r; writeVersion := writeVersion r; items := l;
     reg_updatedAt := reg_updatedAt r |}.

Definition set_version (v : Z) (r : Registry) : Registry :=
  {| version := v; writeVersion := writeVersion r; items := items r;
     reg_updatedAt := reg_updatedAt r |}.

Definition set_githubData (g : option GithubData) (i : Item) : Item :=
  {| id := id i; title := title i; githubUrl := githubUrl i; githubData := g;
     status := status i; founder := founder i; claimedBy := claimedBy i;
     leader := leader i; contributors := contributors i;
     deliverables := deliverables i; ratings := ratings i;
     reputation := reputation i; mentions := mentions i; website := website i;
     searchTerms := searchTerms i; createdAt := createdAt i;
     updatedAt := updatedAt i |}.

Definition set_status (s : Status) (i : Item) : Item :=
  {| id := id i; title := title i; githubUrl := githubUrl i;
     githubData := githubData i;
     status := s; founder := founder i; claimedBy := claimedBy i;
     leader := leader i; contributors := contributors i;
     deliverables := deliverables i; ratings := ratings i;
     reputation := reputation i; mentions := mentions i; website := website i;
     searchTerms := searchTerms i; createdAt := createdAt i;
     updatedAt := updatedAt i |}.

Definition set_leader (l : option Leader) (i : Item) : Item :=
  {| id := id i; title := title i; githubUrl := githubUrl i;
     githubData := githubData i;
     status := status i; founder := founder i; claimedBy := claimedBy i;
     leader := l; contributors := contributors i;
     deliverables := deliverables i; ratings := ratings i;
     reputation := reputation i; mentions := mentions i; website := website i;
     searchTerms := searchTerms i; createdAt := createdAt i;
     updatedAt := updatedAt i |}.

Definition set_contributors (c : list Agent) (i : Item) : Item :=
  {| id := id i; title := title i; githubUrl := githubUrl i;
     githubData := githubData i;
     status := status i; founder := founder i; claimedBy := claimedBy i;
     leader := leader i; contributors := c;
     deliverables := deliverables i; ratings := ratings i;
     reputation := reputation i; mentions := mentions i; website := website i;
     searchTerms := searchTerms i; createdAt := createdAt i;
     updatedAt := updatedAt i |}.

Definition set_ratings (r : list Rating) (i : Item) : Item :=
  {| id := id i; title := title i; githubUrl := githubUrl i;
     githubData := githubData i;
     status := status i; founder := founder i; claimedBy := claimedBy i;
     leader := leader i; contributors := contributors i;
     deliverables := deliverables i; ratings := r;
     reputation := reputation i; mentions := mentions i; website := website i;
     searchTerms := searchTerms i; createdAt := createdAt i;
     updatedAt := updatedAt i |}.

Definition set_reputation (r : option Reputation) (i : Item) : Item :=
  {| id := id i; title := title i; githubUrl := githubUrl i;
     githubData := githubData i;
     status := status i; founder := founder i; claimedBy := claimedBy i;
     leader := leader i; contributors := contributors i;
     deliverables := deliverables i; ratings := ratings i;
     reputation := r; mentions := mentions i; website := website i;
     searchTerms := searchTerms i; createdAt := createdAt i;
     updatedAt := updatedAt i |}.

Definition set_mentions (m : option Z) (i : Item) : Item :=
  {| id := id i; title := title i; githubUrl := githubUrl i;
     githubData := githubData i;
     status := status i; founder := founder i; claimedBy := claimedBy i;
     leader := leader i; contributors := contributors i;
     deliverables := deliverables i; ratings := ratings i;
     reputation := reputation i; mentions := m; website := website i;
     searchTerms := searchTerms i; createdAt := createdAt i;
     updatedAt := updatedAt i |}.

Definition set_website (w : nullable Website) (i : Item) : Item :=
  {| id := id i; title := title i; githubUrl := githubUrl i;
     githubData := githubData i;
     status := status i; founder := founder i; claimedBy := claimedBy i;
     leader := leader i; contributors := contributors i;
     deliverables := deliverables i; ratings := ratings i;
     reputation := reputation i; mentions := mentions i; website := w;
     searchTerms := searchTerms i; createdAt := createdAt i;
     updatedAt := updatedAt i |}.

Definition set_updatedAt (t : option Z) (i : Item) : Item :=
  {| id := id i; title := title i; githubUrl := githubUrl i;
     githubData := githubData i;
     status := status i; founder := founder i; claimedBy := claimedBy i;
     leader := leader i; contributors := contributors i;
     deliverables := deliverables i; ratings := ratings i;
     reputation := reputation i; mentions := mentions i; website := website i;
     searchTerms := searchTerms i; createdAt := createdAt i;
     updatedAt := t |}.

(** ** The network

    The replies of the services the scans call.  [github] answers a
    GitHub API request; [readme] answers the README request of a repository
    path; [activity] is the reply of the activity feed. *)

Inductive Endpoint :=
  | ep_repo (owner repo : jsstring)
  | ep_pull (owner repo : jsstring) (number : Z)
  | ep_issue (owner repo : jsstring) (number : Z).

(** The fields of GitHub's JSON that [fetchGithubData] reads. *)
Record GhJson := {
  j_description : option jsstring;
  j_full_name : option jsstring;
  j_archived : bool;
  j_topics : list jsstring;
  j_stargazers_count : option Z;
  j_homepage : option jsstring;
  j_owner_login : option jsstring;
  j_title : option jsstring;
  j_state : option jsstring;
  j_merged : bool;
  j_assignees : list jsstring;
  j_labels : list jsstring;
}.

Inductive HttpReply :=
  | net_fail                        (* [fetch] or [res.json()] throws *)
  | http (status : Z) (body : GhJson).

Inductive ReadmeReply :=
  | readme_fail                     (* [fetch] or [res.text()] throws *)
  | readme_status (status : Z)      (* [!res.ok] *)
  | readme_text (text : jsstring).

Inductive FeedReply :=
  | feed_fail                       (* [fetch] or [res.json()] throws *)
  | feed_status (status : Z)        (* [!res.ok] *)
  | feed_events (events : list Message).

Record Network := {
  github : Endpoint -> HttpReply;
  readme : jsstring -> ReadmeReply;
  activity : FeedReply;
}.

(** [res.ok] *)
Definition res_ok (status : Z) : bool := (200 <=? status) && (status <=? 299).

(** ** [_tasks.js] *)

Module Tasks.

Definition STALE_AFTER_MS : Z := 15 * 60 * 1000.
Definition MENTION_SCAN_COOLDOWN_MS : Z := 10 * 60 * 1000.
Definition MAX_ARCHIVED_MESSAGES : nat := 2000.
Definition GITHUB_SCAN_COOLDOWN_MS : Z := 15 * 60 * 1000.

(** The profile address [`https://aibtc.com/agents/${btcAddress}`]. *)
Definition agentProfileUrl (addr : jsstring) : jsstring :=
  str "https://aibtc.com/agents/" ++ addr.

(** The lazy migrations of [getData], one per schema step.  Where the code
    only replaces a missing array by an empty one, or [undefined] by
    [null], the model has nothing to do: it does not tell them apart. *)
Definition migrate_v5 (item : Item) : Item :=
  let item :=
    match reputation item with
    | None => set_reputation (Some {| average10 := 0; count := 0%nat |}) item
    | Some _ => item
    end in
  match mentions item with
  | None => set_mentions (Some 0) item
  | Some _ => item
  end.

Definition first_some {A} (a b : option A) : option A :=
  match a with
  | Some _ => a
  | None => b
  end.

Definition migrate_v6 (now : Z) (item : Item) : Item :=
  match leader item with
  | Some _ => item
  | None =>
    match first_some (claimedBy item) (founder item) with
    | Some source =>
      set_leader (Some {|
        l_btcAddress := btcAddress source;
        l_displayName := displayName source;
        l_agentId := agentId source;
        l_profileUrl :=
          (if truthy (profileUrl source) then default [] (profileUrl source)
           else agentProfileUrl (btcAddress source));
        l_assignedAt :=
          default now (first_some (claimedAt source) (createdAt item));
        l_lastActiveAt :=
          Some (default now (first_some (updatedAt item) (createdAt item)));
      |}) item
    | None => item
    end
  end.

Definition homepageOf (item : Item) : option jsstring :=
  match githubData item with
  | Some gd => if truthy (gd_homepage gd) then gd_homepage gd else None
  | None => None
  end.

Definition migrate_v8 (now : Z) (item : Item) : Item :=
  match website item with
  | Undefined =>
    match homepageOf item with
    | Some h =>
      set_website (Val {| w_url := h; w_source := src_homepage;
                          w_discoveredAt := now |}) item
    | None => set_website Null item
    end
  | _ => item
  end.

Definition isHomepageSource (s : WebsiteSource) : bool :=
  match s with
  | src_homepage => true
  | _ => false
  end.

Definition migrate_v10 (item : Item) : Item :=
  match website item with
  | Val w => if isHomepageSource (w_source w) then item else set_website Null item
  | _ => item
  end.

Definition migrate_step (below : Z) (f : Item -> Item) (data : Registry) : Registry :=
  if version data <? below
  then set_version below (set_items (map f (items data)) data)
  else data.

(** [getData(env)] *)
Definition getData (now : Z) : M Registry :=
  let* k := getKV in
  let data :=
    default {| version := 1; writeVersion := None; items := [];
               reg_updatedAt := None |} (kv_items k) in
  let data := set_writeVersion (Some (default 0 (writeVersion data))) data in
  let data := migrate_step 5 migrate_v5 data in
  let data := migrate_step 6 (migrate_v6 now) data in
  let data := migrate_step 7 (fun item => item) data in
  let data := migrate_step 8 (migrate_v8 now) data in
  let data := migrate_step 10 migrate_v10 data in
  ret data.

(** [addContributor(item, agent)]; the agent may be absent ([agent?.]). *)
Definition addContributor (item : Item) (agent : option Agent) : Item :=
  match agent with
  | None => item
  | Some a =>
    match btcAddress a with
    | [] => item
    | _ :: _ =>
      if existsb (fun c => jseqb (btcAddress c) (btcAddress a)) (contributors item)
      then item
      else set_contributors
             (contributors item ++
              [{| btcAddress := btcAddress a; displayName := displayName a;
                  agentId := agentId a; profileUrl := None;
                  claimedAt := None |}]) item
    end
  end.

(** [saveData(env, data)] waits twice: for the read of the stored blob and
    for the write.  The write of another invocation can land before either
    ([yield]); the store has no conditional write, so nothing ties the
    write to the version that was compared.

    The first half: the read, the comparison and the new write-version and
    time in [data]. *)
Definition saveData_check (now : Z) (data : Registry) : M Registry :=
  yield ;;
  let* k := getKV in
  let expectedVersion := default 0 (writeVersion data) in
  let currentVersion :=
    match kv_items k with
    | Some current => default 0 (writeVersion current)
    | None => 0
    end in
  if negb (currentVersion =? expectedVersion) then throw ConcurrencyError
  else
    let data := set_writeVersion (Some (expectedVersion + 1)) data in
    let data := set_reg_updatedAt (Some now) data in
    ret data.

(** The second half: the write. *)
Definition saveData_put (data : Registry) : M Registry :=
  yield ;;
  putKV (put_items data) ;;
  ret data.

(** [saveData(env, data)]; the result is [data] as the call leaves it. *)
Definition saveData (now : Z) (data : Registry) : M Registry :=
  let* data := saveData_check now data in
  saveData_put data.

(** The delay before the retry that follows the failed attempt [attempt]. *)
Definition backoff (attempt : Z) : Z :=
  Z.min (100 * 2 ^ (attempt - 1)) 5000.

(** The [for] loop of [saveRetry] from attempt [attempt] on, with
    [remaining] attempts left: [remaining = maxRetries - attempt + 1]. *)
Fixpoint saveRetry_from (remaining : nat) (attempt maxRetries : Z)
    (now : Z) (data : Registry) : M unit :=
  match remaining with
  | O => ret tt
  | S remaining' =>
    try_catch (saveData now data ;; ret tt)
      (fun err =>
         if attempt =? maxRetries then throw err
         else
           sleep (backoff attempt) ;;
           let* k := getKV in
           let fresh :=
             match kv_items k with
             | Some r => default 0 (writeVersion r)
             | None => 0
             end in
           saveRetry_from remaining' (attempt + 1) maxRetries now
             (set_writeVersion (Some fresh) data))
  end.

(** [saveRetry(env, data, maxRetries = 3)] *)
Definition saveRetry (now : Z) (data : Registry) (maxRetries : nat) : M unit :=
  saveRetry_from maxRetries 1 (Z.of_nat maxRetries) now data.

Inductive UrlType := url_repo | url_pr | url_issue.

Record ParsedUrl := {
  owner : jsstring;
  repo : jsstring;
  utype : UrlType;
  number : option Z;
}.

Definition isSlash (c : N) : bool := (c =? 47)%N.

(** [([^/]+)\/]: a non-empty run without a slash, then a slash. *)
Definition segment (s : jsstring) : option (jsstring * jsstring) :=
  match span (fun c => negb (isSlash c)) s with
  | ((_ :: _) as a, _ :: rest) => Some (a, rest)
  | _ => None
  end.

(** [github\.com\/([^/]+)\/([^/]+)\/(issues|pull)\/(\d+)] at the start of [s]. *)
Definition matchIssueOrPull (s : jsstring) : option ParsedUrl :=
  match stripPrefix (str "github.com/") s with
  | None => None
  | Some s1 =>
    match segment s1 with
    | None => None
    | Some (o, s2) =>
      match segment s2 with
      | None => None
      | Some (r, s3) =>
        let kind :=
          match stripPrefix (str "issues/") s3 with
          | Some s4 => Some (url_issue, s4)
          | None =>
            match stripPrefix (str "pull/") s3 with
            | Some s4 => Some (url_pr, s4)
            | None => None
            end
          end in
        match kind with
        | None => None
        | Some (t, s4) =>
          match span isDigit s4 with
          | ((_ :: _) as digits, _) =>
            Some {| owner := o; repo := r; utype := t;
                    number := Some (parseInt digits) |}
          | _ => None
          end
        end
      end
    end
  end.

(** [github\.com\/([^/]+)\/([^/?#]+)] at the start of [s]. *)
Definition matchRepo (s : jsstring) : option ParsedUrl :=
  match stripPrefix (str "github.com/") s with
  | None => None
  | Some s1 =>
    match segment s1 with
    | None => None
    | Some (o, s2) =>
      match span (fun c => negb (isSlash c || (c =? 63) || (c =? 35))%N) s2 with
      | ((_ :: _) as r, _) =>
        Some {| owner := o; repo := r; utype := url_repo; number := None |}
      | _ => None
      end
    end
  end.

(** [parseGithubUrl(url)] *)
Definition parseGithubUrl (url : option jsstring) : option ParsedUrl :=
  match url with
  | None | Some [] => None
  | Some u =>
    match search matchIssueOrPull u with
    | Some m => Some m
    | None => search matchRepo u
    end
  end.

Inductive FetchResult :=
  | fetch_null
  | fetch_notFound
  | fetch_data (gd : GithubData).

Definition or_else (a b : option jsstring) : option jsstring :=
  if truthy a then a else b.

Definition truthy_or_null (a : option jsstring) : option jsstring :=
  if truthy a then a else None.

(** [fetchGithubData(url, env)] *)
Definition fetchGithubData (net : Network) (now : Z) (url : option jsstring)
    : FetchResult :=
  match parseGithubUrl url with
  | None => fetch_null
  | Some parsed =>
    let endpoint :=
      match utype parsed with
      | url_repo => ep_repo (owner parsed) (repo parsed)
      | url_pr => ep_pull (owner parsed) (repo parsed) (default 0 (number parsed))
      | url_issue => ep_issue (owner parsed) (repo parsed) (default 0 (number parsed))
      end in
    match github net endpoint with
    | net_fail => fetch_null
    | http status d =>
      if negb (res_ok status) then
        (if status =? 404 then fetch_notFound else fetch_null)
      else
        match utype parsed with
        | url_repo =>
          fetch_data {|
            gd_type := Some (str "repo");
            gd_number := None;
            gd_title := or_else (j_description d) (j_full_name d);
            gd_state := Some (if j_archived d then str "archived" else str "active");
            gd_merged := false;
            gd_assignees := [];
            gd_labels := j_topics d;
            gd_stars := j_stargazers_count d;
            gd_homepage := truthy_or_null (j_homepage d);
            gd_ownerLogin := truthy_or_null (j_owner_login d);
            gd_fetchedAt := Some now;
            gd_notFoundCount := None |}
        | t =>
          fetch_data {|
            gd_type := Some (match t with url_pr => str "pr" | _ => str "issue" end);
            gd_number := number parsed;
            gd_title := j_title d;
            gd_state := j_state d;
            gd_merged := j_merged d;
            gd_assignees := j_assignees d;
            gd_labels := j_labels d;
            gd_stars := None;
            gd_homepage := None;
            gd_ownerLogin := None;
            gd_fetchedAt := Some now;
            gd_notFoundCount := None |}
        end
    end
  end.

(** [deriveStatus(item)] *)
Definition deriveStatus (item : Item) : Status :=
  match githubData item with
  | None => todo
  | Some gd =>
    if negb (truthy (gd_type gd)) then todo
    else if is_str (gd_type gd) "repo" then
      (if is_str (gd_state gd) "archived" then done else in_progress)
    else if is_str (gd_type gd) "pr" then
      (if gd_merged gd then done
       else if is_str (gd_state gd) "closed" then blocked
       else in_progress)
    else
      (if is_str (gd_state gd) "closed" then done else in_progress)
  end.

Definition gd_with_state_archived (gd : GithubData) (fails now : Z) : GithubData :=
  {| gd_type := gd_type gd; gd_number := gd_number gd; gd_title := gd_title gd;
     gd_state := Some (str "archived"); gd_merged := gd_merged gd;
     gd_assignees := gd_assignees gd; gd_labels := gd_labels gd;
     gd_stars := gd_stars gd; gd_homepage := gd_homepage gd;
     gd_ownerLogin := gd_ownerLogin gd; gd_fetchedAt := Some now;
     gd_notFoundCount := Some fails |}.

Definition gd_with_notFound (gd : GithubData) (fails now : Z) : GithubData :=
  {| gd_type := gd_type gd; gd_number := gd_number gd; gd_title := gd_title gd;
     gd_state := gd_state gd; gd_merged := gd_merged gd;
     gd_assignees := gd_assignees gd; gd_labels := gd_labels gd;
     gd_stars := gd_stars gd; gd_homepage := gd_homepage gd;
     gd_ownerLogin := gd_ownerLogin gd; gd_fetchedAt := Some now;
     gd_notFoundCount := Some fails |}.

(** What one turn of the loop of [refreshStaleGithubData] leaves. *)
Record Refreshed := {
  rf_item : Item;
  rf_changed : bool;
  rf_refreshed : bool;
  rf_events : list AuditEvent;
}.

Definition unchanged (item : Item) : Refreshed :=
  {| rf_item := item; rf_changed := false; rf_refreshed := false;
     rf_events := [] |}.

Definition status_eqb (a b : Status) : bool :=
  match a, b with
  | todo, todo | in_progress, in_progress | done, done
  | blocked, blocked | shipped, shipped | paid, paid => true
  | _, _ => false
  end.

(** The body of the loop of [refreshStaleGithubData] for one item. *)
Definition refreshItem (net : Network) (now : Z) (item : Item) : Refreshed :=
  if negb (truthy (githubUrl item)) then unchanged item
  else
    let fetchedAt :=
      match githubData item with
      | Some gd => default 0 (gd_fetchedAt gd)
      | None => 0
      end in
    if now - fetchedAt <? STALE_AFTER_MS then unchanged item
    else
      match fetchGithubData net now (githubUrl item) with
      | fetch_null => unchanged item
      | fetch_notFound =>
        let gd := default emptyGithubData (githubData item) in
        let fails := default 0 (gd_notFoundCount gd) + 1 in
        if (3 <=? fails) && negb (is_str (gd_state gd) "archived") then
          let item := set_githubData (Some (gd_with_state_archived gd fails now)) item in
          let item := set_updatedAt (Some now) item in
          {| rf_item := item; rf_changed := true; rf_refreshed := false;
             rf_events := [status_synced (id item) (deriveStatus item) done] |}
        else
          {| rf_item := set_githubData (Some (gd_with_notFound gd fails now)) item;
             rf_changed := true; rf_refreshed := false; rf_events := [] |}
      | fetch_data fresh =>
        let oldStatus := deriveStatus item in
        let item := set_githubData (Some fresh) item in
        let newStatus := deriveStatus item in
        {| rf_item := set_updatedAt (Some now) item;
           rf_changed := true; rf_refreshed := true;
           rf_events :=
             if status_eqb oldStatus newStatus then []
             else [status_synced (id item) oldStatus newStatus] |}
      end.

Record RefreshResult := {
  refreshedCount : nat;
  statusChanges : nat;
}.

(** [refreshStaleGithubData(env)] *)
Definition refreshStaleGithubData (net : Network) (now : Z) : M RefreshResult :=
  let* data := getData now in
  let turns := map (refreshItem net now) (items data) in
  let changed := existsb rf_changed turns in
  let autoCompleteEvents := concat (map rf_events turns) in
  let data := set_items (map rf_item turns) data in
  (if changed
   then saveRetry now data 3 ;; recordEvents autoCompleteEvents
   else ret tt) ;;
  ret {| refreshedCount := length (List.filter rf_refreshed turns);
         statusChanges := length autoCompleteEvents |}.

(** *** Mention matching *)

Inductive TermType := t_title | t_slug | t_url | t_site | t_alias.

Record Term := {
  text : jsstring;
  ttype : TermType;
}.

Definition isTitleDelim (c : N) : bool :=
  ((c =? 8212) || (c =? 8211) || (c =? 124))%N.

(** [\s*[—–|]\s*] at the start of [s]: what follows the match. *)
Definition matchDelim (s : jsstring) : option jsstring :=
  match snd (span isWs s) with
  | c :: rest => if isTitleDelim c then Some (snd (span isWs rest)) else None
  | [] => None
  end.

(** [s.split(/\s*[—–|]\s*/)]: the separator is tried at every position
    from the left; [piece] is the text since the last separator. *)
Fixpoint splitTitle_go (fuel : nat) (piece s : jsstring) : list jsstring :=
  match fuel, s with
  | S fuel', c :: s' =>
    match matchDelim s with
    | Some rest => piece :: splitTitle_go fuel' [] rest
    | None => splitTitle_go fuel' (piece ++ [c]) s'
    end
  | _, _ => [piece ++ s]
  end.

Definition splitTitle (s : jsstring) : list jsstring :=
  splitTitle_go (length s) [] s.

Definition isSlugChar (c : N) : bool := isLower c || isDigit c.

(** [part.replace(/[^a-z0-9]+/g, '-')] *)
Fixpoint dashRuns (inRun : bool) (s : jsstring) : jsstring :=
  match s with
  | [] => []
  | c :: s' =>
    if isSlugChar c then c :: dashRuns false s'
    else if inRun then dashRuns true s'
    else 45%N :: dashRuns true s'
  end.

(** [.replace(/^-|-$/g, '')] *)
Definition stripDashes (s : jsstring) : jsstring :=
  let s := match s with 45%N :: s' => s' | _ => s end in
  match rev s with
  | 45%N :: r => rev r
  | _ => s
  end.

Definition slugify (part : jsstring) : jsstring :=
  stripDashes (dashRuns false part).

(** [url.replace(/^https?:\/\/(www\.)?github\.com\//, '')] *)
Definition stripGithubPrefix (u : jsstring) : jsstring :=
  let rest :=
    match stripPrefix (str "http") u with
    | None => None
    | Some s1 =>
      let s2 := match s1 with 115%N :: r => r | _ => s1 end in
      match stripPrefix (str "://") s2 with
      | None => None
      | Some s3 =>
        let s4 := default s3 (stripPrefix (str "www.") s3) in
        stripPrefix (str "github.com/") s4
      end
    end in
  default u rest.

(** [.replace(/\/$/, '')] *)
Definition stripTrailingSlash (s : jsstring) : jsstring :=
  match rev s with
  | 47%N :: r => rev r
  | _ => s
  end.

(** [ghPath.split('/').pop()] *)
Definition repoName (ghPath : jsstring) : jsstring :=
  default [] (last (splitOn isSlash ghPath)).

Definition GENERIC_HOSTS : list jsstring :=
  map str ["aibtc.com"; "github.com"; "stacks.co"; "bitcoin.org"]%string.

Section Matching.
Context {P : Platform}.

Definition titleLower (item : Item) : jsstring :=
  toLowerCase (default [] (title item)).

(** 1. the full title *)
Definition titleTerm (item : Item) : list Term :=
  match titleLower item with
  | [] => []
  | t => [{| text := t; ttype := t_title |}]
  end.

Definition titleParts (item : Item) : list jsstring :=
  List.filter (fun p => (3 <? length p)%nat)
    (map trim (splitTitle (titleLower item))).

(** 2. the parts of the title *)
Definition partTerms (item : Item) : list Term :=
  map (fun p => {| text := p; ttype := t_title |})
    (List.filter (fun p => negb (jseqb p (titleLower item))) (titleParts item)).

(** 3. the slugs of the title and of its parts *)
Definition slugTerms (item : Item) : list Term :=
  flat_map
    (fun part =>
       let slug := slugify part in
       if (3 <? length slug)%nat && negb (jseqb slug part)
       then [{| text := slug; ttype := t_slug |}] else [])
    (titleLower item :: titleParts item).

Definition ghPath (item : Item) : option jsstring :=
  if truthy (githubUrl item)
  then Some (toLowerCase (stripTrailingSlash
                (stripGithubPrefix (default [] (githubUrl item)))))
  else None.

(** 4a. the address and the path of the repository *)
Definition urlTerms (item : Item) (path : jsstring) : list Term :=
  [{| text := toLowerCase (default [] (githubUrl item)); ttype := t_url |};
   {| text := path; ttype := t_url |}].

(** 4b. the bare name of the repository and its spaced variant *)
Definition repoNameTerms (path : jsstring) : list Term :=
  let name := repoName path in
  match name with
  | [] => []
  | _ :: _ =>
    if (8 <=? length name)%nat then
      {| text := name; ttype := t_url |} ::
      (let repoSpaced := map (fun c => if (c =? 45)%N then 32%N else c) name in
       if negb (jseqb repoSpaced name)
       then [{| text := repoSpaced; ttype := t_url |}] else [])
    else []
  end.

Definition githubTerms (item : Item) : list Term :=
  match ghPath item with
  | Some ((_ :: _) as path) => urlTerms item path ++ repoNameTerms path
  | _ => []
  end.

(** 5. the host of the declared homepage *)
Definition siteTerms (item : Item) : list Term :=
  match homepageOf item with
  | None => []
  | Some homepage =>
    match parseUrl homepage with
    | None => []
    | Some u =>
      let host := toLowerCase (hostname u) in
      if negb (mem host GENERIC_HOSTS) && (5 <? length host)%nat
      then [{| text := host; ttype := t_site |}] else []
    end
  end.

(** 6. the curated aliases *)
Definition aliasTerms (item : Item) : list Term :=
  map (fun t => {| text := t; ttype := t_alias |})
    (List.filter (fun t => (2 <? length t)%nat) (searchTerms item)).

(** The final [filter] with the [seen] set: the first term of each text. *)
Fixpoint dedupe (seen : list jsstring) (terms : list Term) : list Term :=
  match terms with
  | [] => []
  | t :: terms' =>
    if mem (text t) seen then dedupe seen terms'
    else t :: dedupe (text t :: seen) terms'
  end.

(** [getMatchTerms(item)] *)
Definition getMatchTerms (item : Item) : list Term :=
  dedupe []
    (titleTerm item ++ partTerms item ++ slugTerms item ++ githubTerms item
     ++ siteTerms item ++ aliasTerms item).

(** [matchMention(preview, item)] *)
Definition matchMention (preview : jsstring) (item : Item) : option TermType :=
  match List.find (fun term => includes preview (text term)) (getMatchTerms item) with
  | Some term => Some (ttype term)
  | None => None
  end.

End Matching.

(** *** Website discovery utilities *)

Definition NOISE_HOSTS : list jsstring :=
  map str
    ["github.com"; "www.github.com"; "docs.github.com";
     "raw.githubusercontent.com"; "user-images.githubusercontent.com";
     "avatars.githubusercontent.com"; "camo.githubusercontent.com";
     "npmjs.com"; "www.npmjs.com";
     "shields.io"; "img.shields.io"; "badge.fury.io";
     "coveralls.io"; "codecov.io";
     "travis-ci.org"; "travis-ci.com"; "circleci.com";
     "david-dm.org"; "gitter.im";
     "localhost"; "example.com";
     "crates.io"; "pypi.org"; "rubygems.org";
     "bun.sh"; "bun.com"; "deno.land"; "deno.com"; "nodejs.org"]%string.

(** [NOISE_PATHS.some(p => p.test(pathname))]; the third pattern ends in a
    word boundary. *)
Definition noisePath (path : jsstring) : bool :=
  startsWith path (str "/agents/")
  || startsWith path (str "/api/")
  || match stripPrefix (str "/install") path with
     | Some (c :: _) => negb (isWordChar c)
     | Some [] => true
     | None => false
     end
  || startsWith path (str "/raw/").

Definition SELF_HOSTS : list jsstring := [str "aibtc-projects.pages.dev"].

(** The set of units that end an address in [extractUrlsFromText]. *)
Definition isUrlChar (c : N) : bool :=
  negb (isWs c
        || existsb (N.eqb c) [60; 62; 91; 93; 40; 41; 39; 34; 96; 44; 59]%N).

(** [https?:\/\/[^...]+] without regard to case, at the start of [s]: the
    match and what follows it. *)
Definition matchUrl (s : jsstring) : option (jsstring * jsstring) :=
  match s with
  | h :: t1 :: t2 :: p :: s1 =>
    if jseqb (map lowerAscii [h; t1; t2; p]) (str "http") then
      let '(scheme, s2) :=
        match s1 with
        | c :: r => if (lowerAscii c =? 115)%N then ([h; t1; t2; p; c], r)
                    else ([h; t1; t2; p], s1)
        | [] => ([h; t1; t2; p], s1)
        end in
      match stripPrefix (str "://") s2 with
      | None => None
      | Some s3 =>
        match span isUrlChar s3 with
        | ((_ :: _) as body, rest) => Some (scheme ++ str "://" ++ body, rest)
        | _ => None
        end
      end
    else None
  | _ => None
  end.

(** [text.match(/.../gi)]: the matches from left to right, without overlap. *)
Fixpoint matchUrls (fuel : nat) (s : jsstring) : list jsstring :=
  match fuel, s with
  | S fuel', _ :: s' =>
    match matchUrl s with
    | Some (u, rest) => u :: matchUrls fuel' rest
    | None => matchUrls fuel' s'
    end
  | _, _ => []
  end.

(** [u.replace(/[.)]+$/, '')] *)
Definition stripTrailingDots (u : jsstring) : jsstring :=
  rev (snd (span (fun c => (c =? 46) || (c =? 41))%N (rev u))).

(** [extractUrlsFromText(text)] *)
Definition extractUrlsFromText (text : option jsstring) : list jsstring :=
  match text with
  | None => []
  | Some t => map stripTrailingDots (matchUrls (length t) t)
  end.

Definition URL_CONTEXT_KEYWORDS : list jsstring :=
  map str ["live"; "demo"; "website"; "deployed"; "homepage"; "visit";
           "hosted"; "app"; "try it"; "production"; "dashboard"]%string.

Definition URL_NEGATIVE_KEYWORDS : list jsstring :=
  map str ["built by"; "created by"; "credits"; "author"; "maintained by";
           "made by"; "powered by"]%string.

Definition isWordAt (c : option N) : bool :=
  match c with
  | Some c => isWordChar c
  | None => false
  end.

(** [\b] between the units [a] and [b] (absent at the ends of the text). *)
Definition wordBoundary (a b : option N) : bool :=
  xorb (isWordAt a) (isWordAt b).

(** A keyword, without regard to case, at the start of [s], followed by a
    word boundary. *)
Definition keywordHere (s kw : jsstring) : bool :=
  startsWith (map lowerAscii s) kw
  && wordBoundary (last (take (length kw) s)) (head (drop (length kw) s)).

(** [/\b(k1|k2|...)\b/i.test(s)], [prev] being the unit before [s]. *)
Fixpoint testKeywords (kws : list jsstring) (prev : option N) (s : jsstring) : bool :=
  (wordBoundary prev (head s) && existsb (keywordHere s) kws)
  || match s with
     | [] => false
     | c :: s' => testKeywords kws (Some c) s'
     end.

(** [content.indexOf(u)] *)
Fixpoint indexOf (s u : jsstring) : option nat :=
  if startsWith s u then Some 0%nat
  else match s with
       | [] => None
       | _ :: s' => option_map S (indexOf s' u)
       end.

Record Scored := {
  sc_url : jsstring;
  sc_score : Z;
}.

Definition byScoreDesc (a b : Scored) : Z := sc_score b - sc_score a.

Section Discovery.
Context {P : Platform}.

(** [isDeploymentUrl(url)] *)
Definition isDeploymentUrl (url : jsstring) : Z :=
  match parseUrl url with
  | None => 0
  | Some parsed =>
    let host := toLowerCase (hostname parsed) in
    if mem host NOISE_HOSTS then 0
    else if noisePath (pathname parsed) then 0
    else if endsWith host (str ".pages.dev") then 10
    else if endsWith host (str ".vercel.app") then 10
    else if endsWith host (str ".netlify.app") then 10
    else if endsWith host (str ".workers.dev") then 9
    else if endsWith host (str ".herokuapp.com") then 8
    else if endsWith host (str ".fly.dev") then 8
    else if endsWith host (str ".web.app") || endsWith host (str ".firebaseapp.com") then 8
    else if endsWith host (str ".onrender.com") then 8
    else if endsWith host (str ".surge.sh") then 7
    else if endsWith host (str ".github.io") then 7
    else if negb (includes host (str "github")) && negb (includes host (str "npm")) then 6
    else 0
  end.

(** The scored candidates both text extractors start from. *)
Definition scoredUrls (urls : list jsstring) (skipUrls : gset jsstring) : list Scored :=
  List.filter (fun u => (0 <? sc_score u) && negb (bool_decide (sc_url u ∈ skipUrls)))
    (map (fun url => {| sc_url := url; sc_score := isDeploymentUrl url |}) urls).

(** The bonus and the penalty of the text before an address in a README. *)
Definition adjustScore (content : jsstring) (s : Scored) : Scored :=
  match indexOf content (sc_url s) with
  | None => s
  | Some idx =>
    let ctx := drop (idx - 200)%nat (take idx content) in
    let bonus := if testKeywords URL_CONTEXT_KEYWORDS None ctx then 5 else 0 in
    let penalty := if testKeywords URL_NEGATIVE_KEYWORDS None ctx then 4 else 0 in
    {| sc_url := sc_url s; sc_score := sc_score s + bonus - penalty |}
  end.

(** [extractUrlFromReadme(content, skipUrls)] *)
Definition extractUrlFromReadme (content : option jsstring)
    (skipUrls : gset jsstring) : option jsstring :=
  match content with
  | None | Some [] => None
  | Some c =>
    let scored := map (adjustScore c) (scoredUrls (extractUrlsFromText content) skipUrls) in
    let best := jsSort byScoreDesc (List.filter (fun s => 5 <=? sc_score s) scored) in
    option_map sc_url (head best)
  end.

(** [extractUrlFromDescription(description, skipUrls)] *)
Definition extractUrlFromDescription (description : option jsstring)
    (skipUrls : gset jsstring) : option jsstring :=
  match description with
  | None | Some [] => None
  | Some _ =>
    option_map sc_url
      (head (jsSort byScoreDesc (scoredUrls (extractUrlsFromText description) skipUrls)))
  end.

(** [SELF_HOSTS.has(new URL(url).hostname.toLowerCase())], false when the
    address does not parse. *)
Definition isSelfHost (url : jsstring) : bool :=
  match parseUrl url with
  | Some u => mem (toLowerCase (hostname u)) SELF_HOSTS
  | None => false
  end.

(** [urlCounts.set(url, (urlCounts.get(url) || 0) + 1)] on a [Map], whose
    entries keep the order of their first insertion. *)
Fixpoint countUrl (url : jsstring) (counts : list (jsstring * Z)) : list (jsstring * Z) :=
  match counts with
  | [] => [(url, 1)]
  | (u, n) :: rest =>
    if jseqb u url then (u, n + 1) :: rest else (u, n) :: countUrl url rest
  end.

(** [extractUrlFromMessages(messages, item)] *)
Definition extractUrlFromMessages (messages : list ArchivedMsg) (item : Item)
    : option jsstring :=
  let urlCounts :=
    fold_left
      (fun counts msg =>
         let preview := toLowerCase (default [] (am_messagePreview msg)) in
         match matchMention preview item with
         | None => counts
         | Some _ =>
           fold_left
             (fun counts url =>
                if isDeploymentUrl url =? 0 then counts
                else if isSelfHost url then counts
                else countUrl url counts)
             (extractUrlsFromText (Some (default [] (am_messagePreview msg))))
             counts
         end)
      messages [] in
  fst (fold_left
         (fun '(best, bestCount) '(url, n) =>
            if (bestCount <? n)
               || ((n =? bestCount)
                   && (match best with
                       | Some b => isDeploymentUrl b
                       | None => 0
                       end <? isDeploymentUrl url))
            then (Some url, n) else (best, bestCount))
         urlCounts (None, 0)).

End Discovery.

(** *** Message archive and mention scan *)

Section Scans.
Context {P : Platform}.

(** [getArchivedMessages(env)] *)
Definition getArchivedMessages : M (list ArchivedMsg) :=
  let* k := getKV in
  ret (default [] (kv_archive k)).

(** The comparator [(a, b) => b.timestamp.localeCompare(a.timestamp)]. *)
Definition newestFirst (a b : ArchivedMsg) : Z :=
  localeCompare (am_timestamp b) (am_timestamp a).

(** The loop of [archiveMessages]: [existing] grows at its end, [timestamps]
    is the [Set] of the time stamps already held. *)
Fixpoint archiveLoop (msgs : list Message) (existing : list ArchivedMsg)
    (timestamps : list jsstring) (added : nat) : list ArchivedMsg * nat :=
  match msgs with
  | [] => (existing, added)
  | ev :: msgs' =>
    match ev_timestamp ev with
    | Some ((_ :: _) as ts) =>
      if mem ts timestamps then archiveLoop msgs' existing timestamps added
      else
        archiveLoop msgs'
          (existing ++
           [{| am_timestamp := ts; am_agent := ev_agent ev;
               am_recipient := ev_recipient ev;
               am_messagePreview := truthy_or_null (ev_messagePreview ev) |}])
          (ts :: timestamps) (S added)
    | _ => archiveLoop msgs' existing timestamps added
    end
  end.

(** [archiveMessages(env, messageEvents)] *)
Definition archiveMessages (messageEvents : list Message) : M unit :=
  match messageEvents with
  | [] => ret tt
  | _ =>
    let* existing := getArchivedMessages in
    let '(existing, added) :=
      archiveLoop messageEvents existing (map am_timestamp existing) 0%nat in
    if (0 <? added)%nat then
      let trimmed := take MAX_ARCHIVED_MESSAGES (jsSort newestFirst existing) in
      putKV (put_archive trimmed)
    else ret tt
  end.

Inductive SkipReason := cooldown | api_error | fetch_error.

Inductive ScanResult :=
  | not_scanned (reason : SkipReason)
  | scanned (newMentions : nat).

Definition ts_eqb (a b : option jsstring) : bool :=
  match a, b with
  | Some x, Some y => jseqb x y
  | None, None => true
  | _, _ => false
  end.

Definition ts_mem (t : option jsstring) (l : list (option jsstring)) : bool :=
  existsb (ts_eqb t) l.

(** [set.add(t)] on a [Set] kept as the list of its elements. *)
Definition ts_add (l : list (option jsstring)) (t : option jsstring)
    : list (option jsstring) :=
  if ts_mem t l then l else l ++ [t].

(** An archived message as an element of [messageEvents]. *)
Definition asEvent (m : ArchivedMsg) : Message :=
  {| ev_type := None; ev_timestamp := Some (am_timestamp m);
     ev_messagePreview := am_messagePreview m;
     ev_agent := am_agent m; ev_recipient := am_recipient m |}.

(** The sender of an entry as the contributor the scan adds. *)
Definition senderOf (ev : Message) : option Agent :=
  match ev_agent ev with
  | Some a =>
    if truthy (p_btcAddress a)
    then Some {| btcAddress := default [] (p_btcAddress a);
                 displayName := default [] (p_displayName a);
                 agentId := None; profileUrl := None; claimedAt := None |}
    else None
  | None => None
  end.

(** What one entry does to one item. *)
Definition mentionItem (preview : jsstring) (ev : Message) (item : Item)
    : Item * list AuditEvent :=
  match matchMention preview item with
  | Some _ =>
    let item := set_mentions (Some (default 0 (mentions item) + 1)) item in
    let item := addContributor item (senderOf ev) in
    (item, [mentioned (id item) (ev_agent ev)])
  | None => (item, [])
  end.

Record Scanning := {
  sc_items : list Item;
  sc_processed : list (option jsstring);
  sc_mentions : list AuditEvent;
}.

(** The loop over [newEvents]. *)
Definition scanEvent (st : Scanning) (ev : Message) : Scanning :=
  let preview := toLowerCase (default [] (ev_messagePreview ev)) in
  let turns := map (mentionItem preview ev) (sc_items st) in
  {| sc_items := map fst turns;
     sc_processed := ts_add (sc_processed st) (ev_timestamp ev);
     sc_mentions := sc_mentions st ++ concat (map snd turns) |}.

Definition zeroMentions (item : Item) : Item :=
  match mentions item with
  | Some _ => set_mentions (Some 0) item
  | None => item
  end.

(** [[...processedIds].slice(-500)] *)
Definition last500 {A} (l : list A) : list A := drop (length l - 500)%nat l.

(** [scanForMentions(env, { reset })] *)
Definition scanForMentions (net : Network) (now : Z) (reset : bool) : M ScanResult :=
  let* k := getKV in
  let scanMeta := kv_mention_scan k in
  let lastScan :=
    match scanMeta with
    | Some m => default 0 (lastScanAt m)
    | None => 0
    end in
  if negb reset && (now - lastScan <? MENTION_SCAN_COOLDOWN_MS)
  then ret (not_scanned cooldown)
  else
    let processedIds :=
      if reset then []
      else fold_left ts_add
             (match scanMeta with Some m => processedIds m | None => [] end) [] in
    match activity net with
    | feed_fail => ret (not_scanned fetch_error)
    | feed_status _ => ret (not_scanned api_error)
    | feed_events activityEvents =>
      let messageEvents :=
        List.filter
          (fun e => is_str (ev_type e) "message" && truthy (ev_messagePreview e))
          activityEvents in
      archiveMessages messageEvents ;;
      let* messageEvents :=
        match reset, messageEvents with
        | true, _ :: _ =>
          let* archived := getArchivedMessages in
          let liveTimestamps := map ev_timestamp messageEvents in
          ret (messageEvents ++
               map asEvent
                 (List.filter
                    (fun msg =>
                       negb (ts_mem (Some (am_timestamp msg)) liveTimestamps)
                       && truthy (am_messagePreview msg))
                    archived))
        | _, _ => ret messageEvents
        end in
      let sourceEvents := if reset then messageEvents else activityEvents in
      match sourceEvents with
      | [] => ret (scanned 0)
      | _ =>
        let newEvents :=
          List.filter
            (fun e =>
               (is_str (ev_type e) "message" || reset)
               && truthy (ev_messagePreview e)
               && negb (ts_mem (ev_timestamp e) processedIds))
            sourceEvents in
        match newEvents with
        | [] =>
          putKV (put_mention_scan
                   {| lastScanAt := Some now;
                      processedIds := last500 processedIds |}) ;;
          ret (scanned 0)
        | _ =>
          let* data := getData now in
          let items0 := if reset then map zeroMentions (items data) else items data in
          let st :=
            fold_left scanEvent newEvents
              {| sc_items := items0; sc_processed := processedIds;
                 sc_mentions := [] |} in
          let changed := reset || (0 <? length (sc_mentions st))%nat in
          (if changed then saveRetry now (set_items (sc_items st) data) 3 else ret tt) ;;
          (if reset then ret tt else recordEvents (sc_mentions st)) ;;
          putKV (put_mention_scan
                   {| lastScanAt := Some now;
                      processedIds := last500 (sc_processed st) |}) ;;
          ret (scanned (length (sc_mentions st)))
        end
      end
    end.

(** *** Website discovery *)

Definition WEBSITE_SCAN_COOLDOWN_MS : Z := 60 * 60 * 1000.

Definition emptyRepoState : RepoState :=
  {| rs_contributors := None; rs_contributorFails := None; rs_events := None;
     rs_eventFails := None; rs_website := None; rs_websiteFails := None |}.

Definition set_rs_website (t fails : option Z) (r : RepoState) : RepoState :=
  {| rs_contributors := rs_contributors r;
     rs_contributorFails := rs_contributorFails r; rs_events := rs_events r;
     rs_eventFails := rs_eventFails r; rs_website := t;
     rs_websiteFails := fails |}.

Definition set_repos (m : gmap jsstring RepoState) (s : ScanState) : ScanState :=
  {| repos := m; websiteFilterVersion := websiteFilterVersion s |}.

(** The one-time reset of the website cooldowns. *)
Definition resetWebsiteCooldowns (s : ScanState) : ScanState :=
  match websiteFilterVersion s with
  | Some v =>
    if (v =? 0) || (v <? 5)
    then {| repos := set_rs_website None None <$> repos s;
            websiteFilterVersion := Some 5 |}
    else s
  | None => {| repos := set_rs_website None None <$> repos s;
               websiteFilterVersion := Some 5 |}
  end.

Definition repoPathOf (p : ParsedUrl) : jsstring :=
  owner p ++ str "/" ++ repo p.

Definition websiteOf (item : Item) : option Website :=
  match website item with
  | Val w => Some w
  | _ => None
  end.

(** The state of the loop of [discoverWebsites]. *)
Record Discovering := {
  dw_items : list Item;
  dw_claimed : gset jsstring;
  dw_scan : ScanState;
  dw_changed : bool;
  dw_discovered : nat;
  dw_scanned : list jsstring;
  dw_errors : list jsstring;
}.

(** Keeping a homepage claim in step with [githubData.homepage]. *)
Definition syncHomepage (now : Z) (item : Item) : Item * bool :=
  match websiteOf item, homepageOf item with
  | Some w, Some h =>
    if isHomepageSource (w_source w) && negb (jseqb (w_url w) h)
    then (set_website (Val {| w_url := h; w_source := w_source w;
                              w_discoveredAt := now |}) item, true)
    else (item, false)
  | _, _ => (item, false)
  end.

(** [[...data.items].some(other => other !== item && ...)]: another record
    holds [url] through a homepage claim. *)
Definition homepageClaimedElsewhere (all : list Item) (i : nat) (url : jsstring) : bool :=
  existsb
    (fun '(j, other) =>
       negb (j =? i)%nat
       && match websiteOf other with
          | Some w => jseqb (w_url w) url && isHomepageSource (w_source w)
          | None => false
          end)
    (imap pair all).

Definition shouldClear (all : list Item) (i : nat) (item : Item) : bool :=
  match websiteOf item with
  | None => false
  | Some w =>
    (isDeploymentUrl (w_url w) =? 0)
    || (negb (isHomepageSource (w_source w))
        && homepageClaimedElsewhere all i (w_url w))
  end.

Inductive Candidate :=
  | candidate (url : jsstring) (source : WebsiteSource)
  | no_candidate
  | readme_threw.

(** Priority 4: the first deliverable that scores and is not the board. *)
Definition deliverableUrl (item : Item) : option jsstring :=
  match List.find
          (fun d =>
             truthy (d_url d)
             && negb (isDeploymentUrl (default [] (d_url d)) =? 0)
             && negb (isSelfHost (default [] (d_url d))))
          (deliverables item) with
  | Some d => d_url d
  | None => None
  end.

(** The five sources in their order of priority. *)
Definition findCandidate (net : Network) (archived : list ArchivedMsg)
    (claimedUrls : gset jsstring) (repoPath : jsstring) (item : Item) : Candidate :=
  let fromHomepage :=
    match homepageOf item with
    | Some h => if 0 <? isDeploymentUrl h then Some h else None
    | None => None
    end in
  match fromHomepage with
  | Some h => candidate h src_homepage
  | None =>
    match extractUrlFromDescription
            (match githubData item with Some gd => gd_title gd | None => None end)
            claimedUrls with
    | Some u => candidate u src_description
    | None =>
      match readme net repoPath with
      | readme_fail => readme_threw
      | reply =>
        match (match reply with
               | readme_text t => extractUrlFromReadme (Some t) claimedUrls
               | _ => None
               end) with
        | Some u => candidate u src_readme
        | None =>
          match deliverableUrl item with
          | Some u => candidate u src_deliverable
          | None =>
            match extractUrlFromMessages archived item with
            | Some u => candidate u src_message
            | None => no_candidate
            end
          end
        end
      end
    end
  end.

(** One turn of the loop of [discoverWebsites], for the item at index [i]. *)
Definition discoverStep (net : Network) (now : Z) (archived : list ArchivedMsg)
    (st : Discovering) (i : nat) : Discovering :=
  match dw_items st !! i with
  | None => st
  | Some item =>
    let '(item, synced) := syncHomepage now item in
    let all := <[i := item]> (dw_items st) in
    let clear := shouldClear all i item in
    let claimed :=
      if clear then dw_claimed st ∖ {[ default [] (w_url <$> websiteOf item) ]}
      else dw_claimed st in
    let scan :=
      if clear then
        match parseGithubUrl (githubUrl item) with
        | Some p =>
          set_repos (alter (fun r => set_rs_website None (rs_websiteFails r) r)
                       (repoPathOf p) (repos (dw_scan st))) (dw_scan st)
        | None => dw_scan st
        end
      else dw_scan st in
    let item := if clear then set_website Null item else item in
    let st :=
      {| dw_items := <[i := item]> (dw_items st); dw_claimed := claimed;
         dw_scan := scan; dw_changed := dw_changed st || synced || clear;
         dw_discovered := dw_discovered st; dw_scanned := dw_scanned st;
         dw_errors := dw_errors st |} in
    match websiteOf item with
    | Some _ => st
    | None =>
      match parseGithubUrl (githubUrl item) with
      | Some ({| utype := url_repo |} as parsed) =>
        if is_str (match githubData item with Some gd => gd_state gd | None => None end)
             "archived"
        then st
        else
          let repoPath := repoPathOf parsed in
          let repoState := default emptyRepoState (repos scan !! repoPath) in
          let lastScan := default 0 (rs_website repoState) in
          let cooldown :=
            if 3 <=? default 0 (rs_websiteFails repoState)
            then 6 * 60 * 60 * 1000 else WEBSITE_SCAN_COOLDOWN_MS in
          if now - lastScan <? cooldown then st
          else
            match findCandidate net archived claimed repoPath item with
            | readme_threw =>
              {| dw_items := dw_items st; dw_claimed := claimed;
                 dw_scan :=
                   set_repos
                     (<[repoPath :=
                          set_rs_website (Some now)
                            (Some (default 0 (rs_websiteFails repoState) + 1))
                            repoState]> (repos scan)) scan;
                 dw_changed := dw_changed st;
                 dw_discovered := dw_discovered st;
                 dw_scanned := dw_scanned st;
                 dw_errors :=
                   dw_errors st ++ [repoPath ++ str ": README fetch failed"] |}
            | found =>
              let url :=
                match found with
                | candidate u source =>
                  if bool_decide (u ∈ claimed) then None else Some (u, source)
                | _ => None
                end in
              let scan' :=
                set_repos
                  (<[repoPath := set_rs_website (Some now) (Some 0) repoState]>
                     (repos scan)) scan in
              match url with
              | Some (u, source) =>
                let item :=
                  set_updatedAt (Some now)
                    (set_website (Val {| w_url := u; w_source := source;
                                         w_discoveredAt := now |}) item) in
                {| dw_items := <[i := item]> (dw_items st);
                   dw_claimed := {[ u ]} ∪ claimed;
                   dw_scan := scan'; dw_changed := true;
                   dw_discovered := S (dw_discovered st);
                   dw_scanned := dw_scanned st ++ [repoPath];
                   dw_errors := dw_errors st |}
              | None =>
                {| dw_items := dw_items st; dw_claimed := claimed;
                   dw_scan := scan'; dw_changed := dw_changed st;
                   dw_discovered := dw_discovered st;
                   dw_scanned := dw_scanned st ++ [repoPath];
                   dw_errors := dw_errors st |}
              end
            end
      | _ => st
      end
    end
  end.

Record DiscoverResult := {
  scannedRepos : nat;
  discovered : nat;
  errors : list jsstring;
}.

(** The [Set] of the addresses that are claimed when the scan starts. *)
Definition claimedUrlsOf (l : list Item) : gset jsstring :=
  list_to_set
    (omap (fun it =>
             match websiteOf it with
             | Some w => if truthy (Some (w_url w)) then Some (w_url w) else None
             | None => None
             end) l).

(** [discoverWebsites(env)] *)
Definition discoverWebsites (net : Network) (now : Z) : M DiscoverResult :=
  let* k := getKV in
  let scanState :=
    resetWebsiteCooldowns
      (default {| repos := ∅; websiteFilterVersion := None |} (kv_github_scan k)) in
  let* data := getData now in
  (* the archive is read when the loop first needs it; nothing else touches
     the store during the loop, so it is read here *)
  let* archived := getArchivedMessages in
  let st :=
    fold_left (discoverStep net now archived) (seq 0 (length (items data)))
      {| dw_items := items data; dw_claimed := claimedUrlsOf (items data);
         dw_scan := scanState; dw_changed := false; dw_discovered := 0%nat;
         dw_scanned := []; dw_errors := [] |} in
  (if dw_changed st then saveRetry now (set_items (dw_items st) data) 3 else ret tt) ;;
  putKV (put_github_scan (dw_scan st)) ;;
  ret {| scannedRepos := length (dw_scanned st);
         discovered := dw_discovered st;
         errors := dw_errors st |}.

End Scans.

End Tasks.

(** ** [items.js]: the rate and claim_leadership actions of [PUT] *)

Module Items.

Definition MS_PER_DAY : Z := 1000 * 60 * 60 * 24.

(** [computeReputation(ratings)].  The average is kept in tenths;
    [Math.round(x * 10) / 10] rounds the exact quotient half up. *)
Definition computeReputation (ratings : list Rating) : Reputation :=
  match ratings with
  | [] => {| average10 := 0; count := 0%nat |}
  | _ =>
    let sum := fold_left (fun s r => s + r_score r) ratings 0 in
    let n := Z.of_nat (length ratings) in
    {| average10 := (20 * sum + n) / (2 * n); count := length ratings |}
  end.

(** [bumpLeaderActivity(item, agent)] *)
Definition bumpLeaderActivity (now : Z) (item : Item) (agent : Agent) : Item :=
  match leader item with
  | Some l =>
    if jseqb (l_btcAddress l) (btcAddress agent)
    then set_leader (Some {| l_btcAddress := l_btcAddress l;
                             l_displayName := l_displayName l;
                             l_agentId := l_agentId l;
                             l_profileUrl := l_profileUrl l;
                             l_assignedAt := l_assignedAt l;
                             l_lastActiveAt := Some now |}) item
    else item
  | None => item
  end.

Inductive ErrorBody :=
  | err_not_authenticated
  | err_id_required
  | err_item_not_found
  | err_score                 (* score must be an integer from 1 to 5 *)
  | err_review                (* review must be 280 characters or fewer *)
  | err_no_leader
  | err_already_leader
  | err_leader_active (days : Z) (lastActiveAt : option Z)
  | err_conflict.             (* Another update was in progress *)

Inductive Response :=
  | resp_error (httpStatus : Z) (error : ErrorBody)
  | resp_item (item : Item).

(** The two actions modelled; [score] is [None] when [body.score] is not
    an integer. *)
Inductive Action :=
  | rate (score : option Z) (review : option jsstring)
  | claim_leadership.

Record Body := {
  b_id : option jsstring;
  b_action : Action;
}.

(** The rate branch of [_handlePut]: an error, or the item as rated. *)
Definition rateItem (now : Z) (agent : Agent) (score : option Z)
    (review : option jsstring) (item : Item) : Response + Item :=
  match score with
  | None => inl (resp_error 400 err_score)
  | Some score =>
    if (score <? 1) || (5 <? score) then inl (resp_error 400 err_score)
    else
      let review := trim (default [] review) in
      if (280 <? length review)%nat then inl (resp_error 400 err_review)
      else
        let rating :=
          {| r_agentId := agentId agent; r_btcAddress := btcAddress agent;
             r_displayName := displayName agent; r_score := score;
             r_review := (match review with [] => None | _ => Some review end); r_ratedAt := now |} in
        let ratings' :=
          match findIndex (fun r => jseqb (r_btcAddress r) (btcAddress agent))
                  (ratings item) with
          | Some existingIdx => <[existingIdx := rating]> (ratings item)
          | None => ratings item ++ [rating]
          end in
        let item := set_ratings ratings' item in
        let item := set_reputation (Some (computeReputation (ratings item))) item in
        let item := Tasks.addContributor item (Some agent) in
        let item := bumpLeaderActivity now item agent in
        inr (set_updatedAt (Some now) item)
  end.

(** The claim_leadership branch of [_handlePut]. *)
Definition claimLeadership (now : Z) (agent : Agent) (item : Item)
    : Response + Item * AuditEvent :=
  match leader item with
  | None => inl (resp_error 400 err_no_leader)
  | Some l =>
    if jseqb (l_btcAddress l) (btcAddress agent)
    then inl (resp_error 400 err_already_leader)
    else
      let lastActive := default 0 (l_lastActiveAt l) in
      (* daysSinceActive = (now - lastActive) / MS_PER_DAY, a real number *)
      let elapsed := now - lastActive in
      if elapsed <? 30 * MS_PER_DAY
      then inl (resp_error 400
                  (err_leader_active (elapsed / MS_PER_DAY) (l_lastActiveAt l)))
      else
        let item :=
          set_leader (Some {|
            l_btcAddress := btcAddress agent;
            l_displayName := displayName agent;
            l_agentId := agentId agent;
            l_profileUrl := Tasks.agentProfileUrl (btcAddress agent);
            l_assignedAt := now;
            l_lastActiveAt := Some now |}) item in
        let item := Tasks.addContributor item (Some agent) in
        inr (set_updatedAt (Some now) item,
             leadership_claimed (id item) (l_btcAddress l) (btcAddress agent)
               (elapsed / MS_PER_DAY))
  end.

(** [_handlePut(context)] for a request whose action is one of the two;
    [agent] is what [getAgent] returned. *)
Definition _handlePut (now : Z) (agent : option Agent) (body : Body) : M Response :=
  match agent with
  | None => ret (resp_error 401 err_not_authenticated)
  | Some agent =>
    if negb (truthy (b_id body)) then ret (resp_error 400 err_id_required)
    else
      let* data := Tasks.getData now in
      match findIndex (fun i => jseqb (id i) (default [] (b_id body))) (items data) with
      | None => ret (resp_error 404 err_item_not_found)
      | Some idx =>
        match items data !! idx with
        | None => ret (resp_error 404 err_item_not_found)
        | Some item =>
          match b_action body with
          | rate score review =>
            match rateItem now agent score review item with
            | inl response => ret response
            | inr item =>
              Tasks.saveData now (set_items (<[idx := item]> (items data)) data) ;;
              recordEvent
                (rated (id item) (btcAddress agent) (default 0 score)
                   (average10 (default {| average10 := 0; count := 0%nat |}
                                 (reputation item)))) ;;
              ret (resp_item item)
            end
          | claim_leadership =>
            match claimLeadership now agent item with
            | inl response => ret response
            | inr (item, event) =>
              Tasks.saveData now (set_items (<[idx := item]> (items data)) data) ;;
              recordEvent event ;;
              ret (resp_item item)
            end
          end
        end
      end
  end.

(** [onRequestPut(context)]: a conflict becomes the answer 409. *)
Definition onRequestPut (now : Z) (agent : option Agent) (body : Body) : M Response :=
  try_catch (_handlePut now agent body)
    (fun err => ret (resp_error 409 err_conflict)).

End Items.

(** ** The earlier [items.js], which stores the status *)

Module Legacy.

Definition STALE_AFTER_MS : Z := 60 * 60 * 1000.

(** [getData(env)]: the only migration fills fields the model does not
    tell from their defaults. *)
Definition getData : M Registry :=
  let* k := getKV in
  let data :=
    default {| version := 1; writeVersion := None; items := [];
               reg_updatedAt := None |} (kv_items k) in
  ret (if version data <? 2 then set_version 2 data else data).

(** [saveData(env, data)]: no version check. *)
Definition saveData (now : Z) (data : Registry) : M unit :=
  putKV (put_items (set_reg_updatedAt (Some now) data)).

(** [fetchGithubData(url, env)]: every failure is [null]. *)
Definition fetchGithubData (net : Network) (now : Z) (url : option jsstring)
    : option GithubData :=
  match Tasks.fetchGithubData net now url with
  | Tasks.fetch_data gd =>
    Some {| gd_type := gd_type gd; gd_number := gd_number gd;
            gd_title := gd_title gd; gd_state := gd_state gd;
            gd_merged := gd_merged gd; gd_assignees := gd_assignees gd;
            gd_labels := gd_labels gd; gd_stars := gd_stars gd;
            gd_homepage := None; gd_ownerLogin := None;
            gd_fetchedAt := gd_fetchedAt gd; gd_notFoundCount := None |}
  | _ => None
  end.

Definition isTerminal (s : Status) : bool :=
  match s with
  | done | shipped | paid => true
  | _ => false
  end.

(** The body of the loop of [refreshStaleGithubData] for one item: the
    item, whether it changed, and the events to record. *)
Definition refreshItem (net : Network) (now : Z) (item : Item)
    : Item * bool * list AuditEvent :=
  if negb (truthy (githubUrl item)) then (item, false, [])
  else
    let fetchedAt :=
      match githubData item with
      | Some gd => default 0 (gd_fetchedAt gd)
      | None => 0
      end in
    if now - fetchedAt <? STALE_AFTER_MS then (item, false, [])
    else
      match fetchGithubData net now (githubUrl item) with
      | None => (item, false, [])
      | Some fresh =>
        let '(item, events) :=
          if negb (isTerminal (status item)) then
            let closed :=
              is_str (gd_state fresh) "closed" || is_str (gd_state fresh) "archived" in
            let merged := gd_merged fresh in
            if closed || merged
            then (set_status done item,
                  [auto_completed (id item) (status item) done])
            else (item, [])
          else (item, []) in
        (set_updatedAt (Some now) (set_githubData (Some fresh) item), true, events)
      end.

(** [refreshStaleGithubData(env)] *)
Definition refreshStaleGithubData (net : Network) (now : Z) : M unit :=
  let* data := getData in
  let turns := map (refreshItem net now) (items data) in
  let changed := existsb (fun t => snd (fst t)) turns in
  if changed then
    saveData now (set_items (map (fun t => fst (fst t)) turns) data) ;;
    recordEvents (concat (map snd turns))
  else ret tt.

End Legacy.

(** ** [reorder.js] *)

Module Reorder.

(** A JavaScript [Map] from ids to items: its entries in the order of first
    insertion. *)
Definition ItemMap := list (jsstring * Item).

(** [map.set(k, v)]: a present key keeps its place and takes the value. *)
Fixpoint map_set (k : jsstring) (v : Item) (m : ItemMap) : ItemMap :=
  match m with
  | [] => [(k, v)]
  | (k', v') :: m' =>
    if jseqb k' k then (k', v) :: m' else (k', v') :: map_set k v m'
  end.

(** [new Map(items.map(i => [i.id, i]))] *)
Definition map_of_items (l : list Item) : ItemMap :=
  fold_left (fun m i => map_set (id i) i m) l [].

(** [map.get(k)], [None] when [map.has(k)] is false. *)
Definition map_get (k : jsstring) (m : ItemMap) : option Item :=
  option_map snd (List.find (fun e => jseqb (fst e) k) m).

(** [map.delete(k)] *)
Definition map_delete (k : jsstring) (m : ItemMap) : ItemMap :=
  List.filter (fun e => negb (jseqb (fst e) k)) m.

(** The first loop: the items named by [orderedIds], each taken once. *)
Fixpoint pick (orderedIds : list jsstring) (m : ItemMap) : list Item * ItemMap :=
  match orderedIds with
  | [] => ([], m)
  | k :: ids =>
    match map_get k m with
    | Some item =>
      let '(picked, m') := pick ids (map_delete k m) in (item :: picked, m')
    | None => pick ids m
    end
  end.

(** The list [reordered] that becomes [data.items]. *)
Definition reorder (l : list Item) (orderedIds : list jsstring) : list Item :=
  let '(picked, rest) := pick orderedIds (map_of_items l) in
  picked ++ map snd rest.

Inductive Response :=
  | resp_unauthenticated                (* 401 *)
  | resp_ids_required                   (* 400 *)
  | resp_ok (count : nat).              (* 200 *)

(** [onRequestPost(context)]; [orderedIds] is [None] when the body holds no
    array of that name.  The write goes to the store without a version
    check. *)
Definition onRequestPost (now : Z) (agent : option Agent)
    (orderedIds : option (list jsstring)) : M Response :=
  match agent, orderedIds with
  | None, _ => ret resp_unauthenticated
  | Some _, None => ret resp_ids_required
  | Some _, Some ids =>
    let* k := getKV in
    let data :=
      default {| version := 1; writeVersion := None; items := [];
                 reg_updatedAt := None |} (kv_items k) in
    let reordered := reorder (items data) ids in
    putKV (put_items (set_reg_updatedAt (Some now) (set_items reordered data))) ;;
    ret (resp_ok (length reordered))
  end.

End Reorder.

(** ** A platform to run the model on

    ASCII lower-casing, addresses of the plain shape
    [http(s)://host[:port]/path] and the order of the code units.  The
    theorems below hold for every platform; this one runs the examples. *)

Module SimplePlatform.

Fixpoint lexCompare (a b : jsstring) : Z :=
  match a, b with
  | [], [] => 0
  | [], _ :: _ => -1
  | _ :: _, [] => 1
  | x :: a', y :: b' =>
    if (x <? y)%N then -1
    else if (y <? x)%N then 1
    else lexCompare a' b'
  end.

Definition simpleParseUrl (u : jsstring) : option Url :=
  match Tasks.matchUrl u with
  | Some (matched, []) =>
    let afterScheme :=
      match span (fun c => negb (c =? 58)%N) matched with
      | (_, _ :: _ :: _ :: rest) => rest
      | _ => []
      end in
    let '(authority, rest) :=
      span (fun c => negb ((c =? 47) || (c =? 63) || (c =? 35))%N) afterScheme in
    let host := fst (span (fun c => negb (c =? 58)%N) authority) in
    let path := fst (span (fun c => negb ((c =? 63) || (c =? 35))%N) rest) in
    match host with
    | [] => None
    | _ => Some {| hostname := map lowerAscii host;
                   pathname := match path with [] => str "/" | _ => path end |}
    end
  | _ => None
  end.

Lemma lexCompare_total (a b : jsstring) :
  lexCompare a b <= 0 \/ lexCompare b a <= 0.
Proof.
  revert b; induction a as [|x a IH]; intros [|y b]; simpl; try lia.
  destruct (N.ltb_spec x y), (N.ltb_spec y x); try lia.
  apply IH.
Qed.

Lemma lexCompare_trans (a b c : jsstring) :
  lexCompare a b <= 0 -> lexCompare b c <= 0 -> lexCompare a c <= 0.
Proof.
  revert b c; induction a as [|x a IH]; intros [|y b] [|z c]; simpl; try lia.
  destruct (N.ltb_spec x y), (N.ltb_spec y x), (N.ltb_spec y z),
    (N.ltb_spec z y), (N.ltb_spec x z), (N.ltb_spec z x); try lia.
  apply IH.
Qed.

Lemma lower_nonempty (s : jsstring) : map lowerAscii s = [] -> s = [].
Proof. destruct s; [reflexivity | discriminate]. Qed.

#[export] Instance platform : Platform := {|
  toLowerCase := map lowerAscii;
  parseUrl := simpleParseUrl;
  localeCompare := lexCompare;
  toLowerCase_nonempty := lower_nonempty;
  localeCompare_total := lexCompare_total;
  localeCompare_trans := lexCompare_trans;
|}.

End SimplePlatform.

(** * Properties *)

(** ** Strings *)

Lemma jseqb_eq (s t : jsstring) : jseqb s t = true <-> s = t.
Proof.
  revert t; induction s as [|c s IH]; intros [|d t]; simpl; try easy.
  rewrite andb_true_iff, N.eqb_eq, IH.
  split; [intros [-> ->]; reflexivity | intros [= -> ->]; auto].
Qed.

Lemma jseqb_refl (s : jsstring) : jseqb s s = true.
Proof. apply jseqb_eq; reflexivity. Qed.

Lemma jseqb_neq (s t : jsstring) : jseqb s t = false <-> s <> t.
Proof.
  rewrite <- jseqb_eq. destruct (jseqb s t); split; congruence.
Qed.

Lemma is_str_eq (o : option jsstring) (lit : string) :
  is_str o lit = true <-> o = Some (str lit).
Proof.
  destruct o as [s|]; simpl; [|easy].
  rewrite jseqb_eq. split; congruence.
Qed.

Lemma is_str_neq (o : option jsstring) (lit : string) :
  is_str o lit = false <-> o <> Some (str lit).
Proof.
  rewrite <- is_str_eq. destruct (is_str o lit); split; congruence.
Qed.

(** ** Status derivation *)

(** The three things [deriveStatus] reads of a snapshot. *)
Definition kindAndFlags (item : Item)
    : option (option jsstring * option jsstring * bool) :=
  match githubData item with
  | Some gd => Some (gd_type gd, gd_state gd, gd_merged gd)
  | None => None
  end.

(** C1. [deriveStatus] is a function of the snapshot's type, state and
    merged flag alone.  It gives [todo] without a snapshot or without a
    type; for a repository [done] when archived and [in_progress]
    otherwise; for a pull request [done] when merged, else [blocked] when
    closed, else [in_progress]; for an issue (and any other type) [done]
    when closed and [in_progress] otherwise; never [shipped] or [paid]. *)
Theorem deriveStatus_spec (item : Item) :
  (forall item', kindAndFlags item' = kindAndFlags item ->
     Tasks.deriveStatus item' = Tasks.deriveStatus item)
  /\ (githubData item = None -> Tasks.deriveStatus item = todo)
  /\ (forall gd, githubData item = Some gd ->
      (truthy (gd_type gd) = false -> Tasks.deriveStatus item = todo)
      /\ (gd_type gd = Some (str "repo") ->
          (gd_state gd = Some (str "archived") -> Tasks.deriveStatus item = done)
          /\ (gd_state gd <> Some (str "archived") ->
              Tasks.deriveStatus item = in_progress))
      /\ (gd_type gd = Some (str "pr") ->
          (gd_merged gd = true -> Tasks.deriveStatus item = done)
          /\ (gd_merged gd = false -> gd_state gd = Some (str "closed") ->
              Tasks.deriveStatus item = blocked)
          /\ (gd_merged gd = false -> gd_state gd <> Some (str "closed") ->
              Tasks.deriveStatus item = in_progress))
      /\ (truthy (gd_type gd) = true -> gd_type gd <> Some (str "repo") ->
          gd_type gd <> Some (str "pr") ->
          (gd_state gd = Some (str "closed") -> Tasks.deriveStatus item = done)
          /\ (gd_state gd <> Some (str "closed") ->
              Tasks.deriveStatus item = in_progress)))
  /\ Tasks.deriveStatus item <> shipped
  /\ Tasks.deriveStatus item <> paid.
Proof.
  unfold Tasks.deriveStatus, kindAndFlags.
  split.
  { intros item' H. destruct (githubData item') as [gd'|], (githubData item) as [gd|];
      try discriminate; [|reflexivity].
    injection H as -> -> ->. reflexivity. }
  split; [intros ->; reflexivity|].
  split.
  - intros gd ->.
    split; [intros ->; reflexivity|].
    split.
    { intros Ht. rewrite Ht. simpl.
      split; intros Hs.
      - rewrite Hs. reflexivity.
      - apply (is_str_neq _ "archived") in Hs. rewrite Hs. reflexivity. }
    split.
    { intros Ht. rewrite Ht. simpl.
      split; [intros ->; reflexivity|].
      split; intros -> Hs.
      - rewrite Hs. reflexivity.
      - apply (is_str_neq _ "closed") in Hs. rewrite Hs. reflexivity. }
    intros Ht Hr Hp. rewrite Ht. simpl.
    apply (is_str_neq _ "repo") in Hr. apply (is_str_neq _ "pr") in Hp.
    rewrite Hr, Hp.
    split; intros Hs.
    + rewrite Hs. reflexivity.
    + apply (is_str_neq _ "closed") in Hs. rewrite Hs. reflexivity.
  - destruct (githubData item) as [gd|]; [|split; discriminate].
    destruct (truthy (gd_type gd)); simpl; [|split; discriminate].
    destruct (is_str (gd_type gd) "repo"), (is_str (gd_type gd) "pr"),
      (is_str (gd_state gd) "archived"), (is_str (gd_state gd) "closed"),
      (gd_merged gd); split; discriminate.
Qed.

(** ** The versioned store *)

(** The write-version of the stored blob, a missing one counting as [0]. *)
Definition storedVersion (k : KV) : Z :=
  match kv_items k with
  | Some r => default 0 (writeVersion r)
  | None => 0
  end.

(** A world in which no other invocation has a write pending. *)
Definition quiet (k : KV) (sl : list Z) (au : list AuditEvent) : World :=
  {| kv := k; others := []; slept := sl; audit := au |}.

(** What a successful [saveData] persists. *)
Definition saved (now : Z) (data : Registry) : Registry :=
  set_reg_updatedAt (Some now)
    (set_writeVersion (Some (default 0 (writeVersion data) + 1)) data).

(** [saveData] in a [try], its outcome as a boolean. *)
Definition attempt {A} (m : M A) : M bool :=
  try_catch (m ;; ret true) (fun _ => ret false).

(** Two writers load the same stored registry, each makes its change to the
    items, and both save, the first before the second. *)
Definition twoWriters (tLoad tA tB : Z) (changeA changeB : list Item -> list Item)
    : M (bool * bool) :=
  let* dataA := Tasks.getData tLoad in
  let* dataB := Tasks.getData tLoad in
  let* okA := attempt (Tasks.saveData tA (set_items (changeA (items dataA)) dataA)) in
  let* okB := attempt (Tasks.saveData tB (set_items (changeB (items dataB)) dataB)) in
  ret (okA, okB).

Lemma migrate_step_writeVersion below f data :
  writeVersion (Tasks.migrate_step below f data) = writeVersion data.
Proof. unfold Tasks.migrate_step. destruct (_ <? _); reflexivity. Qed.

Lemma getData_run now w :
  exists data,
    Tasks.getData now w = (Ok data, w)
    /\ writeVersion data = Some (storedVersion (kv w))
    /\ 10 <= version data.
Proof.
  unfold Tasks.getData, bind, getKV, ret. eexists. split; [reflexivity|].
  rewrite !migrate_step_writeVersion. simpl. split.
  - unfold storedVersion. destruct (kv_items (kv w)); reflexivity.
  - set (d0 := set_writeVersion _ _).
    set (d1 := Tasks.migrate_step 5 _ d0).
    set (d2 := Tasks.migrate_step 6 _ d1).
    set (d3 := Tasks.migrate_step 7 _ d2).
    set (d4 := Tasks.migrate_step 8 _ d3).
    unfold Tasks.migrate_step at 1.
    destruct (Z.ltb_spec (version d4) 10); simpl; lia.
Qed.

Lemma saveData_run now data k sl au :
  Tasks.saveData now data (quiet k sl au) =
  if storedVersion k =? default 0 (writeVersion data)
  then (Ok (saved now data), quiet (put_items (saved now data) k) sl au)
  else (Throw ConcurrencyError, quiet k sl au).
Proof.
  unfold Tasks.saveData, Tasks.saveData_check, Tasks.saveData_put, bind, yield,
    getKV, putKV, throw, ret, storedVersion.
  simpl. destruct (_ =? _); reflexivity.
Qed.

Lemma twoWriters_run tLoad tA tB changeA changeB k sl au dataA :
  Tasks.getData tLoad (quiet k sl au) = (Ok dataA, quiet k sl au) ->
  writeVersion dataA = Some (storedVersion k) ->
  twoWriters tLoad tA tB changeA changeB (quiet k sl au) =
  (Ok (true, false),
   quiet (put_items (saved tA (set_items (changeA (items dataA)) dataA)) k) sl au).
Proof.
  intros Hget Hv.
  unfold twoWriters.
  unfold bind at 1. rewrite Hget.
  unfold bind at 1. rewrite Hget.
  unfold bind at 1. unfold attempt at 1. unfold try_catch, bind at 1.
  rewrite saveData_run.
  replace (default 0 (writeVersion (set_items (changeA (items dataA)) dataA)))
    with (storedVersion k) by (simpl; rewrite Hv; reflexivity).
  rewrite Z.eqb_refl. cbv beta iota. unfold ret at 1. cbv beta iota.
  unfold bind at 1. unfold attempt, try_catch, bind at 1.
  rewrite saveData_run.
  replace (default 0 (writeVersion (set_items (changeB (items dataA)) dataA)))
    with (storedVersion k) by (simpl; rewrite Hv; reflexivity).
  replace (storedVersion (put_items _ k)) with (storedVersion k + 1)
    by (unfold storedVersion at 2; simpl; rewrite Hv; reflexivity).
  destruct (Z.eqb_spec (storedVersion k + 1) (storedVersion k)); [lia|].
  reflexivity.
Qed.

(** Saves that do not overlap.  When no write of another invocation lands
    during the call, [saveData] throws [ConcurrencyError] exactly when the
    stored write-version (a missing one counting as 0) differs from the one
    [data] carries from its load, and then leaves the store as it is;
    otherwise it persists [data] with that write-version plus one.  So of
    two writers that loaded the same registry and save one after the other,
    the first succeeds, the second gets the conflict, and the store holds
    the first writer's registry. *)
Theorem saveData_conflict_iff now data k sl au :
  let w := quiet k sl au in
  let expected := default 0 (writeVersion data) in
  (fst (Tasks.saveData now data w) = Throw ConcurrencyError
   <-> storedVersion k <> expected)
  /\ (storedVersion k <> expected -> snd (Tasks.saveData now data w) = w)
  /\ (storedVersion k = expected ->
      fst (Tasks.saveData now data w) = Ok (saved now data)
      /\ kv_items (kv (snd (Tasks.saveData now data w))) = Some (saved now data)
      /\ writeVersion (saved now data) = Some (storedVersion k + 1)
      /\ items (saved now data) = items data)
  /\ (forall tLoad tB changeA changeB,
      exists dataA,
        fst (Tasks.getData tLoad w) = Ok dataA
        /\ fst (twoWriters tLoad now tB changeA changeB w) = Ok (true, false)
        /\ kv_items (kv (snd (twoWriters tLoad now tB changeA changeB w)))
           = Some (saved now (set_items (changeA (items dataA)) dataA))
        /\ storedVersion (kv (snd (twoWriters tLoad now tB changeA changeB w)))
           = storedVersion k + 1).
Proof.
  intros w expected. subst w expected.
  rewrite saveData_run.
  split; [|split; [|split]].
  - destruct (Z.eqb_spec (storedVersion k) (default 0 (writeVersion data)));
      simpl; split; congruence.
  - intros H. apply Z.eqb_neq in H. rewrite H. reflexivity.
  - intros H. rewrite H, Z.eqb_refl. simpl. rewrite <- H. auto.
  - intros tLoad tB changeA changeB.
    destruct (getData_run tLoad (quiet k sl au)) as (dataA & Hget & Hv & _).
    exists dataA. rewrite (twoWriters_run _ _ _ _ _ _ _ _ _ Hget Hv), Hget.
    simpl. unfold storedVersion at 1. simpl. rewrite Hv. auto.
Qed.

(** *** Saves that overlap *)

(** The first half of a save in a [try]: what the check hands to the write
    when it passes. *)
Definition checked (now : Z) (data : Registry) : M (option Registry) :=
  try_catch (let* d := Tasks.saveData_check now data in ret (Some d))
    (fun _ => ret None).

(** The second half, when the check has passed. *)
Definition written (d : option Registry) : M bool :=
  match d with
  | Some d => Tasks.saveData_put d ;; ret true
  | None => ret false
  end.

(** Two writers load the same stored registry, each makes its change to the
    items, and both save at the same time: both reads of the stored
    write-version come back before either write has landed. *)
Definition twoWritersOverlapped (tLoad tA tB : Z)
    (changeA changeB : list Item -> list Item) : M (bool * bool) :=
  let* dataA := Tasks.getData tLoad in
  let* dataB := Tasks.getData tLoad in
  let* a := checked tA (set_items (changeA (items dataA)) dataA) in
  let* b := checked tB (set_items (changeB (items dataB)) dataB) in
  let* okA := written a in
  let* okB := written b in
  ret (okA, okB).

Lemma saveData_check_run now data k sl au :
  Tasks.saveData_check now data (quiet k sl au) =
  if storedVersion k =? default 0 (writeVersion data)
  then (Ok (saved now data), quiet k sl au)
  else (Throw ConcurrencyError, quiet k sl au).
Proof.
  unfold Tasks.saveData_check, bind, yield, getKV, throw, ret, storedVersion.
  simpl. destruct (_ =? _); reflexivity.
Qed.

Lemma saveData_put_run data k sl au :
  Tasks.saveData_put data (quiet k sl au) = (Ok data, quiet (put_items data k) sl au).
Proof. reflexivity. Qed.

Lemma saveData_put_ok data w : exists w', Tasks.saveData_put data w = (Ok data, w').
Proof.
  unfold Tasks.saveData_put, bind, yield, putKV, ret.
  destruct (others w); eexists; reflexivity.
Qed.

(** C3 on the code.  A save is its check followed by its write, and the
    write does not look at the store.  When the saves of two writers that
    loaded the same registry overlap, both checks find the write-version
    that was loaded, so both writers succeed and neither gets the conflict;
    the store ends with the registry of the writer whose write landed last,
    one write-version above the loaded one, and without the change of the
    other writer. *)
Theorem saveData_overlap_loses_update (tLoad tA tB : Z)
    (changeA changeB : list Item -> list Item) (k : KV) (sl : list Z)
    (au : list AuditEvent) :
  let w := quiet k sl au in
  (forall now data w',
     attempt (Tasks.saveData now data) w'
     = (let* d := checked now data in written d) w')
  /\ exists data,
       Tasks.getData tLoad w = (Ok data, w)
       /\ twoWritersOverlapped tLoad tA tB changeA changeB w
          = (Ok (true, true),
             quiet (put_items (saved tB (set_items (changeB (items data)) data)) k)
               sl au)
       /\ items (saved tB (set_items (changeB (items data)) data))
          = changeB (items data)
       /\ writeVersion (saved tB (set_items (changeB (items data)) data))
          = Some (storedVersion k + 1).
Proof.
  intros w. subst w. split.
  - intros now data w'. unfold attempt, checked, written, try_catch, Tasks.saveData.
    unfold bind. destruct (Tasks.saveData_check now data w') as [[d|e] w1];
      [|reflexivity].
    unfold ret. destruct (saveData_put_ok d w1) as [w2 ->]. reflexivity.
  - destruct (getData_run tLoad (quiet k sl au)) as (data & Hget & Hv & _).
    exists data. split; [exact Hget|].
    assert (Hexp : forall l, default 0 (writeVersion (set_items l data))
                             = storedVersion k).
    { intros l. cbn [writeVersion set_items]. rewrite Hv. reflexivity. }
    split; [|split; [reflexivity|cbn; rewrite Hv; reflexivity]].
    unfold twoWritersOverlapped.
    unfold bind at 1. rewrite Hget. unfold bind at 1. rewrite Hget.
    unfold bind at 1. unfold checked at 1. unfold try_catch, bind at 1.
    rewrite saveData_check_run, Hexp, Z.eqb_refl. unfold ret at 1.
    unfold bind at 1. unfold checked at 1. unfold try_catch, bind at 1.
    rewrite saveData_check_run, Hexp, Z.eqb_refl. unfold ret at 1.
    unfold bind at 1. unfold written at 1. unfold bind at 1.
    rewrite saveData_put_run. unfold ret at 1.
    unfold bind at 1. unfold written at 1. unfold bind at 1.
    rewrite saveData_put_run. unfold ret at 1.
    reflexivity.
Qed.

(** ** The retrying save *)








Lemma saveRetry_from_S now maxRetries remaining attempt data w :
  Tasks.saveRetry_from (S remaining) attempt maxRetries now data w =
  match Tasks.saveData now data w with
  | (Ok _, w') => (Ok tt, w')
  | (Throw e, w') =>
    if attempt =? maxRetries then (Throw e, w')
    else
      match yield {| kv := kv w'; others := others w';
                     slept := slept w' ++ [Tasks.backoff attempt];
                     audit := audit w' |} with
      | (_, w'') =>
        Tasks.saveRetry_from remaining (attempt + 1) maxRetries now
          (set_writeVersion (Some (storedVersion (kv w''))) data) w''
      end
  end.
Proof.
  simpl. unfold try_catch, bind at 1. unfold bind at 1.
  destruct (Tasks.saveData now data w) as [[a|e] w']; [reflexivity|].
  destruct (attempt =? maxRetries); [reflexivity|].
  unfold sleep, bind, getKV, yield. simpl.
  destruct (others w'); reflexivity.
Qed.





Definition emptyRegistry : Registry :=
  {| version := 10; writeVersion := Some 0; items := []; reg_updatedAt := None |}.

Definition emptyKV : KV :=
  {| kv_items := None; kv_mention_scan := None; kv_archive := None;
     kv_github_scan := None |}.


Definition staleItem : Item :=
  {| id := str "r_1"; title := Some (str "Arc Starter");
     githubUrl := Some (str "https://github.com/aibtcdev/arc-starter");
     githubData := None; status := todo; founder := None; claimedBy := None;
     leader := None; contributors := []; deliverables := []; ratings := [];
     reputation := Some {| average10 := 0; count := 0%nat |};
     mentions := Some 0; website := Null; searchTerms := [];
     createdAt := None; updatedAt := None |}.

Definition activeRepo : GhJson :=
  {| j_description := None; j_full_name := Some (str "aibtcdev/arc-starter");
     j_archived := false; j_topics := []; j_stargazers_count := Some 3;
     j_homepage := None; j_owner_login := Some (str "aibtcdev");
     j_title := None; j_state := None; j_merged := false;
     j_assignees := []; j_labels := [] |}.




(** ** Leadership takeover *)

Definition takeover (now : Z) (agent : Agent) : Leader :=
  {| l_btcAddress := btcAddress agent;
     l_displayName := displayName agent;
     l_agentId := agentId agent;
     l_profileUrl := Tasks.agentProfileUrl (btcAddress agent);
     l_assignedAt := now;
     l_lastActiveAt := Some now |}.

Lemma addContributor_leader item agent :
  leader (Tasks.addContributor item agent) = leader item.
Proof.
  unfold Tasks.addContributor. destruct agent as [a|]; [|reflexivity].
  destruct (btcAddress a); [reflexivity|].
  destruct (existsb _ _); reflexivity.
Qed.

Lemma addContributor_id item agent :
  id (Tasks.addContributor item agent) = id item.
Proof.
  unfold Tasks.addContributor. destruct agent as [a|]; [|reflexivity].
  destruct (btcAddress a); [reflexivity|].
  destruct (existsb _ _); reflexivity.
Qed.

(** The request [{ id, action: 'claim_leadership' }]. *)
Definition claimRequest (itemId : jsstring) : Items.Body :=
  {| Items.b_id := Some itemId; Items.b_action := Items.claim_leadership |}.

(** C9. An agent other than the leader claims the leadership of an item
    that has a leader.  While fewer than 30 days have passed since the
    leader's last activity the claim is rejected with status 400 and the
    whole number of days that have passed, and the store is left as it was,
    so the leader is unchanged.  From 30 days on it succeeds: the requester
    becomes the leader, with [assignedAt] and [lastActiveAt] at the time of
    the takeover, and (no other write coming between) the item is saved
    that way. *)
Theorem claimLeadership_threshold (now : Z) (agent : Agent) (item : Item)
    (l : Leader) :
  leader item = Some l ->
  l_btcAddress l <> btcAddress agent ->
  let elapsed := now - default 0 (l_lastActiveAt l) in
  let days := elapsed / Items.MS_PER_DAY in
  (elapsed < 30 * Items.MS_PER_DAY ->
     Items.claimLeadership now agent item =
     inl (Items.resp_error 400 (Items.err_leader_active days (l_lastActiveAt l)))
     /\ Items.MS_PER_DAY * days <= elapsed < Items.MS_PER_DAY * (days + 1)
     /\ forall w data idx,
          Tasks.getData now w = (Ok data, w) ->
          id item <> [] ->
          findIndex (fun i => jseqb (id i) (id item)) (items data) = Some idx ->
          items data !! idx = Some item ->
          Items.onRequestPut now (Some agent) (claimRequest (id item)) w =
          (Ok (Items.resp_error 400
                 (Items.err_leader_active days (l_lastActiveAt l))), w))
  /\ (30 * Items.MS_PER_DAY <= elapsed ->
      exists item',
        Items.claimLeadership now agent item =
        inr (item', leadership_claimed (id item) (l_btcAddress l) (btcAddress agent) days)
        /\ leader item' = Some (takeover now agent)
        /\ updatedAt item' = Some now
        /\ forall k sl au data idx,
             Tasks.getData now (quiet k sl au) = (Ok data, quiet k sl au) ->
             id item <> [] ->
             findIndex (fun i => jseqb (id i) (id item)) (items data) = Some idx ->
             items data !! idx = Some item ->
             let r := Items.onRequestPut now (Some agent) (claimRequest (id item))
                        (quiet k sl au) in
             fst r = Ok (Items.resp_item item')
             /\ kv_items (kv (snd r))
                = Some (saved now (set_items (<[idx := item']> (items data)) data))
             /\ audit (snd r)
                = au ++ [leadership_claimed (id item) (l_btcAddress l)
                           (btcAddress agent) days]).
Proof.
  intros Hl Hne elapsed days. subst elapsed days.
  assert (Hbranch_lt :
    now - default 0 (l_lastActiveAt l) < 30 * Items.MS_PER_DAY ->
    Items.claimLeadership now agent item =
    inl (Items.resp_error 400
           (Items.err_leader_active
              ((now - default 0 (l_lastActiveAt l)) / Items.MS_PER_DAY)
              (l_lastActiveAt l)))).
  { intros H. unfold Items.claimLeadership. rewrite Hl.
    apply jseqb_neq in Hne. rewrite Hne.
    apply Z.ltb_lt in H. rewrite H. reflexivity. }
  split; intros H.
  - split; [exact (Hbranch_lt H)|]. split.
    { unfold Items.MS_PER_DAY.
      pose proof (Z.div_mod (now - default 0 (l_lastActiveAt l)) (1000 * 60 * 60 * 24)).
      pose proof (Z.mod_pos_bound (now - default 0 (l_lastActiveAt l)) (1000 * 60 * 60 * 24)).
      lia. }
    intros w data idx Hget Hid Hidx Hitem.
    unfold Items.onRequestPut, try_catch, Items._handlePut, claimRequest.
    assert (Ht : truthy (Some (id item)) = true)
      by (destruct (id item); [congruence | reflexivity]).
    cbn [Items.b_id Items.b_action]. rewrite Ht.
    cbn [negb]. change (default [] (Some (id item))) with (id item).
    unfold bind at 1. rewrite Hget.
    rewrite Hidx, Hitem, (Hbranch_lt H). reflexivity.
  - unfold Items.claimLeadership. rewrite Hl.
    apply jseqb_neq in Hne. rewrite Hne.
    pose proof H as Hge. apply Z.ltb_ge in H. rewrite H.
    eexists. split; [rewrite addContributor_id; reflexivity|].
    split.
    { unfold set_updatedAt. cbn [leader].
      rewrite addContributor_leader. reflexivity. }
    split; [reflexivity|].
    intros k sl au data idx Hget Hid Hidx Hitem.
    set (item' := set_updatedAt (Some now) _).
    assert (Hrun :
      Items.onRequestPut now (Some agent) (claimRequest (id item)) (quiet k sl au) =
      (Ok (Items.resp_item item'),
       quiet (put_items (saved now (set_items (<[idx := item']> (items data)) data)) k)
         sl (au ++ [leadership_claimed (id item) (l_btcAddress l) (btcAddress agent)
                      ((now - default 0 (l_lastActiveAt l)) / Items.MS_PER_DAY)]))).
    { unfold Items.onRequestPut, try_catch, Items._handlePut, claimRequest.
      assert (Ht : truthy (Some (id item)) = true)
        by (destruct (id item); [congruence | reflexivity]).
      cbn [Items.b_id Items.b_action]. rewrite Ht.
      cbn [negb]. change (default [] (Some (id item))) with (id item).
      unfold bind at 1. rewrite Hget.
      rewrite Hidx, Hitem.
      unfold Items.claimLeadership. rewrite Hl, Hne, H.
      unfold bind at 1. unfold bind at 1. rewrite saveData_run.
      destruct (getData_run now (quiet k sl au)) as (data0 & Hget0 & Hv & _).
      rewrite Hget in Hget0. injection Hget0 as <-.
      cbn [writeVersion set_items]. rewrite Hv. cbn [default kv quiet].
      change (default 0 (Some (storedVersion k))) with (storedVersion k).
      rewrite Z.eqb_refl. unfold bind, recordEvent, ret, quiet.
      cbn [kv others slept audit].
      rewrite addContributor_id. reflexivity. }
    rewrite Hrun. auto.
Qed.

(** The scenario of the specification: ten days after the leader's last
    activity the claim is rejected with the figure 10; after thirty-one
    days it succeeds. *)
Definition alice : Agent :=
  {| btcAddress := str "bc1qalice"; displayName := str "Alice";
     agentId := Some 7; profileUrl := None; claimedAt := None |}.

Definition ledItem (lastActive : Z) : Item :=
  {| id := str "r_1"; title := Some (str "Arc Starter");
     githubUrl := Some (str "https://github.com/aibtcdev/arc-starter");
     githubData := None; status := todo; founder := None; claimedBy := None;
     leader := Some {| l_btcAddress := str "bc1qbob"; l_displayName := str "Bob";
                       l_agentId := None; l_profileUrl := str "https://aibtc.com/agents/bc1qbob";
                       l_assignedAt := 0; l_lastActiveAt := Some lastActive |};
     contributors := []; deliverables := []; ratings := [];
     reputation := Some {| average10 := 0; count := 0%nat |};
     mentions := Some 0; website := Null; searchTerms := [];
     createdAt := None; updatedAt := None |}.

Lemma claimLeadership_threshold_witness :
  Items.claimLeadership (10 * Items.MS_PER_DAY) alice (ledItem 0) =
    inl (Items.resp_error 400 (Items.err_leader_active 10 (Some 0)))
  /\ exists item',
       Items.claimLeadership (31 * Items.MS_PER_DAY) alice (ledItem 0) =
         inr (item', leadership_claimed (str "r_1") (str "bc1qbob") (str "bc1qalice") 31)
       /\ leader item' = Some (takeover (31 * Items.MS_PER_DAY) alice).
Proof.
  split.
  - apply (claimLeadership_threshold (10 * Items.MS_PER_DAY) alice (ledItem 0)
             _ eq_refl); [discriminate | vm_compute; reflexivity].
  - destruct (proj2 (claimLeadership_threshold (31 * Items.MS_PER_DAY) alice (ledItem 0)
                       _ eq_refl ltac:(discriminate)))
      as (item' & H1 & H2 & _); [vm_compute; discriminate|].
    exists item'. split; assumption.
Defined.

(** ** Ratings *)

(** The accounts that have rated an item, one entry per rating. *)
Definition raters (item : Item) : list jsstring :=
  map r_btcAddress (ratings item).

Definition scoreSum (l : list Rating) : Z :=
  fold_left (fun s r => s + r_score r) l 0.

Lemma findIndex_Some {A} (f : A -> bool) (l : list A) (i : nat) :
  findIndex f l = Some i ->
  exists x, l !! i = Some x /\ f x = true
            /\ forall j y, (j < i)%nat -> l !! j = Some y -> f y = false.
Proof.
  revert i; induction l as [|x l IH]; intros i; simpl; [discriminate|].
  destruct (f x) eqn:Hfx.
  - intros [= <-]. exists x. repeat split; auto. intros j y Hj. lia.
  - destruct (findIndex f l) as [i'|] eqn:Hfi; simpl; [|discriminate].
    intros [= <-]. destruct (IH i' eq_refl) as (y & Hy & Hfy & Hbefore).
    exists y. repeat split; auto.
    intros [|j] z Hj; simpl.
    + intros [= <-]. exact Hfx.
    + apply Hbefore. lia.
Qed.

Lemma findIndex_None {A} (f : A -> bool) (l : list A) :
  findIndex f l = None -> forall x, x ∈ l -> f x = false.
Proof.
  induction l as [|y l IH]; simpl; intros H x Hx.
  - inversion Hx.
  - destruct (f y) eqn:Hfy; [discriminate|].
    destruct (findIndex f l); [discriminate|].
    apply elem_of_cons in Hx as [->|Hx]; auto.
Qed.

(** What the rate branch does to the list of ratings. *)
Lemma rateItem_ratings now agent score review item item' :
  Items.rateItem now agent (Some score) review item = inr item' ->
  1 <= score <= 5
  /\ reputation item' = Some (Items.computeReputation (ratings item'))
  /\ exists rating,
       r_btcAddress rating = btcAddress agent /\ r_score rating = score
       /\ ((exists i old, ratings item !! i = Some old
              /\ r_btcAddress old = btcAddress agent
              /\ (forall j y, (j < i)%nat -> ratings item !! j = Some y ->
                    r_btcAddress y <> btcAddress agent)
              /\ ratings item' = <[i := rating]> (ratings item))
           \/ ((btcAddress agent ∉ raters item)
               /\ ratings item' = ratings item ++ [rating])).
Proof.
  unfold Items.rateItem.
  destruct (Z.ltb_spec score 1); [discriminate|].
  destruct (Z.ltb_spec 5 score); [discriminate|]. cbn [orb].
  destruct (_ <? _)%nat; [discriminate|].
  intros Hinj.
  apply (f_equal (fun x => match x with inr i => i | inl _ => item end)) in Hinj.
  cbv beta iota in Hinj. subst item'. split; [lia|].
  set (rating := {| r_agentId := _ |}).
  set (rs := match findIndex _ _ with Some i => _ | None => _ end).
  assert (Hr : forall it, ratings (set_updatedAt (Some now)
              (Items.bumpLeaderActivity now (Tasks.addContributor it (Some agent)) agent))
            = ratings it).
  { intros it. unfold Items.bumpLeaderActivity, Tasks.addContributor.
    destruct (btcAddress agent); [|destruct (existsb _ _)];
      cbn; (destruct (leader it); [destruct (jseqb _ _)|]); reflexivity. }
  assert (Hp : forall it, reputation (set_updatedAt (Some now)
              (Items.bumpLeaderActivity now (Tasks.addContributor it (Some agent)) agent))
            = reputation it).
  { intros it. unfold Items.bumpLeaderActivity, Tasks.addContributor.
    destruct (btcAddress agent); [|destruct (existsb _ _)];
      cbn; (destruct (leader it); [destruct (jseqb _ _)|]); reflexivity. }
  rewrite Hr, Hp. cbn [ratings reputation set_reputation set_ratings].
  split; [reflexivity|].
  exists rating. split; [reflexivity|]. split; [reflexivity|].
  subst rs.
  destruct (findIndex _ _) as [i|] eqn:Hfi.
  - left. apply findIndex_Some in Hfi as (old & Hold & Haddr & Hbefore).
    exists i, old. apply jseqb_eq in Haddr. repeat split; auto.
    intros j y Hj Hy. apply jseqb_neq. exact (Hbefore j y Hj Hy).
  - right. split; [|reflexivity].
    intros Hin. unfold raters in Hin. apply list_elem_of_fmap in Hin as (y & Hy & Hin).
    pose proof (findIndex_None _ _ Hfi y Hin) as Hf. cbn in Hf.
    apply jseqb_neq in Hf. congruence.
Qed.

Lemma remove_dups_NoDup (l : list jsstring) : NoDup l -> remove_dups l = l.
Proof.
  induction 1 as [|x l Hx _ IH]; simpl; [reflexivity|].
  destruct (decide_rel _ x l); [contradiction|]. rewrite IH. reflexivity.
Qed.

(** [computeReputation]: the count is the number of ratings, and the
    average, in tenths, is the mean of the scores rounded to the nearest
    tenth (a half rounding up). *)
Lemma computeReputation_mean (l : list Rating) :
  count (Items.computeReputation l) = length l
  /\ (l <> [] ->
      let n := Z.of_nat (length l) in
      let a := average10 (Items.computeReputation l) in
      20 * scoreSum l - n < 2 * n * a <= 20 * scoreSum l + n)
  /\ (l = [] -> average10 (Items.computeReputation l) = 0).
Proof.
  destruct l as [|r l]; [repeat split; congruence|].
  split; [reflexivity|]. split; [|discriminate].
  intros _. cbn zeta. unfold Items.computeReputation.
  fold (scoreSum (r :: l)). cbn [average10].
  set (n := Z.of_nat (length (r :: l))).
  assert (0 < n) by (unfold n; simpl; lia).
  pose proof (Z.div_mod (20 * scoreSum (r :: l) + n) (2 * n)).
  pose proof (Z.mod_pos_bound (20 * scoreSum (r :: l) + n) (2 * n)).
  nia.
Qed.

(** A rate request that the handler accepts or ignores, for sequences of
    requests. *)
Definition rateOnce (now : Z) (item : Item) (req : Agent * Z) : Item :=
  match Items.rateItem now (fst req) (Some (snd req)) None item with
  | inr item' => item'
  | inl _ => item
  end.

(** The rate branch on one item.  With an integer score from 1 to 5 and a
    review of at most 280 characters it succeeds.  If the account has rated
    before, its rating is replaced in place and the list of rating accounts
    is the same; otherwise one rating is added at the end.  So a list of
    ratings without two entries of one account stays so, and every list
    built by the branch from the empty one is so.  The reputation is
    recomputed: its count is the number of ratings, hence of distinct
    accounts, and its average is the mean of the scores rounded to one
    decimal. *)
Lemma rate_upsert (now : Z) (agent : Agent) (score : Z)
    (review : option jsstring) (item : Item) :
  1 <= score <= 5 ->
  (length (trim (default [] review)) <= 280)%nat ->
  exists item' rep,
    Items.rateItem now agent (Some score) review item = inr item'
    /\ (btcAddress agent ∈ raters item -> raters item' = raters item)
    /\ ((btcAddress agent ∉ raters item) ->
        raters item' = raters item ++ [btcAddress agent])
    /\ (exists r, r ∈ ratings item' /\ r_btcAddress r = btcAddress agent
                  /\ r_score r = score)
    /\ (NoDup (raters item) ->
        NoDup (raters item')
        /\ count rep = length (remove_dups (raters item')))
    /\ (forall reqs item0, ratings item0 = [] ->
          NoDup (raters (fold_left (rateOnce now) reqs item0)))
    /\ reputation item' = Some rep
    /\ rep = Items.computeReputation (ratings item')
    /\ count rep = length (ratings item')
    /\ (let n := Z.of_nat (length (ratings item')) in
        20 * scoreSum (ratings item') - n < 2 * n * average10 rep
          <= 20 * scoreSum (ratings item') + n).
Proof.
  intros Hscore Hreview.
  assert (Hok : exists item', Items.rateItem now agent (Some score) review item = inr item').
  { unfold Items.rateItem.
    destruct (Z.ltb_spec score 1); [lia|].
    destruct (Z.ltb_spec 5 score); [lia|]. cbn [orb].
    destruct (Nat.ltb_spec 280 (length (trim (default [] review)))); [lia|].
    eexists. reflexivity. }
  destruct Hok as (item' & Hrate).
  exists item', (Items.computeReputation (ratings item')).
  split; [exact Hrate|].
  assert (Hstep : forall agent score review item item',
    Items.rateItem now agent (Some score) review item = inr item' ->
    (btcAddress agent ∈ raters item -> raters item' = raters item)
    /\ ((btcAddress agent ∉ raters item) ->
        raters item' = raters item ++ [btcAddress agent])
    /\ (exists r, r ∈ ratings item' /\ r_btcAddress r = btcAddress agent
                  /\ r_score r = score)
    /\ (NoDup (raters item) -> NoDup (raters item'))).
  { clear. intros agent score review item item' Hrate.
    destruct (rateItem_ratings _ _ _ _ _ _ Hrate)
      as (_ & _ & rating & Haddr & Hsc & Hcases).
    assert (Hin_case : btcAddress agent ∈ raters item -> raters item' = raters item).
    { destruct Hcases as [(i & old & Hold & Hoaddr & _ & Heq)|[Hnot _]];
        [|contradiction].
      intros _. unfold raters. rewrite Heq.
      change (map r_btcAddress ?l) with (r_btcAddress <$> l).
      rewrite list_fmap_insert. apply list_insert_id.
      rewrite list_lookup_fmap, Hold. simpl. congruence. }
    assert (Hnew_case : (btcAddress agent ∉ raters item) ->
                        raters item' = raters item ++ [btcAddress agent]).
    { destruct Hcases as [(i & old & Hold & Hoaddr & _ & Heq)|[_ Heq]].
      - intros Hnot. exfalso. apply Hnot. unfold raters.
        change (map r_btcAddress ?l) with (r_btcAddress <$> l).
        apply list_elem_of_fmap. exists old. split; [congruence|].
        apply list_elem_of_lookup. eauto.
      - intros _. unfold raters. rewrite Heq, map_app. simpl. congruence. }
    split; [exact Hin_case|]. split; [exact Hnew_case|]. split.
    - exists rating. split; [|auto].
      destruct Hcases as [(i & old & Hold & _ & _ & Heq)|[_ Heq]]; rewrite Heq.
      + apply list_elem_of_lookup. exists i.
        apply list_lookup_insert_eq. apply lookup_lt_Some in Hold. exact Hold.
      + apply elem_of_app. right. apply list_elem_of_singleton. reflexivity.
    - intros Hnd.
      destruct (decide (btcAddress agent ∈ raters item)) as [Hin|Hnot].
      + rewrite (Hin_case Hin). exact Hnd.
      + rewrite (Hnew_case Hnot). apply NoDup_app. split; [exact Hnd|].
        split; [|apply NoDup_singleton].
        intros x Hx Hx'. apply list_elem_of_singleton in Hx'. congruence. }
  destruct (Hstep _ _ _ _ _ Hrate) as (Hin & Hnew & Hhas & Hnd).
  destruct (rateItem_ratings _ _ _ _ _ _ Hrate) as (_ & Hrep & _).
  destruct (computeReputation_mean (ratings item')) as (Hcount & Hmean & _).
  split; [exact Hin|]. split; [exact Hnew|]. split; [exact Hhas|].
  split.
  { intros H. split; [exact (Hnd H)|].
    rewrite (remove_dups_NoDup _ (Hnd H)), Hcount. unfold raters.
    rewrite length_map. reflexivity. }
  split.
  { intros reqs. induction reqs as [|req reqs IH] using rev_ind; intros item0 H0.
    - simpl. unfold raters. rewrite H0. constructor.
    - rewrite fold_left_app. simpl. unfold rateOnce at 1.
      destruct (Items.rateItem now (fst req) (Some (snd req)) None
                  (fold_left (rateOnce now) reqs item0)) as [?|item1] eqn:Hr;
        [apply IH, H0|].
      apply (Hstep _ _ _ _ _ Hr). apply IH, H0. }
  split; [exact Hrep|]. split; [reflexivity|]. split; [exact Hcount|].
  apply Hmean.
  destruct Hhas as (r & Hr & _). intros Hnil. rewrite Hnil in Hr. inversion Hr.
Qed.

(** Two accounts rate, then the first rates again: two ratings remain, and
    the average of 5 and 2 is 3.5. *)
Definition bob : Agent :=
  {| btcAddress := str "bc1qbob"; displayName := str "Bob";
     agentId := None; profileUrl := None; claimedAt := None |}.

Lemma rate_upsert_witness :
  exists item' rep,
    Items.rateItem 5 alice (Some 5) None
      (rateOnce 4 (rateOnce 3 (ledItem 0) (alice, 4)) (bob, 2)) = inr item'
    /\ reputation item' = Some rep
    /\ raters item' = [str "bc1qalice"; str "bc1qbob"]
    /\ rep = {| average10 := 35; count := 2%nat |}.
Proof.
  destruct (rate_upsert 5 alice 5 None
              (rateOnce 4 (rateOnce 3 (ledItem 0) (alice, 4)) (bob, 2)))
    as (item' & rep & Hrate & Hin & _ & _ & _ & _ & Hrep & Heq & _);
    [lia | vm_compute; lia |].
  exists item', rep. split; [exact Hrate|]. split; [exact Hrep|].
  split.
  - rewrite Hin; [reflexivity|]. vm_compute.
    apply list_elem_of_here.
  - rewrite Heq. vm_compute in Hrate. injection Hrate as <-. reflexivity.
Defined.

(** The request [{ id, action: 'rate', score, review }]. *)
Definition rateRequest (itemId : jsstring) (score : Z) (review : option jsstring)
    : Items.Body :=
  {| Items.b_id := Some itemId; Items.b_action := Items.rate (Some score) review |}.

Lemma rateItem_id now agent score review item item' :
  Items.rateItem now agent score review item = inr item' -> id item' = id item.
Proof.
  unfold Items.rateItem. destruct score as [score|]; [|discriminate].
  destruct (_ || _); [discriminate|]. destruct (_ <? _)%nat; [discriminate|].
  intros Hinj.
  apply (f_equal (fun x => match x with inr i => i | inl _ => item end)) in Hinj.
  cbv beta iota in Hinj. subst item'.
  unfold Items.bumpLeaderActivity.
  match goal with
  | |- id (set_updatedAt _ (match leader ?it with _ => _ end)) = _ =>
    assert (Hid : id it = id item) by (rewrite addContributor_id; reflexivity);
    destruct (leader it); [destruct (jseqb _ _)|]; exact Hid
  end.
Qed.

(** Every item of a registry has at most one rating of an account. *)
Definition oneRatingEach (l : list Item) : Prop :=
  Forall (fun it => NoDup (raters it)) l.

(** C6. A rate request with an integer score from 1 to 5 and a review of at
    most 280 characters, for an item of the registry, is answered with the
    rated item; no other write coming between, the registry is saved with
    that item in the place of the old one and every other item as it was,
    and the rating is recorded with the new average.  In the rated item: if
    the account has rated before, its rating is replaced in place and the
    list of rating accounts is the same; otherwise one rating is added at
    the end.  So a registry in which no item has two ratings of one account
    is saved as such a registry.  The reputation of the rated item is
    recomputed: its count is the number of ratings, hence of distinct
    accounts, and its average is the mean of the scores rounded to one
    decimal. *)
Theorem rate_request_upserts (now : Z) (agent : Agent) (score : Z)
    (review : option jsstring) (k : KV) (sl : list Z) (au : list AuditEvent)
    (data : Registry) (idx : nat) (item : Item) :
  1 <= score <= 5 ->
  (length (trim (default [] review)) <= 280)%nat ->
  Tasks.getData now (quiet k sl au) = (Ok data, quiet k sl au) ->
  id item <> [] ->
  findIndex (fun i => jseqb (id i) (id item)) (items data) = Some idx ->
  items data !! idx = Some item ->
  exists item' rep stored,
    Items.onRequestPut now (Some agent) (rateRequest (id item) score review)
      (quiet k sl au)
    = (Ok (Items.resp_item item'),
       quiet (put_items stored k) sl
         (au ++ [rated (id item) (btcAddress agent) score (average10 rep)]))
    /\ stored = saved now (set_items (<[idx := item']> (items data)) data)
    /\ items stored !! idx = Some item'
    /\ (forall j, j <> idx -> items stored !! j = items data !! j)
    /\ length (items stored) = length (items data)
    /\ id item' = id item
    /\ (btcAddress agent ∈ raters item -> raters item' = raters item)
    /\ ((btcAddress agent ∉ raters item) ->
        raters item' = raters item ++ [btcAddress agent])
    /\ (exists r, r ∈ ratings item' /\ r_btcAddress r = btcAddress agent
                  /\ r_score r = score)
    /\ (NoDup (raters item) ->
        NoDup (raters item')
        /\ count rep = length (remove_dups (raters item')))
    /\ (oneRatingEach (items data) -> oneRatingEach (items stored))
    /\ reputation item' = Some rep
    /\ count rep = length (ratings item')
    /\ (let n := Z.of_nat (length (ratings item')) in
        20 * scoreSum (ratings item') - n < 2 * n * average10 rep
          <= 20 * scoreSum (ratings item') + n).
Proof.
  intros Hscore Hreview Hget Hid Hidx Hitem.
  destruct (rate_upsert now agent score review item Hscore Hreview)
    as (item' & rep & Hrate & Hin & Hnew & Hhas & Hnd & _ & Hrep & _ & Hcount & Hmean).
  pose proof (rateItem_id _ _ _ _ _ _ Hrate) as Hid'.
  pose proof (lookup_lt_Some _ _ _ Hitem) as Hlt.
  exists item', rep, (saved now (set_items (<[idx := item']> (items data)) data)).
  split.
  { unfold Items.onRequestPut, try_catch, Items._handlePut, rateRequest.
    assert (Ht : truthy (Some (id item)) = true)
      by (destruct (id item); [congruence | reflexivity]).
    cbn [Items.b_id Items.b_action]. rewrite Ht.
    cbn [negb]. change (default [] (Some (id item))) with (id item).
    unfold bind at 1. rewrite Hget.
    rewrite Hidx, Hitem, Hrate.
    unfold bind at 1. unfold bind at 1. rewrite saveData_run.
    destruct (getData_run now (quiet k sl au)) as (data0 & Hget0 & Hv & _).
    rewrite Hget in Hget0. injection Hget0 as <-.
    cbn [writeVersion set_items]. rewrite Hv. cbn [default kv quiet].
    change (default 0 (Some (storedVersion k))) with (storedVersion k).
    rewrite Z.eqb_refl. unfold bind, recordEvent, ret, quiet.
    cbn [kv others slept audit]. rewrite Hrep, Hid'. reflexivity. }
  split; [reflexivity|].
  cbn [items saved set_items set_writeVersion set_reg_updatedAt].
  split; [apply list_lookup_insert_eq; exact Hlt|].
  split; [intros j Hj; apply list_lookup_insert_ne; congruence|].
  split; [apply length_insert|].
  split; [exact Hid'|].
  split; [exact Hin|]. split; [exact Hnew|]. split; [exact Hhas|].
  split; [exact Hnd|].
  split.
  { intros Hall. unfold oneRatingEach in *. apply Forall_insert; [exact Hall|].
    apply Hnd. rewrite Forall_forall in Hall. apply Hall.
    apply list_elem_of_lookup. eauto. }
  split; [exact Hrep|]. split; [exact Hcount|exact Hmean].
Qed.

(** Bob has rated 2 and Alice 4; Alice rates again, 5: the stored item has
    the two ratings, Alice's first, and the average of 5 and 2, 3.5. *)
Definition ratedTwice : Item :=
  rateOnce 4 (rateOnce 3 (ledItem 0) (alice, 4)) (bob, 2).

Lemma rate_request_upserts_witness :
  let k := put_items (set_items [ratedTwice] emptyRegistry) emptyKV in
  exists item',
    fst (Items.onRequestPut 5 (Some alice) (rateRequest (str "r_1") 5 None)
           (quiet k [] []))
    = Ok (Items.resp_item item')
    /\ raters item' = [str "bc1qalice"; str "bc1qbob"]
    /\ reputation item' = Some {| average10 := 35; count := 2%nat |}.
Proof.
  intros k.
  destruct (rate_request_upserts 5 alice 5 None k [] []
              (set_items [ratedTwice] emptyRegistry) 0%nat ratedTwice)
    as (item' & rep & stored & Hrun & _ & _ & _ & _ & _ & Hin & _ & _ & _ & _ & Hrep & _);
    [lia | vm_compute; lia | reflexivity | discriminate | reflexivity | reflexivity |].
  exists item'. change (id ratedTwice) with (str "r_1") in Hrun.
  rewrite Hrun. split; [reflexivity|]. split.
  - rewrite Hin; [reflexivity|]. vm_compute. apply list_elem_of_here.
  - vm_compute in Hrun. injection Hrun as <- _. reflexivity.
Defined.

(** ** Reordering *)

(** The reorder in the words of the claim: the ids of [orderedIds] that
    name an item, each at its first occurrence, select the items that come
    first; the items not named follow in their original order. *)
Fixpoint firstOccurrences (seen ids : list jsstring) : list jsstring :=
  match ids with
  | [] => []
  | k :: ids' =>
    if mem k seen then firstOccurrences seen ids'
    else k :: firstOccurrences (k :: seen) ids'
  end.

Definition itemWithId (l : list Item) (k : jsstring) : option Item :=
  List.find (fun i => jseqb (id i) k) l.

Definition reorder_spec (l : list Item) (orderedIds : list jsstring) : list Item :=
  omap (itemWithId l) (firstOccurrences [] orderedIds)
  ++ List.filter (fun i => negb (mem (id i) orderedIds)) l.

Definition entries (l : list Item) : Reorder.ItemMap :=
  map (fun i => (id i, i)) l.

Lemma mem_true (s : jsstring) (l : list jsstring) : mem s l = true <-> s ∈ l.
Proof.
  unfold mem. rewrite existsb_exists. split.
  - intros (x & Hx & Heq). apply jseqb_eq in Heq. subst.
    apply list_elem_of_In. exact Hx.
  - intros H. exists s. split; [apply list_elem_of_In; exact H | apply jseqb_refl].
Qed.

Lemma mem_false (s : jsstring) (l : list jsstring) : mem s l = false <-> s ∉ l.
Proof.
  rewrite <- mem_true. destruct (mem s l); split; congruence.
Qed.

Lemma map_set_fresh k v (l : list Item) :
  k ∉ map id l -> Reorder.map_set k v (entries l) = entries l ++ [(k, v)].
Proof.
  induction l as [|x l IH]; simpl; intros H; [reflexivity|].
  apply not_elem_of_cons in H as [Hne Hl].
  destruct (jseqb (id x) k) eqn:E; [apply jseqb_eq in E; congruence|].
  rewrite IH by exact Hl. reflexivity.
Qed.

Lemma map_of_items_go (acc l : list Item) :
  NoDup (map id (acc ++ l)) ->
  fold_left (fun m i => Reorder.map_set (id i) i m) l (entries acc) = entries (acc ++ l).
Proof.
  revert acc; induction l as [|x l IH]; intros acc Hnd; simpl.
  - rewrite app_nil_r. reflexivity.
  - rewrite map_set_fresh.
    + replace (entries acc ++ [(id x, x)]) with (entries (acc ++ [x]))
        by (unfold entries; rewrite map_app; reflexivity).
      rewrite IH; rewrite <- app_assoc; [reflexivity | exact Hnd].
    + rewrite map_app in Hnd. apply NoDup_app in Hnd as (_ & Hdisj & _).
      intros Hin. apply (Hdisj _ Hin). simpl. apply list_elem_of_here.
Qed.

(** With distinct ids the [Map] holds every item, in the original order. *)
Lemma map_of_items_entries (l : list Item) :
  NoDup (map id l) -> Reorder.map_of_items l = entries l.
Proof. intros H. apply (map_of_items_go [] l H). Qed.

Lemma map_get_entries k (l : list Item) :
  Reorder.map_get k (entries l) = itemWithId l k.
Proof.
  unfold Reorder.map_get, itemWithId, entries.
  induction l as [|x l IH]; simpl; [reflexivity|].
  destruct (jseqb (id x) k); [reflexivity | exact IH].
Qed.

Lemma map_delete_entries k (l : list Item) :
  Reorder.map_delete k (entries l)
  = entries (List.filter (fun i => negb (jseqb (id i) k)) l).
Proof.
  unfold Reorder.map_delete, entries.
  induction l as [|x l IH]; simpl; [reflexivity|].
  destruct (jseqb (id x) k); simpl; rewrite IH; reflexivity.
Qed.

Lemma find_all_false {A} (f : A -> bool) (l : list A) :
  (forall x, In x l -> f x = false) -> List.find f l = None.
Proof.
  induction l as [|x l IH]; simpl; intros H; [reflexivity|].
  rewrite (H x) by auto. apply IH. intros y Hy. apply H. auto.
Qed.

Lemma find_filter_seen (l : list Item) (seen : list jsstring) (k : jsstring) :
  k ∉ seen ->
  itemWithId (List.filter (fun i => negb (mem (id i) seen)) l) k = itemWithId l k.
Proof.
  intros Hk. unfold itemWithId.
  induction l as [|x l IH]; simpl; [reflexivity|].
  destruct (jseqb (id x) k) eqn:E.
  - apply jseqb_eq in E. apply mem_false in Hk. rewrite E, Hk. simpl.
    rewrite E, jseqb_refl. reflexivity.
  - destruct (mem (id x) seen); simpl; [|rewrite E]; exact IH.
Qed.

Lemma itemWithId_Some (l : list Item) (k : jsstring) (x : Item) :
  itemWithId l k = Some x -> x ∈ l /\ id x = k.
Proof.
  unfold itemWithId. intros H. apply find_some in H as [Hin Heq].
  apply jseqb_eq in Heq. split; [apply list_elem_of_In; exact Hin | exact Heq].
Qed.

Lemma itemWithId_None (l : list Item) (k : jsstring) :
  itemWithId l k = None -> forall x, x ∈ l -> id x <> k.
Proof.
  unfold itemWithId. intros H x Hx.
  apply list_elem_of_In in Hx.
  pose proof (find_none _ _ H x Hx) as Hf. simpl in Hf.
  apply jseqb_neq. exact Hf.
Qed.

Lemma filter_ext_in_items (f g : Item -> bool) (l : list Item) :
  (forall x, x ∈ l -> f x = g x) -> List.filter f l = List.filter g l.
Proof.
  intros H. apply List.filter_ext_in. intros x Hx. apply H.
  apply list_elem_of_In. exact Hx.
Qed.

Lemma filter_filter_seen (l : list Item) (k : jsstring) (seen : list jsstring) :
  List.filter (fun i => negb (mem (id i) (k :: seen))) l
  = List.filter (fun i => negb (jseqb (id i) k))
      (List.filter (fun i => negb (mem (id i) seen)) l).
Proof.
  induction l as [|y l IHl]; cbn [List.filter]; [reflexivity|].
  change (mem (id y) (k :: seen)) with (jseqb (id y) k || mem (id y) seen).
  destruct (mem (id y) seen) eqn:E1, (jseqb (id y) k) eqn:E2;
    cbn [negb orb List.filter]; rewrite ?E2; cbn [negb];
    rewrite IHl; reflexivity.
Qed.

(** The first loop against the specification, for a [Map] that holds the
    items of [l] whose id is not in [seen]. *)
Lemma pick_spec (l : list Item) (ids seen : list jsstring) :
  Reorder.pick ids (entries (List.filter (fun i => negb (mem (id i) seen)) l))
  = (omap (itemWithId l) (firstOccurrences seen ids),
     entries (List.filter (fun i => negb (mem (id i) (seen ++ ids))) l)).
Proof.
  revert seen; induction ids as [|k ids IH]; intros seen; simpl.
  - rewrite app_nil_r. reflexivity.
  - rewrite map_get_entries.
    destruct (mem k seen) eqn:Hseen.
    + (* a repeated id: its item is gone from the map *)
      assert (Hnone : itemWithId (List.filter (fun i => negb (mem (id i) seen)) l) k = None).
      { unfold itemWithId. apply find_all_false. intros x Hx.
        apply filter_In in Hx as [_ Hx]. apply jseqb_neq. intros E.
        rewrite E, Hseen in Hx. discriminate. }
      rewrite Hnone, IH. f_equal. f_equal.
      apply filter_ext_in_items. intros x _. f_equal.
      apply mem_true in Hseen.
      destruct (mem (id x) (seen ++ ids)) eqn:E1, (mem (id x) (seen ++ k :: ids)) eqn:E2;
        try reflexivity.
      * apply mem_true in E1. apply mem_false in E2. exfalso. apply E2.
        rewrite elem_of_app in *. rewrite elem_of_cons. tauto.
      * apply mem_false in E1. apply mem_true in E2. exfalso. apply E1.
        rewrite elem_of_app in *. rewrite elem_of_cons in E2.
        destruct E2 as [?|[->|?]]; auto.
    + apply mem_false in Hseen. rewrite (find_filter_seen l seen k Hseen).
      assert (Hcons : forall x : Item,
                mem (id x) (seen ++ k :: ids) = mem (id x) ((k :: seen) ++ ids)).
      { intros x.
        destruct (mem (id x) (seen ++ k :: ids)) eqn:E1,
          (mem (id x) ((k :: seen) ++ ids)) eqn:E2; try reflexivity.
        - apply mem_true in E1. apply mem_false in E2. exfalso. apply E2.
          simpl. rewrite elem_of_cons, !elem_of_app in *.
          rewrite elem_of_cons in E1. tauto.
        - apply mem_false in E1. apply mem_true in E2. exfalso. apply E1.
          simpl in E2. rewrite elem_of_cons, !elem_of_app in *.
          rewrite elem_of_cons. tauto. }
      destruct (itemWithId l k) as [x|] eqn:Hfind; simpl; rewrite ?Hfind.
      * rewrite map_delete_entries.
        rewrite <- filter_filter_seen, IH. f_equal. f_equal.
        apply filter_ext_in_items. intros y _. rewrite Hcons. reflexivity.
      * replace (List.filter (fun i => negb (mem (id i) seen)) l)
          with (List.filter (fun i => negb (mem (id i) (k :: seen))) l).
        { rewrite IH. f_equal. f_equal.
          apply filter_ext_in_items. intros y _. rewrite Hcons. reflexivity. }
        apply filter_ext_in_items. intros y Hy. simpl.
        pose proof (itemWithId_None _ _ Hfind y Hy) as Hne.
        apply jseqb_neq in Hne. rewrite Hne. reflexivity.
Qed.

Lemma entries_snd (l : list Item) : map snd (entries l) = l.
Proof.
  unfold entries. rewrite map_map. simpl. apply map_id.
Qed.

Lemma filter_nil_seen (l : list Item) :
  List.filter (fun i => negb (mem (id i) [])) l = l.
Proof. induction l as [|x l IH]; simpl; [reflexivity | f_equal; exact IH]. Qed.

Lemma reorder_refines (l : list Item) (orderedIds : list jsstring) :
  NoDup (map id l) -> Reorder.reorder l orderedIds = reorder_spec l orderedIds.
Proof.
  intros Hnd. unfold Reorder.reorder, reorder_spec.
  rewrite (map_of_items_entries l Hnd).
  replace (entries l)
    with (entries (List.filter (fun i => negb (mem (id i) [])) l))
    by (f_equal; apply filter_nil_seen).
  rewrite pick_spec, entries_snd. reflexivity.
Qed.

(** Taking an item out of a list with distinct ids. *)
Lemma take_out (l : list Item) (k : jsstring) (x : Item) :
  NoDup (map id l) -> itemWithId l k = Some x ->
  l ≡ₚ x :: List.filter (fun i => negb (jseqb (id i) k)) l.
Proof.
  unfold itemWithId.
  induction l as [|y l IH]; simpl; intros Hnd Hfind; [discriminate|].
  apply NoDup_cons in Hnd as [Hy Hnd].
  destruct (jseqb (id y) k) eqn:E; simpl.
  - injection Hfind as <-. apply jseqb_eq in E.
    replace (List.filter (fun i => negb (jseqb (id i) k)) l) with l; [reflexivity|].
    symmetry. rewrite <- (filter_nil_seen l) at 2.
    apply filter_ext_in_items. intros z Hz. simpl.
    destruct (jseqb (id z) k) eqn:E'; [|reflexivity].
    apply jseqb_eq in E'. exfalso. apply Hy. rewrite E, <- E'.
    change (map id l) with (id <$> l). apply list_elem_of_fmap. eauto.
  - rewrite (IH Hnd Hfind) at 1. apply Permutation_swap.
Qed.

Lemma NoDup_filter_ids (f : Item -> bool) (l : list Item) :
  NoDup (map id l) -> NoDup (map id (List.filter f l)).
Proof.
  induction l as [|x l IH]; simpl; intros Hnd; [constructor|].
  apply NoDup_cons in Hnd as [Hx Hnd].
  destruct (f x); simpl; [|auto].
  apply NoDup_cons. split; [|auto].
  intros Hin. apply Hx.
  change (map id ?l) with (id <$> l) in *.
  apply list_elem_of_fmap in Hin as (y & -> & Hy).
  apply list_elem_of_fmap. exists y. split; [reflexivity|].
  apply list_elem_of_In. apply list_elem_of_In in Hy.
  apply filter_In in Hy. tauto.
Qed.

(** The first loop loses nothing and invents nothing. *)
Lemma pick_permutation (ids : list jsstring) (l : list Item) :
  NoDup (map id l) ->
  fst (Reorder.pick ids (entries l)) ++ map snd (snd (Reorder.pick ids (entries l))) ≡ₚ l.
Proof.
  revert l; induction ids as [|k ids IH]; intros l Hnd; simpl.
  - rewrite entries_snd. reflexivity.
  - rewrite map_get_entries.
    destruct (itemWithId l k) as [x|] eqn:Hfind.
    + rewrite map_delete_entries.
      destruct (Reorder.pick ids (entries (List.filter _ l))) as [picked rest] eqn:Hp.
      simpl. symmetry.
      etransitivity; [apply (take_out l k x Hnd Hfind)|]. constructor. symmetry.
      specialize (IH _ (NoDup_filter_ids (fun i => negb (jseqb (id i) k)) l Hnd)).
      rewrite Hp in IH. exact IH.
    + apply IH, Hnd.
Qed.

Definition stub (i t : string) : Item :=
  {| id := str i; title := Some (str t); githubUrl := None;
     githubData := None; status := todo; founder := None; claimedBy := None;
     leader := None; contributors := []; deliverables := []; ratings := [];
     reputation := None; mentions := None; website := Null; searchTerms := [];
     createdAt := None; updatedAt := None |}.

(** C10, as stated for every registry, fails: the [Map] keeps one item per
    id.  Of two items that carry the same id only the second survives a
    reorder, and the count reported is 1. *)
Lemma reorder_drops_same_id :
  Reorder.reorder [stub "r_1" "first"; stub "r_1" "second"] [] = [stub "r_1" "second"]
  /\ fst (Reorder.onRequestPost 0 (Some alice) (Some [])
            (quiet (put_items (set_items [stub "r_1" "first"; stub "r_1" "second"] emptyRegistry)
                      emptyKV) [] []))
     = Ok (Reorder.resp_ok 1).
Proof. vm_compute. split; reflexivity. Qed.

(** C10, amended.  For every registry whose items have pairwise distinct
    ids and for every list [orderedIds], the reordered list is a
    permutation of the original items: the ids of [orderedIds] that name an
    item come first, in the order of [orderedIds] (an id that names no item
    or that is repeated is skipped), the other items follow in their
    original order, and the count reported is the original number of
    items. *)
Theorem reorder_permutation (l : list Item) (orderedIds : list jsstring) :
  NoDup (map id l) ->
  Reorder.reorder l orderedIds = reorder_spec l orderedIds
  /\ Reorder.reorder l orderedIds ≡ₚ l
  /\ length (Reorder.reorder l orderedIds) = length l
  /\ forall now agent k sl au data,
       kv_items k = Some data -> items data = l ->
       let r := Reorder.onRequestPost now (Some agent) (Some orderedIds)
                  (quiet k sl au) in
       fst r = Ok (Reorder.resp_ok (length l))
       /\ option_map items (kv_items (kv (snd r))) = Some (reorder_spec l orderedIds).
Proof.
  intros Hnd.
  assert (Hperm : Reorder.reorder l orderedIds ≡ₚ l).
  { unfold Reorder.reorder. rewrite (map_of_items_entries l Hnd).
    pose proof (pick_permutation orderedIds l Hnd) as H.
    destruct (Reorder.pick orderedIds (entries l)). exact H. }
  assert (Hlen : length (Reorder.reorder l orderedIds) = length l)
    by (rewrite Hperm; reflexivity).
  split; [apply reorder_refines, Hnd|]. split; [exact Hperm|].
  split; [exact Hlen|].
  intros now agent k sl au data Hk Hl r. subst r.
  unfold Reorder.onRequestPost, bind, getKV, putKV, ret. simpl.
  rewrite Hk. simpl. rewrite Hl, Hlen.
  split; [reflexivity|]. rewrite (reorder_refines l orderedIds Hnd). reflexivity.
Qed.

Lemma reorder_permutation_witness :
  Reorder.reorder [stub "r_1" "one"; stub "r_2" "two"]
    [str "r_9"; str "r_2"; str "r_2"]
  ≡ₚ [stub "r_1" "one"; stub "r_2" "two"].
Proof.
  apply (reorder_permutation [stub "r_1" "one"; stub "r_2" "two"]
           [str "r_9"; str "r_2"; str "r_2"]).
  vm_compute. apply NoDup_cons. split.
  - intros H. apply list_elem_of_singleton in H. discriminate.
  - apply NoDup_singleton.
Defined.

(** ** Refresh and terminal statuses *)

Definition nonTerminal (s : Status) : Prop :=
  s = todo \/ s = in_progress \/ s = blocked.

(** A closed issue, last fetched long ago, that has since been reopened. *)
Definition closedIssue : Item :=
  {| id := str "r_2"; title := Some (str "Escrow bug");
     githubUrl := Some (str "https://github.com/aibtcdev/escrow/issues/7");
     githubData :=
       Some {| gd_type := Some (str "issue"); gd_number := Some 7;
               gd_title := Some (str "Escrow bug");
               gd_state := Some (str "closed"); gd_merged := false;
               gd_assignees := []; gd_labels := []; gd_stars := None;
               gd_homepage := None; gd_ownerLogin := None;
               gd_fetchedAt := Some 0; gd_notFoundCount := None |};
     status := done; founder := None; claimedBy := None;
     leader := None; contributors := []; deliverables := []; ratings := [];
     reputation := Some {| average10 := 0; count := 0%nat |};
     mentions := Some 0; website := Null; searchTerms := [];
     createdAt := None; updatedAt := None |}.

Definition reopened : GhJson :=
  {| j_description := None; j_full_name := None;
     j_archived := false; j_topics := []; j_stargazers_count := None;
     j_homepage := None; j_owner_login := None;
     j_title := Some (str "Escrow bug"); j_state := Some (str "open");
     j_merged := false; j_assignees := []; j_labels := [] |}.

Definition reopenedNetwork : Network :=
  {| github := fun _ => http 200 reopened;
     readme := fun _ => readme_status 404;
     activity := feed_events [] |}.

(** C2, as stated, fails for the refresh of [_tasks.js], where the status
    of an item is what [deriveStatus] gives for its snapshot.  A closed
    issue is [done]; once it is reopened, the refresh replaces the snapshot,
    the item is [in_progress], and the refresh itself records the move from
    [done] to [in_progress]. *)
Lemma refresh_reopens_done :
  let before := closedIssue in
  let turn := Tasks.refreshItem reopenedNetwork 1000000 before in
  let run :=
    Tasks.refreshStaleGithubData reopenedNetwork 1000000
      (quiet (put_items (set_items [closedIssue] emptyRegistry) emptyKV) [] []) in
  Tasks.deriveStatus before = done
  /\ Tasks.deriveStatus (Tasks.rf_item turn) = in_progress
  /\ Tasks.rf_events turn = [status_synced (str "r_2") done in_progress]
  /\ fst run = Ok {| Tasks.refreshedCount := 1; Tasks.statusChanges := 1 |}
  /\ option_map (fun r => map Tasks.deriveStatus (items r)) (kv_items (kv (snd run)))
     = Some [in_progress]
  /\ audit (snd run) = [status_synced (str "r_2") done in_progress].
Proof. vm_compute. repeat split. Qed.

Lemma legacy_refreshItem_status net now item :
  let item' := fst (fst (Legacy.refreshItem net now item)) in
  (Legacy.isTerminal (status item) = true -> status item' = status item)
  /\ (status item' = status item \/ status item' = done).
Proof.
  unfold Legacy.refreshItem.
  destruct (negb (truthy (githubUrl item))); [simpl; auto|].
  destruct (_ <? _); [simpl; auto|].
  destruct (Legacy.fetchGithubData net now (githubUrl item)) as [fresh|];
    [|simpl; auto].
  destruct (Legacy.isTerminal (status item)) eqn:Ht; simpl; [auto|].
  destruct (_ || _); simpl; split; auto; discriminate.
Qed.

Lemma tasks_refreshItem_status net now item :
  status (Tasks.rf_item (Tasks.refreshItem net now item)) = status item.
Proof.
  unfold Tasks.refreshItem, Tasks.unchanged.
  destruct (negb (truthy (githubUrl item))); [reflexivity|].
  destruct (_ <? _); [reflexivity|].
  destruct (Tasks.fetchGithubData net now (githubUrl item)); [reflexivity| |reflexivity].
  destruct (_ && _); reflexivity.
Qed.

(** C2, amended.  The status that an item stores is safe from both
    refreshes.  The earlier refresh, which keeps the status in the item,
    leaves a status of [done], [shipped] or [paid] as it is and changes any
    other status only to [done].  The refresh of [_tasks.js] never writes
    the stored status.  The status it derives is not guarded: after a
    successful fetch of a stale item it is [deriveStatus] of the fresh
    snapshot, whatever the status was before. *)
Theorem refresh_keeps_stored_status (net : Network) (now : Z) (l : list Item) :
  Forall2
    (fun before after =>
       (Legacy.isTerminal (status before) = true -> status after = status before)
       /\ (status after = status before \/ status after = done))
    l (map (fun item => fst (fst (Legacy.refreshItem net now item))) l)
  /\ map status (map (fun item => Tasks.rf_item (Tasks.refreshItem net now item)) l)
     = map status l
  /\ Forall
       (fun item =>
          forall fresh,
            truthy (githubUrl item) = true ->
            Tasks.STALE_AFTER_MS
              <= now - match githubData item with
                       | Some gd => default 0 (gd_fetchedAt gd)
                       | None => 0
                       end ->
            Tasks.fetchGithubData net now (githubUrl item) = Tasks.fetch_data fresh ->
            Tasks.deriveStatus (Tasks.rf_item (Tasks.refreshItem net now item))
            = Tasks.deriveStatus (set_githubData (Some fresh) item))
       l.
Proof.
  split; [|split].
  - induction l as [|item l IH]; simpl; constructor; [|exact IH].
    apply legacy_refreshItem_status.
  - rewrite map_map. apply map_ext. intros item. apply tasks_refreshItem_status.
  - apply Forall_forall. intros item _ fresh Hurl Hstale Hfetch.
    unfold Tasks.refreshItem. rewrite Hurl. cbn [negb].
    apply Z.ltb_ge in Hstale. rewrite Hstale, Hfetch. reflexivity.
Qed.

(** ** Mention matching *)

Section MatchingFacts.
Context {P : Platform}.

(** The terms of an item without block 4b, the bare repository name. *)
Definition termsWithoutRepoName (item : Item) : list Tasks.Term :=
  Tasks.titleTerm item ++ Tasks.partTerms item ++ Tasks.slugTerms item
  ++ match Tasks.ghPath item with
     | Some ((_ :: _) as path) => Tasks.urlTerms item path
     | _ => []
     end
  ++ Tasks.siteTerms item ++ Tasks.aliasTerms item.

Lemma titleLower_nonempty (item : Item) (t : jsstring) :
  title item = Some t -> t <> [] -> Tasks.titleLower item <> [].
Proof.
  intros Ht Hne Hnil. unfold Tasks.titleLower in Hnil. rewrite Ht in Hnil.
  apply toLowerCase_nonempty in Hnil. contradiction.
Qed.

(** The final filter keeps terms of the list, and the first term of every
    text that was not seen before. *)
Lemma dedupe_sub (seen : list jsstring) (terms : list Tasks.Term) (t : Tasks.Term) :
  t ∈ Tasks.dedupe seen terms -> t ∈ terms.
Proof.
  revert seen; induction terms as [|x l IH]; simpl; intros seen Hin; [exact Hin|].
  destruct (mem (Tasks.text x) seen).
  - apply elem_of_cons. right. eapply IH, Hin.
  - apply elem_of_cons in Hin as [->|Hin]; [apply list_elem_of_here|].
    apply elem_of_cons. right. eapply IH, Hin.
Qed.

Lemma dedupe_texts (seen : list jsstring) (terms : list Tasks.Term) (x : jsstring) :
  x ∈ map Tasks.text terms -> x ∉ seen -> x ∈ map Tasks.text (Tasks.dedupe seen terms).
Proof.
  revert seen; induction terms as [|t l IH]; simpl; intros seen Hin Hseen; [exact Hin|].
  destruct (mem (Tasks.text t) seen) eqn:Hmem.
  - apply elem_of_cons in Hin as [->|Hin]; [|apply IH; assumption].
    apply mem_true in Hmem. contradiction.
  - simpl. destruct (decide (x = Tasks.text t)) as [->|Hne];
      [apply list_elem_of_here|].
    apply elem_of_cons. right.
    apply elem_of_cons in Hin as [->|Hin]; [contradiction|].
    apply IH; [exact Hin|]. intros Hs. apply elem_of_cons in Hs as [->|Hs]; contradiction.
Qed.

(** The texts of the terms that the sources other than the bare name
    generate, read off the item. *)
Lemma termsWithoutRepoName_texts (item : Item) (x : jsstring) :
  x ∈ map Tasks.text (termsWithoutRepoName item) ->
  x = Tasks.titleLower item
  \/ x ∈ Tasks.titleParts item
  \/ x ∈ map Tasks.slugify (Tasks.titleLower item :: Tasks.titleParts item)
  \/ x = toLowerCase (default [] (githubUrl item))
  \/ Tasks.ghPath item = Some x
  \/ (exists homepage u, Tasks.homepageOf item = Some homepage
                         /\ parseUrl homepage = Some u
                         /\ x = toLowerCase (hostname u))
  \/ x ∈ searchTerms item.
Proof.
  unfold termsWithoutRepoName. rewrite !map_app, !elem_of_app.
  intros [H|[H|[H|[H|[H|H]]]]].
  - left. unfold Tasks.titleTerm in H. destruct (Tasks.titleLower item); simpl in H.
    + inversion H.
    + apply list_elem_of_singleton in H. exact H.
  - right. left. unfold Tasks.partTerms in H. rewrite map_map in H. cbn in H.
    rewrite map_id in H. apply list_elem_of_In, filter_In in H as [H _].
    apply list_elem_of_In. exact H.
  - right. right. left. unfold Tasks.slugTerms in H.
    apply list_elem_of_fmap in H as (t & -> & Ht).
    apply list_elem_of_In, in_flat_map in Ht as (part & Hpart & Ht).
    destruct (_ && _); [|destruct Ht]. destruct Ht as [<-|[]]. cbn [Tasks.text].
    apply list_elem_of_fmap. exists part. split; [reflexivity|].
    apply list_elem_of_In. exact Hpart.
  - destruct (Tasks.ghPath item) as [[|c path]|] eqn:Hpath; try (inversion H; fail).
    unfold Tasks.urlTerms in H. cbn in H.
    apply elem_of_cons in H as [->|H]; [right; right; right; left; reflexivity|].
    apply list_elem_of_singleton in H. subst x. right. right. right. right. left.
    reflexivity.
  - right. right. right. right. right. left.
    unfold Tasks.siteTerms in H.
    destruct (Tasks.homepageOf item) as [homepage|]; [|inversion H].
    destruct (parseUrl homepage) as [u|] eqn:Hu; [|inversion H].
    destruct (_ && _); [|inversion H]. cbn in H.
    apply list_elem_of_singleton in H. eauto.
  - right. right. right. right. right. right.
    unfold Tasks.aliasTerms in H. rewrite map_map in H. cbn in H.
    rewrite map_id in H. apply list_elem_of_In, filter_In in H as [H _].
    apply list_elem_of_In. exact H.
Qed.

(** C5, amended.  Matching is by substring on lower-cased text.  A
    lower-cased message that contains the lower-cased title of an item with
    a non-empty title matches that item, and the match is reported as a
    title match.  When the bare repository name, the last segment of the
    path of the GitHub address, is shorter than 8 characters, the rule that
    adds the bare name and its spaced variant adds no term.  The bare name
    is then a match term exactly when another source generates the same
    text; if it is not the lower-cased title, a part of the title, a slug
    of either, the lower-cased address, the path, the host of the homepage
    or a search term, it is not among the match terms, and every match of
    the item comes from a term with another text. *)
Theorem matchMention_title_and_bare_name (item : Item) :
  (forall t preview,
     title item = Some t -> t <> [] ->
     includes preview (toLowerCase t) = true ->
     Tasks.matchMention preview item = Some Tasks.t_title)
  /\ (forall path,
        Tasks.ghPath item = Some path ->
        (length (Tasks.repoName path) < 8)%nat ->
        let name := Tasks.repoName path in
        Tasks.repoNameTerms path = []
        /\ (name ∈ map Tasks.text (Tasks.getMatchTerms item)
            <-> name ∈ map Tasks.text (termsWithoutRepoName item))
        /\ (name <> Tasks.titleLower item ->
            name ∉ Tasks.titleParts item ->
            name ∉ map Tasks.slugify (Tasks.titleLower item :: Tasks.titleParts item) ->
            name <> toLowerCase (default [] (githubUrl item)) ->
            name <> path ->
            (forall homepage u,
               Tasks.homepageOf item = Some homepage ->
               parseUrl homepage = Some u -> name <> toLowerCase (hostname u)) ->
            name ∉ searchTerms item ->
            (name ∉ map Tasks.text (Tasks.getMatchTerms item))
            /\ forall preview ty,
                 Tasks.matchMention preview item = Some ty ->
                 exists term, term ∈ Tasks.getMatchTerms item
                              /\ Tasks.text term <> name
                              /\ includes preview (Tasks.text term) = true
                              /\ Tasks.ttype term = ty)).
Proof.
  split.
  - intros t preview Ht Hne Hinc.
    pose proof (titleLower_nonempty item t Ht Hne) as Hlow.
    unfold Tasks.matchMention, Tasks.getMatchTerms, Tasks.titleTerm.
    unfold Tasks.titleLower in *. rewrite Ht in *. simpl default in *.
    destruct (toLowerCase t) as [|c s] eqn:E; [congruence|].
    simpl. rewrite Hinc. reflexivity.
  - intros path Hpath Hshort name.
    assert (Hnone : Tasks.repoNameTerms path = []).
    { unfold Tasks.repoNameTerms. destruct (Tasks.repoName path); [reflexivity|].
      destruct (Nat.leb_spec 8 (length (n :: l))); [lia | reflexivity]. }
    assert (Hterms : Tasks.getMatchTerms item
                     = Tasks.dedupe [] (termsWithoutRepoName item)).
    { unfold Tasks.getMatchTerms, termsWithoutRepoName, Tasks.githubTerms.
      rewrite Hpath. destruct path; [reflexivity|].
      rewrite Hnone, app_nil_r. reflexivity. }
    assert (Hiff : name ∈ map Tasks.text (Tasks.getMatchTerms item)
                   <-> name ∈ map Tasks.text (termsWithoutRepoName item)).
    { rewrite Hterms. split.
      - intros Hin. apply list_elem_of_fmap in Hin as (t & -> & Ht).
        apply list_elem_of_fmap. exists t. split; [reflexivity|].
        exact (dedupe_sub _ _ _ Ht).
      - intros Hin. apply dedupe_texts; [exact Hin|]. intros Hnil. inversion Hnil. }
    split; [exact Hnone|]. split; [exact Hiff|].
    intros Htitle Hparts Hslugs Hurl Hp Hhost Halias.
    assert (Hnot : name ∉ map Tasks.text (Tasks.getMatchTerms item)).
    { intros Hin. apply Hiff in Hin.
      destruct (termsWithoutRepoName_texts item name Hin)
        as [H|[H|[H|[H|[H|[(homepage & u & Hh & Hu & H)|H]]]]]]; try contradiction.
      - rewrite Hpath in H. injection H as H. apply Hp. symmetry. exact H.
      - exact (Hhost homepage u Hh Hu H). }
    split; [exact Hnot|].
    intros preview ty Hmatch. unfold Tasks.matchMention in Hmatch.
    destruct (List.find _ _) as [term|] eqn:Hfind; [|discriminate].
    injection Hmatch as <-. apply find_some in Hfind as [Hin Hinc].
    apply list_elem_of_In in Hin.
    exists term. split; [exact Hin|]. split; [|auto].
    intros Heq. apply Hnot. rewrite <- Heq.
    apply list_elem_of_fmap. exists term. auto.
Qed.

End MatchingFacts.

(** C5, as stated, fails: the bare name of a repository can be a match
    term although it is shorter than 8 characters, when another source
    generates the same text.  The title of this item is the name of its
    repository, [skills]: the word is the first match term, and a message
    that holds nothing else matches. *)
Definition skillsItem : Item :=
  {| id := str "r_3"; title := Some (str "Skills");
     githubUrl := Some (str "https://github.com/aibtcdev/skills");
     githubData := None; status := todo; founder := None; claimedBy := None;
     leader := None; contributors := []; deliverables := []; ratings := [];
     reputation := None; mentions := None; website := Null; searchTerms := [];
     createdAt := None; updatedAt := None |}.

Lemma short_bare_name_is_a_term :
  Tasks.ghPath (P := SimplePlatform.platform) skillsItem = Some (str "aibtcdev/skills")
  /\ Tasks.repoName (str "aibtcdev/skills") = str "skills"
  /\ (length (str "skills") < 8)%nat
  /\ map Tasks.text (Tasks.getMatchTerms (P := SimplePlatform.platform) skillsItem)
     = [str "skills"; str "https://github.com/aibtcdev/skills"; str "aibtcdev/skills"]
  /\ str "skills" ∈ map Tasks.text
                      (Tasks.getMatchTerms (P := SimplePlatform.platform) skillsItem)
  /\ Tasks.matchMention (P := SimplePlatform.platform) (str "skills") skillsItem
     = Some Tasks.t_title.
Proof.
  split; [reflexivity|]. split; [reflexivity|]. split; [vm_compute; lia|].
  split; [reflexivity|]. split; [|reflexivity].
  apply mem_true. reflexivity.
Qed.

(** A repository [relay] under another title: the bare name is no term,
    and a message that holds only the name does not match, while the title
    does. *)
Definition relayItem : Item :=
  {| id := str "r_4"; title := Some (str "Signal Board");
     githubUrl := Some (str "https://github.com/acme/relay");
     githubData := None; status := todo; founder := None; claimedBy := None;
     leader := None; contributors := []; deliverables := []; ratings := [];
     reputation := None; mentions := None; website := Null; searchTerms := [];
     createdAt := None; updatedAt := None |}.

Lemma matchMention_bare_name_witness :
  Tasks.matchMention (P := SimplePlatform.platform)
    (str "the signal board is live") relayItem = Some Tasks.t_title
  /\ (str "relay" ∉ map Tasks.text
                       (Tasks.getMatchTerms (P := SimplePlatform.platform) relayItem))
  /\ Tasks.matchMention (P := SimplePlatform.platform) (str "relay") relayItem = None.
Proof.
  pose proof (matchMention_title_and_bare_name (P := SimplePlatform.platform) relayItem)
    as [Htitle Hshort].
  split; [|split].
  - apply (Htitle (str "Signal Board")); [reflexivity | discriminate | reflexivity].
  - apply (Hshort (str "acme/relay")); first
      [ reflexivity
      | vm_compute; lia
      | discriminate
      | intros H; apply mem_true in H; discriminate
      | intros homepage u H; discriminate ].
  - reflexivity.
Defined.

(** ** Website claims *)

(** The addresses held by the items of the stored registry. *)
Definition websiteUrls (w : World) : list (option jsstring) :=
  match kv_items (kv w) with
  | Some r => map (fun i => w_url <$> Tasks.websiteOf i) (items r)
  | None => []
  end.

Definition repoData (homepage : string) : GithubData :=
  {| gd_type := Some (str "repo"); gd_number := None; gd_title := None;
     gd_state := Some (str "active"); gd_merged := false;
     gd_assignees := []; gd_labels := []; gd_stars := Some 1;
     gd_homepage := Some (str homepage); gd_ownerLogin := Some (str "acme");
     gd_fetchedAt := Some 0; gd_notFoundCount := None |}.

(** A project whose website claim comes from the homepage field of its
    repository. *)
Definition site (i repo homepage claimed : string) : Item :=
  {| id := str i; title := Some (str repo);
     githubUrl := Some (str "https://github.com/acme/" ++ str repo);
     githubData := Some (repoData homepage);
     status := in_progress; founder := None; claimedBy := None;
     leader := None; contributors := []; deliverables := []; ratings := [];
     reputation := Some {| average10 := 0; count := 0%nat |};
     mentions := Some 0;
     website := Val {| w_url := str claimed; w_source := src_homepage;
                       w_discoveredAt := 0 |};
     searchTerms := []; createdAt := None; updatedAt := None |}.

(** Two projects with different claims.  The first repository has since
    declared the homepage that the second project already holds. *)
Definition twoSites : Registry :=
  set_items
    [site "r_a" "app" "https://app.pages.dev" "https://old.acme.org";
     site "r_b" "docs" "https://app.pages.dev" "https://app.pages.dev"]
    emptyRegistry.

Definition quietNetwork : Network :=
  {| github := fun _ => net_fail;
     readme := fun _ => readme_status 404;
     activity := feed_events [] |}.

(** C4 on the code.  The registry holds two different addresses; after
    [discoverWebsites] both items hold [https://app.pages.dev]: the
    homepage sync assigns the address without looking at the claimed set,
    and two homepage claims on one address are never cleared.  A second
    run leaves the duplicate in place. *)
Lemma discoverWebsites_duplicate_claim :
  let w0 := quiet (put_items twoSites emptyKV) [] [] in
  let w1 := snd (Tasks.discoverWebsites (P := SimplePlatform.platform)
                   quietNetwork 1000000 w0) in
  let w2 := snd (Tasks.discoverWebsites (P := SimplePlatform.platform)
                   quietNetwork 9000000 w1) in
  websiteUrls w0 = [Some (str "https://old.acme.org"); Some (str "https://app.pages.dev")]
  /\ websiteUrls w1 = [Some (str "https://app.pages.dev"); Some (str "https://app.pages.dev")]
  /\ websiteUrls w2 = [Some (str "https://app.pages.dev"); Some (str "https://app.pages.dev")].
Proof. vm_compute. repeat split. Qed.

(** ** Sorting with a comparator *)

Section SortFacts.
Context {A : Type} (cmp : A -> A -> Z).

(** [x] may stand before [y]. *)
Definition inOrder (x y : A) : Prop := cmp x y <= 0.

Hypothesis cmp_total : forall x y, inOrder x y \/ inOrder y x.
Hypothesis cmp_trans : forall x y z, inOrder x y -> inOrder y z -> inOrder x z.

Lemma insertSorted_perm (x : A) (l : list A) : insertSorted cmp x l ≡ₚ x :: l.
Proof.
  induction l as [|y l IH]; simpl; [reflexivity|].
  destruct (cmp x y <=? 0); [reflexivity|].
  rewrite IH. apply Permutation_swap.
Qed.

Lemma jsSort_perm (l : list A) : jsSort cmp l ≡ₚ l.
Proof.
  induction l as [|x l IH]; simpl; [reflexivity|].
  rewrite insertSorted_perm, IH. reflexivity.
Qed.

Lemma insertSorted_sorted (x : A) (l : list A) :
  StronglySorted inOrder l -> StronglySorted inOrder (insertSorted cmp x l).
Proof.
  induction l as [|y l IH]; simpl; intros Hs.
  - constructor; [constructor | constructor].
  - apply StronglySorted_cons in Hs as [Hy Hs].
    destruct (Z.leb_spec (cmp x y) 0) as [Hxy|Hxy].
    + apply StronglySorted_cons. split.
      * constructor; [exact Hxy|].
        eapply Forall_impl; [exact Hy|]. intros z Hz. eapply cmp_trans; eauto.
      * apply StronglySorted_cons. auto.
    + apply StronglySorted_cons. split; [|auto].
      rewrite insertSorted_perm. constructor; [|exact Hy].
      destruct (cmp_total y x) as [H|H]; [exact H|]. unfold inOrder in H. lia.
Qed.

Lemma jsSort_sorted (l : list A) : StronglySorted inOrder (jsSort cmp l).
Proof.
  induction l as [|x l IH]; simpl; [constructor|].
  apply insertSorted_sorted, IH.
Qed.

Lemma insertSorted_front (x : A) (l : list A) :
  (forall y, y ∈ l -> inOrder x y) -> insertSorted cmp x l = x :: l.
Proof.
  destruct l as [|y l]; simpl; intros H; [reflexivity|].
  pose proof (H y (list_elem_of_here _ _)) as Hxy. unfold inOrder in Hxy.
  destruct (Z.leb_spec (cmp x y) 0); [reflexivity | lia].
Qed.

(** Sorting a sorted list followed by elements that may all stand after it
    leaves the list in front. *)
Lemma jsSort_app_sorted (l k : list A) :
  StronglySorted inOrder l ->
  (forall x y, x ∈ l -> y ∈ k -> inOrder x y) ->
  jsSort cmp (l ++ k) = l ++ jsSort cmp k.
Proof.
  induction l as [|x l IH]; simpl; intros Hs Hlk; [reflexivity|].
  apply StronglySorted_cons in Hs as [Hx Hs].
  rewrite IH; [|exact Hs|intros; apply Hlk; [apply elem_of_cons; auto | assumption]].
  apply insertSorted_front. intros y Hy.
  apply elem_of_app in Hy as [Hy|Hy].
  - rewrite Forall_forall in Hx. auto.
  - rewrite jsSort_perm in Hy. apply Hlk; [apply list_elem_of_here | exact Hy].
Qed.

End SortFacts.
(** ** The message archive *)

Section ArchiveFacts.
Context {P : Platform}.

Lemma newestFirst_total (x y : ArchivedMsg) :
  inOrder Tasks.newestFirst x y \/ inOrder Tasks.newestFirst y x.
Proof.
  unfold inOrder, Tasks.newestFirst.
  destruct (localeCompare_total (am_timestamp y) (am_timestamp x)); auto.
Qed.

Lemma newestFirst_trans (x y z : ArchivedMsg) :
  inOrder Tasks.newestFirst x y -> inOrder Tasks.newestFirst y z ->
  inOrder Tasks.newestFirst x z.
Proof.
  unfold inOrder, Tasks.newestFirst. intros Hxy Hyz.
  exact (localeCompare_trans _ _ _ Hyz Hxy).
Qed.

(** The archived copy of a feed entry whose time stamp is [ts]. *)
Definition archivedCopy (ev : Message) (ts : jsstring) : ArchivedMsg :=
  {| am_timestamp := ts; am_agent := ev_agent ev;
     am_recipient := ev_recipient ev;
     am_messagePreview := Tasks.truthy_or_null (ev_messagePreview ev) |}.

(** The messages that the loop of [archiveMessages] appends, given the
    time stamps already held. *)
Fixpoint fresh (msgs : list Message) (timestamps : list jsstring) : list ArchivedMsg :=
  match msgs with
  | [] => []
  | ev :: msgs' =>
    match ev_timestamp ev with
    | Some ((_ :: _) as ts) =>
      if mem ts timestamps then fresh msgs' timestamps
      else archivedCopy ev ts :: fresh msgs' (ts :: timestamps)
    | _ => fresh msgs' timestamps
    end
  end.

Lemma archiveLoop_fresh msgs existing timestamps added :
  Tasks.archiveLoop msgs existing timestamps added
  = (existing ++ fresh msgs timestamps, (added + length (fresh msgs timestamps))%nat).
Proof.
  revert existing timestamps added.
  induction msgs as [|ev msgs IH]; intros existing timestamps added; simpl.
  - rewrite app_nil_r, Nat.add_0_r. reflexivity.
  - destruct (ev_timestamp ev) as [[|c ts]|]; try apply IH.
    destruct (mem (c :: ts) timestamps); [apply IH|].
    rewrite IH, <- app_assoc. simpl. f_equal. lia.
Qed.

Lemma fresh_elem msgs timestamps d :
  d ∈ fresh msgs timestamps ->
  (am_timestamp d ∉ timestamps)
  /\ am_timestamp d <> []
  /\ exists ev, ev ∈ msgs /\ ev_timestamp ev = Some (am_timestamp d).
Proof.
  revert timestamps; induction msgs as [|ev msgs IH]; intros timestamps; simpl.
  - intros H. inversion H.
  - assert (Hrest : forall tss, d ∈ fresh msgs tss ->
              (forall t, t ∈ timestamps -> t ∈ tss) ->
              (am_timestamp d ∉ timestamps) /\ am_timestamp d <> []
              /\ exists ev', ev' ∈ ev :: msgs
                             /\ ev_timestamp ev' = Some (am_timestamp d)).
    { intros tss Hd Hsub. destruct (IH tss Hd) as (Hn & Hne & ev' & Hev & Hts).
      split; [intros Hin; apply Hn, Hsub, Hin|]. split; [exact Hne|].
      exists ev'. split; [apply elem_of_cons; auto | exact Hts]. }
    destruct (ev_timestamp ev) as [[|c ts]|] eqn:Ets;
      try (intros Hd; apply (Hrest timestamps Hd); auto).
    destruct (mem (c :: ts) timestamps) eqn:Hm;
      [intros Hd; apply (Hrest timestamps Hd); auto|].
    intros Hd. apply elem_of_cons in Hd as [->|Hd].
    + simpl. apply mem_false in Hm. split; [exact Hm|]. split; [discriminate|].
      exists ev. split; [apply list_elem_of_here | exact Ets].
    + apply (Hrest ((c :: ts) :: timestamps) Hd). intros t Ht.
      apply elem_of_cons. auto.
Qed.

Lemma fresh_covers msgs timestamps ev t :
  ev ∈ msgs -> ev_timestamp ev = Some t -> t <> [] ->
  t ∈ timestamps \/ t ∈ map am_timestamp (fresh msgs timestamps).
Proof.
  revert timestamps; induction msgs as [|e msgs IH]; intros timestamps Hev Hts Hne.
  - inversion Hev.
  - apply elem_of_cons in Hev as [->|Hev]; simpl.
    + rewrite Hts. destruct t as [|c t]; [congruence|].
      destruct (mem (c :: t) timestamps) eqn:Hm.
      * left. apply mem_true. exact Hm.
      * right. simpl. apply list_elem_of_here.
    + destruct (ev_timestamp e) as [[|c ts]|] eqn:Ets; try (apply IH; assumption).
      destruct (mem (c :: ts) timestamps) eqn:Hm; [apply IH; assumption|].
      destruct (IH ((c :: ts) :: timestamps) Hev Hts Hne) as [Hin|Hin].
      * apply elem_of_cons in Hin as [->|Hin]; [|auto].
        right. simpl. apply list_elem_of_here.
      * right. simpl. apply elem_of_cons. auto.
Qed.

(** What [archiveMessages] writes under the archive key, if anything. *)
Definition archiveWrite (stored : option (list ArchivedMsg)) (msgs : list Message)
    : option (list ArchivedMsg) :=
  match msgs with
  | [] => None
  | _ =>
    let existing := default [] stored in
    match fresh msgs (map am_timestamp existing) with
    | [] => None
    | added =>
      Some (take Tasks.MAX_ARCHIVED_MESSAGES
              (jsSort Tasks.newestFirst (existing ++ added)))
    end
  end.

(** The store after [archiveMessages]. *)
Definition archiveKV (k : KV) (msgs : list Message) : KV :=
  match archiveWrite (kv_archive k) msgs with
  | Some trimmed => put_archive trimmed k
  | None => k
  end.

Lemma archiveMessages_run msgs k sl au :
  Tasks.archiveMessages msgs (quiet k sl au) = (Ok tt, quiet (archiveKV k msgs) sl au).
Proof.
  unfold Tasks.archiveMessages, archiveKV, archiveWrite.
  destruct msgs as [|ev msgs]; [reflexivity|].
  unfold bind, Tasks.getArchivedMessages, bind, getKV, ret. cbn [kv quiet].
  rewrite archiveLoop_fresh. cbn [Nat.add].
  destruct (fresh (ev :: msgs) _) as [|d added]; [reflexivity|].
  reflexivity.
Qed.

(** Archiving the same messages again adds nothing: what is not in the
    archive after the first pass is older than everything the cap keeps. *)
Lemma archiveWrite_again stored msgs trimmed :
  archiveWrite stored msgs = Some trimmed ->
  archiveWrite (Some trimmed) msgs = None
  \/ archiveWrite (Some trimmed) msgs = Some trimmed.
Proof.
  unfold archiveWrite. destruct msgs as [|ev0 msgs0]; [discriminate|].
  set (msgs := ev0 :: msgs0). set (existing := default [] stored).
  destruct (fresh msgs (map am_timestamp existing)) as [|d0 added0] eqn:Hfresh;
    [discriminate|].
  set (added := d0 :: added0) in *. set (sorted := jsSort _ _).
  intros Heq. injection Heq as <-.
  set (kept := take Tasks.MAX_ARCHIVED_MESSAGES sorted).
  change (default [] (Some kept)) with kept.
  destruct (fresh msgs (map am_timestamp kept)) as [|d again] eqn:Hagain; [left; reflexivity|].
  right. f_equal.
  assert (Hsorted : StronglySorted (inOrder Tasks.newestFirst) sorted)
    by (apply jsSort_sorted; [apply newestFirst_total | apply newestFirst_trans]).
  assert (Hperm : sorted ≡ₚ existing ++ added) by apply jsSort_perm.
  assert (Hsplit : sorted = kept ++ drop Tasks.MAX_ARCHIVED_MESSAGES sorted)
    by (symmetry; apply take_drop).
  (* every message of the second pass has the time stamp of a message that
     the cap dropped *)
  assert (Hdropped : forall x, x ∈ d :: again ->
            exists e, e ∈ drop Tasks.MAX_ARCHIVED_MESSAGES sorted
                      /\ am_timestamp e = am_timestamp x).
  { intros x Hx. rewrite <- Hagain in Hx.
    destruct (fresh_elem _ _ _ Hx) as (Hnot & Hne & ev & Hev & Hts).
    assert (Hin : am_timestamp x ∈ map am_timestamp sorted).
    { change (map am_timestamp sorted) with (am_timestamp <$> sorted).
      rewrite Hperm, fmap_app. apply elem_of_app.
      destruct (fresh_covers msgs (map am_timestamp existing) ev _ Hev Hts Hne)
        as [H|H]; [left; exact H | right; rewrite <- Hfresh; exact H]. }
    change (map am_timestamp sorted) with (am_timestamp <$> sorted) in Hin.
    apply list_elem_of_fmap in Hin as (e & He & Hin).
    rewrite Hsplit in Hin. apply elem_of_app in Hin as [Hin|Hin].
    - exfalso. apply Hnot.
      change (map am_timestamp kept) with (am_timestamp <$> kept).
      apply list_elem_of_fmap. eauto.
    - exists e. auto. }
  assert (Hfull : length kept = Tasks.MAX_ARCHIVED_MESSAGES).
  { destruct (Hdropped d (list_elem_of_here _ _)) as (e & He & _).
    unfold kept. apply length_take_le.
    destruct (Nat.le_gt_cases Tasks.MAX_ARCHIVED_MESSAGES (length sorted)); [assumption|].
    rewrite drop_ge in He by lia. inversion He. }
  rewrite (jsSort_app_sorted Tasks.newestFirst).
  - apply take_app_length'. symmetry. exact Hfull.
  - rewrite Hsplit in Hsorted. eapply StronglySorted_app_1_l, Hsorted.
  - intros a x Ha Hx. destruct (Hdropped x Hx) as (e & He & Hts).
    rewrite Hsplit in Hsorted.
    pose proof (StronglySorted_app_1_elem_of _ _ _ _ _ Hsorted Ha He) as Hae.
    unfold inOrder, Tasks.newestFirst in *. rewrite <- Hts. exact Hae.
Qed.

Lemma archiveKV_again k msgs :
  archiveKV (archiveKV k msgs) msgs = archiveKV k msgs.
Proof.
  unfold archiveKV at 2 3.
  destruct (archiveWrite (kv_archive k) msgs) as [trimmed|] eqn:Hw.
  - unfold archiveKV. cbn [kv_archive put_archive].
    destruct (archiveWrite_again _ _ _ Hw) as [H|H]; rewrite H; reflexivity.
  - unfold archiveKV. rewrite Hw. reflexivity.
Qed.

End ArchiveFacts.
(** ** The full-reset mention rescan *)

(** The registry that [getData] returns for a store. *)
Definition loaded (now : Z) (k : KV) : Registry :=
  let data :=
    default {| version := 1; writeVersion := None; items := [];
               reg_updatedAt := None |} (kv_items k) in
  let data := set_writeVersion (Some (default 0 (writeVersion data))) data in
  let data := Tasks.migrate_step 5 Tasks.migrate_v5 data in
  let data := Tasks.migrate_step 6 (Tasks.migrate_v6 now) data in
  let data := Tasks.migrate_step 7 (fun item => item) data in
  let data := Tasks.migrate_step 8 (Tasks.migrate_v8 now) data in
  Tasks.migrate_step 10 Tasks.migrate_v10 data.

Lemma getData_loaded now w : Tasks.getData now w = (Ok (loaded now (kv w)), w).
Proof. reflexivity. Qed.

Lemma loaded_version now k :
  writeVersion (loaded now k) = Some (storedVersion k) /\ 10 <= version (loaded now k).
Proof.
  destruct (getData_run now (quiet k [] [])) as (data & Hget & Hv & Hver).
  rewrite getData_loaded in Hget. injection Hget as <-. auto.
Qed.

(** A registry at the current schema version is returned as it is stored. *)
Lemma loaded_current now k r v :
  kv_items k = Some r -> 10 <= version r -> writeVersion r = Some v ->
  loaded now k = r.
Proof.
  intros Hk Hver Hwv. unfold loaded. rewrite Hk. cbn [default].
  destruct r as [ver wv its upd]. cbn in *. subst wv.
  unfold Tasks.migrate_step, set_writeVersion. cbn.
  repeat (match goal with
          | |- context [?a <? ?b] => destruct (Z.ltb_spec a b); [lia|]
          end; cbn).
  reflexivity.
Qed.

Lemma saveRetry_quiet now data k sl au :
  writeVersion data = Some (storedVersion k) ->
  Tasks.saveRetry now data 3 (quiet k sl au)
  = (Ok tt, quiet (put_items (saved now data) k) sl au).
Proof.
  intros Hv. unfold Tasks.saveRetry. rewrite saveRetry_from_S, saveData_run.
  rewrite Hv. cbn [default]. rewrite Z.eqb_refl. reflexivity.
Qed.

Section RescanFacts.
Context {P : Platform}.

Definition previewOf (ev : Message) : jsstring :=
  toLowerCase (default [] (ev_messagePreview ev)).

(** What the loop over the entries does to one item. *)
Definition scanOne (evs : list Message) (item : Item) : Item :=
  fold_left (fun it ev => fst (Tasks.mentionItem (previewOf ev) ev it)) evs item.

(** The number of entries that mention an item. *)
Definition hits (evs : list Message) (item : Item) : Z :=
  Z.of_nat (length (List.filter
                      (fun ev => bool_decide (is_Some (Tasks.matchMention (previewOf ev) item)))
                      evs)).

(** The fields that decide which entries mention an item. *)
Definition matchKey (item : Item) :=
  (title item, githubUrl item, githubData item, searchTerms item).

Lemma scanEvents_items evs st :
  Tasks.sc_items (fold_left Tasks.scanEvent evs st)
  = map (scanOne evs) (Tasks.sc_items st).
Proof.
  revert st; induction evs as [|ev evs IH]; intros st; simpl.
  - symmetry. apply map_id.
  - rewrite IH. unfold Tasks.scanEvent at 1. cbn [Tasks.sc_items].
    rewrite !map_map. reflexivity.
Qed.

Lemma matchMention_key preview a b :
  matchKey a = matchKey b -> Tasks.matchMention preview a = Tasks.matchMention preview b.
Proof.
  unfold matchKey. intros H. injection H as Ht Hu Hg Hs.
  unfold Tasks.matchMention, Tasks.getMatchTerms, Tasks.titleTerm, Tasks.partTerms,
    Tasks.slugTerms, Tasks.titleParts, Tasks.titleLower, Tasks.githubTerms,
    Tasks.ghPath, Tasks.urlTerms, Tasks.siteTerms, Tasks.homepageOf, Tasks.aliasTerms.
  rewrite Ht, Hu, Hg, Hs. reflexivity.
Qed.

Lemma addContributor_key item agent :
  matchKey (Tasks.addContributor item agent) = matchKey item
  /\ mentions (Tasks.addContributor item agent) = mentions item.
Proof.
  unfold Tasks.addContributor. destruct agent as [a|]; [|auto].
  destruct (btcAddress a); [auto|].
  destruct (existsb _ _); auto.
Qed.

Lemma mentionItem_step preview ev item :
  matchKey (fst (Tasks.mentionItem preview ev item)) = matchKey item
  /\ mentions (fst (Tasks.mentionItem preview ev item))
     = if bool_decide (is_Some (Tasks.matchMention preview item))
       then Some (default 0 (mentions item) + 1) else mentions item.
Proof.
  unfold Tasks.mentionItem.
  destruct (Tasks.matchMention preview item) as [ty|]; cbn [fst].
  - destruct (addContributor_key
                (set_mentions (Some (default 0 (mentions item) + 1)) item)
                (Tasks.senderOf ev)) as [Hk Hm].
    rewrite Hk, Hm. split; reflexivity.
  - split; reflexivity.
Qed.

Lemma zeroMentions_key item :
  matchKey (Tasks.zeroMentions item) = matchKey item
  /\ default 0 (mentions (Tasks.zeroMentions item)) = 0
  /\ Tasks.zeroMentions (Tasks.zeroMentions item) = Tasks.zeroMentions item.
Proof.
  unfold Tasks.zeroMentions. destruct (mentions item) eqn:E; cbn; [|rewrite E]; auto.
Qed.

Lemma zeroMentions_mentions item :
  mentions (Tasks.zeroMentions item)
  = match mentions item with Some _ => Some 0 | None => None end.
Proof.
  unfold Tasks.zeroMentions. destruct (mentions item) eqn:E; [reflexivity | exact E].
Qed.

Lemma hits_key evs a b : matchKey a = matchKey b -> hits evs a = hits evs b.
Proof.
  intros H. unfold hits. f_equal. f_equal.
  apply List.filter_ext. intros ev. rewrite (matchMention_key _ a b H). reflexivity.
Qed.

Lemma hits_cons ev evs item :
  hits (ev :: evs) item
  = (if bool_decide (is_Some (Tasks.matchMention (previewOf ev) item)) then 1 else 0)
    + hits evs item.
Proof.
  unfold hits. cbn [List.filter].
  destruct (bool_decide _); cbn [length]; lia.
Qed.

Lemma scanOne_spec evs item :
  matchKey (scanOne evs item) = matchKey item
  /\ mentions (scanOne evs item)
     = if hits evs item =? 0 then mentions item
       else Some (default 0 (mentions item) + hits evs item).
Proof.
  revert item; induction evs as [|ev evs IH]; intros item.
  - split; reflexivity.
  - change (scanOne (ev :: evs) item)
      with (scanOne evs (fst (Tasks.mentionItem (previewOf ev) ev item))).
    destruct (mentionItem_step (previewOf ev) ev item) as [Hk Hm].
    destruct (IH (fst (Tasks.mentionItem (previewOf ev) ev item))) as [IHk IHm].
    split; [congruence|]. rewrite IHm, (hits_key evs _ _ Hk), Hm, hits_cons.
    assert (Hnn : 0 <= hits evs item) by (unfold hits; lia).
    generalize dependent (hits evs item). intros h Hnn.
    destruct (bool_decide (is_Some (Tasks.matchMention (previewOf ev) item))).
    + destruct (Z.eqb_spec h 0) as [->|Hh].
      * reflexivity.
      * destruct (Z.eqb_spec (1 + h) 0); [lia|].
        change (default 0 (Some ?x)) with x. f_equal. lia.
    + reflexivity.
Qed.

(** Zeroing and counting twice gives the counts of doing it once. *)
Lemma rescan_one_idempotent evs item :
  mentions (scanOne evs (Tasks.zeroMentions (scanOne evs (Tasks.zeroMentions item))))
  = mentions (scanOne evs (Tasks.zeroMentions item)).
Proof.
  set (once := scanOne evs (Tasks.zeroMentions item)).
  destruct (scanOne_spec evs (Tasks.zeroMentions item)) as [Hk1 Hm1].
  destruct (zeroMentions_key item) as (Hzk & Hz0 & Hzz).
  destruct (zeroMentions_key once) as (Hzk' & Hz0' & _).
  destruct (scanOne_spec evs (Tasks.zeroMentions once)) as [_ Hm2].
  rewrite Hm2. fold once in Hk1, Hm1. rewrite Hm1.
  rewrite (hits_key evs (Tasks.zeroMentions once) (Tasks.zeroMentions item))
    by congruence.
  rewrite Hz0, Hz0'.
  destruct (hits evs (Tasks.zeroMentions item) =? 0) eqn:E; [|reflexivity].
  rewrite zeroMentions_mentions, Hm1, zeroMentions_mentions.
  destruct (mentions item); reflexivity.
Qed.

End RescanFacts.

Section RescanRun.
Context {P : Platform}.

(** The feed entries that are messages with a text. *)
Definition isMessageEvent (e : Message) : bool :=
  is_str (ev_type e) "message" && truthy (ev_messagePreview e).

(** The live messages followed by the archived ones that are not live. *)
Definition mergedEvents (k : KV) (msgs : list Message) : list Message :=
  msgs ++
  map Tasks.asEvent
    (List.filter
       (fun msg =>
          negb (Tasks.ts_mem (Some (am_timestamp msg)) (map ev_timestamp msgs))
          && truthy (am_messagePreview msg))
       (default [] (kv_archive k))).

(** The loop of a reset scan over the merged messages, on the registry
    loaded from [k]. *)
Definition rescanned (now : Z) (k : KV) (msgs : list Message) : Tasks.Scanning :=
  fold_left Tasks.scanEvent (mergedEvents k msgs)
    {| Tasks.sc_items := map Tasks.zeroMentions (items (loaded now k));
       Tasks.sc_processed := []; Tasks.sc_mentions := [] |}.

(** The store after a reset scan that found the messages [msgs] in the
    feed, [k] being the store after they were archived. *)
Definition afterReset (now : Z) (k : KV) (msgs : list Message) : KV :=
  put_mention_scan
    {| lastScanAt := Some now;
       processedIds := Tasks.last500 (Tasks.sc_processed (rescanned now k msgs)) |}
    (put_items
       (saved now (set_items (Tasks.sc_items (rescanned now k msgs)) (loaded now k)))
       k).

Lemma filter_all {A} (f : A -> bool) (l : list A) :
  (forall x, x ∈ l -> f x = true) -> List.filter f l = l.
Proof.
  induction l as [|x l IH]; simpl; intros H; [reflexivity|].
  rewrite (H x) by apply list_elem_of_here. f_equal. apply IH.
  intros y Hy. apply H. apply elem_of_cons. auto.
Qed.

Lemma mergedEvents_new k msgs :
  (forall e, e ∈ msgs -> isMessageEvent e = true) ->
  List.filter
    (fun e =>
       (is_str (ev_type e) "message" || true)
       && truthy (ev_messagePreview e)
       && negb (Tasks.ts_mem (ev_timestamp e) []))
    (mergedEvents k msgs)
  = mergedEvents k msgs.
Proof.
  intros Hmsgs. apply filter_all. intros e He.
  rewrite orb_true_r. cbn [andb Tasks.ts_mem existsb negb]. rewrite andb_true_r.
  unfold mergedEvents in He. apply elem_of_app in He as [He|He].
  - apply Hmsgs in He. unfold isMessageEvent in He.
    apply andb_true_iff in He. tauto.
  - change (map Tasks.asEvent ?l) with (Tasks.asEvent <$> l) in He.
    apply list_elem_of_fmap in He as (m & -> & Hm).
    apply list_elem_of_In, filter_In in Hm as [_ Hm].
    apply andb_true_iff in Hm. cbn. tauto.
Qed.

Lemma match_nonempty {A B} (l : list A) (x y : B) :
  l <> [] -> match l with [] => x | _ :: _ => y end = y.
Proof. destruct l; [congruence | reflexivity]. Qed.

Lemma scan_reset_run net now k sl au evs :
  activity net = feed_events evs ->
  Tasks.scanForMentions net now true (quiet k sl au) =
  match List.filter isMessageEvent evs with
  | [] => (Ok (Tasks.scanned 0), quiet k sl au)
  | msgs =>
    (Ok (Tasks.scanned (length (Tasks.sc_mentions (rescanned now (archiveKV k msgs) msgs)))),
     quiet (afterReset now (archiveKV k msgs) msgs) sl au)
  end.
Proof.
  intros Hact. unfold Tasks.scanForMentions.
  unfold bind at 1. unfold getKV at 1. cbn [negb andb]. rewrite Hact.
  fold isMessageEvent.
  change (List.filter (fun e => is_str (ev_type e) "message" && truthy (ev_messagePreview e)) evs)
    with (List.filter isMessageEvent evs).
  assert (Hall : forall e, e ∈ List.filter isMessageEvent evs -> isMessageEvent e = true).
  { intros e He. apply list_elem_of_In, filter_In in He. tauto. }
  destruct (List.filter isMessageEvent evs) as [|m msgs'] eqn:Hmsgs.
  - reflexivity.
  - unfold bind at 1. rewrite archiveMessages_run.
    set (msgs := m :: msgs') in *. set (k1 := archiveKV k msgs).
    unfold bind at 1. unfold bind at 1.
    unfold Tasks.getArchivedMessages at 1. unfold bind at 1. unfold getKV at 1.
    unfold ret at 1. unfold ret at 1. cbn [kv quiet].
    fold (mergedEvents k1 msgs).
    rewrite (mergedEvents_new k1 msgs Hall).
    assert (Hne : mergedEvents k1 msgs <> []) by (unfold mergedEvents, msgs; discriminate).
    rewrite !(match_nonempty _ _ _ Hne).
    unfold bind at 1. rewrite getData_loaded. cbn [kv quiet].
    fold (rescanned now k1 msgs).
    cbn [orb]. unfold bind at 1. unfold bind at 1.
    rewrite saveRetry_quiet by (apply loaded_version).
    unfold ret at 1. unfold bind, putKV, ret. reflexivity.
Qed.


(** The mention counts of the stored items. *)
Definition mentionCounts (w : World) : list (option Z) :=
  match kv_items (kv w) with
  | Some r => map mentions (items r)
  | None => []
  end.

Lemma rescanned_items now k msgs :
  Tasks.sc_items (rescanned now k msgs)
  = map (fun item => scanOne (mergedEvents k msgs) (Tasks.zeroMentions item))
      (items (loaded now k)).
Proof.
  unfold rescanned. rewrite scanEvents_items. cbn [Tasks.sc_items].
  rewrite map_map. reflexivity.
Qed.

(** After the messages were archived, archiving them again leaves every
    store with that archive as it is. *)
Lemma archiveKV_settled k msgs k' :
  kv_archive k' = kv_archive (archiveKV k msgs) -> archiveKV k' msgs = k'.
Proof.
  intros Hk'. unfold archiveKV at 1. rewrite Hk'.
  unfold archiveKV in *.
  destruct (archiveWrite (kv_archive k) msgs) as [trimmed|] eqn:Hw.
  - cbn [kv_archive put_archive] in *.
    destruct (archiveWrite_again _ _ _ Hw) as [H|H]; rewrite H; [reflexivity|].
    destruct k'. cbn in *. subst. reflexivity.
  - rewrite Hw. reflexivity.
Qed.

(** What a reset scan leaves in the items: every count that was present is
    the number of merged messages that mention the item. *)
Lemma rescanned_counts now k msgs :
  map mentions (Tasks.sc_items (rescanned now k msgs))
  = map (fun item =>
           let n := hits (mergedEvents k msgs) item in
           if n =? 0 then mentions (Tasks.zeroMentions item) else Some n)
      (items (loaded now k)).
Proof.
  rewrite rescanned_items, map_map. apply map_ext. intros item. cbn zeta.
  destruct (scanOne_spec (mergedEvents k msgs) (Tasks.zeroMentions item)) as [_ Hm].
  destruct (zeroMentions_key item) as (Hk & Hz & _).
  rewrite Hm, Hz, (hits_key _ _ _ Hk). reflexivity.
Qed.

(** C8. Two reset scans in succession, with the same reply of the activity
    feed and no other write to the store between or during them, both
    return, leave the same archive and leave every item with the same
    mention count.  When the feed holds messages, the counts that the first
    run leaves are the numbers of merged messages (live and archived) that
    mention each item. *)
Theorem reset_rescan_idempotent (net : Network) (now1 now2 : Z) (k : KV)
    (sl : list Z) (au : list AuditEvent) :
  let run1 := Tasks.scanForMentions net now1 true (quiet k sl au) in
  let run2 := Tasks.scanForMentions net now2 true (snd run1) in
  (exists r1 r2, fst run1 = Ok r1 /\ fst run2 = Ok r2)
  /\ kv_archive (kv (snd run2)) = kv_archive (kv (snd run1))
  /\ mentionCounts (snd run2) = mentionCounts (snd run1)
  /\ (forall evs m msgs,
        activity net = feed_events evs ->
        List.filter isMessageEvent evs = m :: msgs ->
        let k1 := archiveKV k (m :: msgs) in
        mentionCounts (snd run1)
        = map (fun item =>
                 let n := hits (mergedEvents k1 (m :: msgs)) item in
                 if n =? 0 then mentions (Tasks.zeroMentions item) else Some n)
            (items (loaded now1 k1))).
Proof.
  intros run1 run2.
  destruct (activity net) as [|status|evs] eqn:Hact.
  - assert (H : forall now w, Tasks.scanForMentions net now true w
                             = (Ok (Tasks.not_scanned Tasks.fetch_error), w)).
    { intros now w. unfold Tasks.scanForMentions, bind, getKV, ret. cbn.
      rewrite Hact. reflexivity. }
    subst run1 run2. rewrite !H. cbn [fst snd]. rewrite ?H. cbn [fst snd].
    split; [eauto|]. split; [reflexivity|]. split; [reflexivity|].
    intros ? ? ? [=].
  - assert (H : forall now w, Tasks.scanForMentions net now true w
                             = (Ok (Tasks.not_scanned Tasks.api_error), w)).
    { intros now w. unfold Tasks.scanForMentions, bind, getKV, ret. cbn.
      rewrite Hact. reflexivity. }
    subst run1 run2. rewrite !H. cbn [fst snd]. rewrite ?H. cbn [fst snd].
    split; [eauto|]. split; [reflexivity|]. split; [reflexivity|].
    intros ? ? ? [=].
  - subst run1 run2. rewrite (scan_reset_run net now1 k sl au evs Hact).
    destruct (List.filter isMessageEvent evs) as [|m msgs'] eqn:Hmsgs.
    + cbn [fst snd]. rewrite (scan_reset_run net now2 k sl au evs Hact), Hmsgs.
      cbn [fst snd].
      split; [eauto|]. split; [reflexivity|]. split; [reflexivity|].
      intros evs' m' msgs'' [= <-] Hf. rewrite Hmsgs in Hf. discriminate.
    + cbn [fst snd].
      rewrite (scan_reset_run net now2
                 (afterReset now1 (archiveKV k (m :: msgs')) (m :: msgs')) sl au evs Hact),
        Hmsgs.
      cbn [fst snd].
      set (msgs := m :: msgs'). set (k1 := archiveKV k msgs).
      rewrite (archiveKV_settled k msgs (afterReset now1 k1 msgs)) by reflexivity.
      split; [eauto|]. split; [reflexivity|].
      assert (Hcounts1 : mentionCounts (quiet (afterReset now1 k1 msgs) sl au)
                         = map mentions (Tasks.sc_items (rescanned now1 k1 msgs)))
        by reflexivity.
      split.
      * rewrite Hcounts1.
        change (mentionCounts (quiet (afterReset now2 (afterReset now1 k1 msgs) msgs) sl au))
          with (map mentions
                  (Tasks.sc_items (rescanned now2 (afterReset now1 k1 msgs) msgs))).
        rewrite !rescanned_items.
        change (mergedEvents (afterReset now1 k1 msgs) msgs) with (mergedEvents k1 msgs).
        destruct (loaded_version now1 k1) as [Hwv Hver].
        rewrite (loaded_current now2 (afterReset now1 k1 msgs)
                   (saved now1 (set_items (Tasks.sc_items (rescanned now1 k1 msgs))
                                  (loaded now1 k1)))
                   (storedVersion k1 + 1));
          [|reflexivity|exact Hver|cbn; rewrite Hwv; reflexivity].
        cbn [items saved set_items set_writeVersion set_reg_updatedAt].
        rewrite rescanned_items, !map_map. apply map_ext. intros item.
        apply rescan_one_idempotent.
      * intros evs' m' msgs'' [= <-] Hf. rewrite Hmsgs in Hf. injection Hf as <- <-.
        cbn zeta. rewrite Hcounts1. apply rescanned_counts.
Qed.

End RescanRun.

(** A run on a concrete store: one item with a stale count of 7 and a feed
    with one message that names it.  Both reset scans leave the count 1. *)
Definition skillsMessage : Message :=
  {| ev_type := Some (str "message");
     ev_timestamp := Some (str "2026-01-01T00:00:00.000Z");
     ev_messagePreview := Some (str "new skills shipped today");
     ev_agent := Some {| p_btcAddress := Some (str "bc1qsender");
                         p_displayName := Some (str "Sender") |};
     ev_recipient := None |}.

Definition skillsFeed : Network :=
  {| github := fun _ => net_fail;
     readme := fun _ => readme_status 404;
     activity := feed_events [skillsMessage] |}.

Definition staleCounts : KV :=
  put_items
    {| version := 10; writeVersion := Some 3;
       items := [set_mentions (Some 7) skillsItem]; reg_updatedAt := None |}
    emptyKV.

Example reset_rescan_run :
  let scan := Tasks.scanForMentions (P := SimplePlatform.platform) skillsFeed in
  let run1 := scan 1000 true (quiet staleCounts [] []) in
  let run2 := scan 2000 true (snd run1) in
  fst run1 = Ok (Tasks.scanned 1)
  /\ fst run2 = Ok (Tasks.scanned 1)
  /\ mentionCounts (snd run1) = [Some 1]
  /\ mentionCounts (snd run2) = [Some 1].
Proof. vm_compute. repeat split; reflexivity. Qed.

(** * More of the code: parsing, matching, archive, handlers *)

(** ** [parseGithubUrl] *)

Lemma startsWith_app (p s : jsstring) : startsWith (p ++ s) p = true.
Proof.
  induction p as [|c p IH]; simpl; [destruct s; reflexivity|].
  rewrite N.eqb_refl. exact IH.
Qed.

Lemma stripPrefix_app (p s : jsstring) : stripPrefix p (p ++ s) = Some s.
Proof.
  unfold stripPrefix. rewrite startsWith_app, drop_app_length. reflexivity.
Qed.

Lemma startsWith_split (s p : jsstring) :
  startsWith s p = true -> s = p ++ drop (length p) s.
Proof.
  revert s; induction p as [|c p IH]; intros [|d s]; simpl; try reflexivity;
    try discriminate.
  intros H. apply andb_prop in H as [Hc Hs]. apply N.eqb_eq in Hc. subst d.
  f_equal. apply IH, Hs.
Qed.

Lemma stripPrefix_Some (p s r : jsstring) :
  stripPrefix p s = Some r -> s = p ++ r.
Proof.
  unfold stripPrefix. destruct (startsWith s p) eqn:H; [|discriminate].
  intros [= <-]. apply startsWith_split, H.
Qed.

Lemma span_app (p : N -> bool) (a rest : jsstring) :
  forallb p a = true ->
  match rest with c :: _ => p c = false | [] => True end ->
  span p (a ++ rest) = (a, rest).
Proof.
  intros Ha Hrest. induction a as [|c a IH]; simpl in *.
  - destruct rest as [|c rest]; [reflexivity|]. simpl. rewrite Hrest. reflexivity.
  - apply andb_prop in Ha as [Hc Ha]. rewrite Hc, (IH Ha). reflexivity.
Qed.

Lemma span_spec (p : N -> bool) (s a b : jsstring) :
  span p s = (a, b) ->
  s = a ++ b /\ forallb p a = true
  /\ match b with c :: _ => p c = false | [] => True end.
Proof.
  revert a b; induction s as [|c s IH]; simpl; intros a b.
  - intros [= <- <-]. auto.
  - destruct (p c) eqn:Hc.
    + destruct (span p s) as [a' b'] eqn:Hs. intros [= <- <-].
      destruct (IH _ _ eq_refl) as (-> & Ha & Hb). simpl. rewrite Hc. auto.
    + intros [= <- <-]. simpl. auto.
Qed.

Definition noSlash (s : jsstring) : bool :=
  forallb (fun c => negb (Tasks.isSlash c)) s.

Lemma segment_app (a rest : jsstring) :
  a <> [] -> noSlash a = true ->
  Tasks.segment (a ++ 47%N :: rest) = Some (a, rest).
Proof.
  intros Hne Ha. unfold Tasks.segment.
  rewrite (span_app _ a (47%N :: rest) Ha) by reflexivity.
  destruct a; [contradiction|reflexivity].
Qed.

Lemma segment_Some (s a rest : jsstring) :
  Tasks.segment s = Some (a, rest) ->
  s = a ++ 47%N :: rest /\ a <> [] /\ noSlash a = true.
Proof.
  unfold Tasks.segment.
  destruct (span _ s) as [a' b'] eqn:Hs.
  destruct (span_spec _ _ _ _ Hs) as (-> & Ha & Hb).
  destruct a' as [|c a']; [discriminate|]. destruct b' as [|d b']; [discriminate|].
  intros [= <- <-]. split; [|split; [discriminate|exact Ha]].
  apply negb_false_iff in Hb. unfold Tasks.isSlash in Hb.
  apply N.eqb_eq in Hb. subst d. reflexivity.
Qed.

Lemma search_here {A} (f : jsstring -> option A) s a :
  f s = Some a -> search f s = Some a.
Proof. intros H. destruct s; simpl; rewrite H; reflexivity. Qed.

Lemma search_skip {A} (f : jsstring -> option A) c s :
  f (c :: s) = None -> search f (c :: s) = search f s.
Proof. intros H. simpl. rewrite H. reflexivity. Qed.

Lemma search_Some {A} (f : jsstring -> option A) s a :
  search f s = Some a -> exists pre s', s = pre ++ s' /\ f s' = Some a.
Proof.
  induction s as [|c s IH]; simpl.
  - destruct (f []) eqn:H; [|discriminate]. intros [= <-]. exists [], []. auto.
  - destruct (f (c :: s)) eqn:H.
    + intros [= <-]. exists [], (c :: s). auto.
    + intros Hs. destruct (IH Hs) as (pre & s' & -> & Hf).
      exists (c :: pre), s'. auto.
Qed.

Lemma search_None {A} (f : jsstring -> option A) s :
  (forall pre s', s = pre ++ s' -> f s' = None) -> search f s = None.
Proof.
  induction s as [|c s IH]; intros H; simpl.
  - rewrite (H [] [] eq_refl). reflexivity.
  - rewrite (H [] (c :: s) eq_refl). apply IH. intros pre s' ->.
    apply (H (c :: pre)). reflexivity.
Qed.

Lemma startsWith_first c s :
  c <> 103%N -> startsWith (c :: s) (str "github.com/") = false.
Proof.
  intros H. change (str "github.com/") with (103%N :: str "ithub.com/").
  cbn [startsWith]. apply andb_false_iff. left. apply N.eqb_neq. congruence.
Qed.

(** Neither pattern matches where the text does not start with [g]. *)
Lemma matchIssueOrPull_first c s :
  c <> 103%N -> Tasks.matchIssueOrPull (c :: s) = None.
Proof.
  intros H. unfold Tasks.matchIssueOrPull, stripPrefix.
  rewrite (startsWith_first _ _ H). reflexivity.
Qed.

Lemma matchRepo_first c s :
  c <> 103%N -> Tasks.matchRepo (c :: s) = None.
Proof.
  intros H. unfold Tasks.matchRepo, stripPrefix.
  rewrite (startsWith_first _ _ H). reflexivity.
Qed.

Definition githubPrefix : jsstring := str "https://github.com/".

Lemma search_githubPrefix {A} (f : jsstring -> option A) s :
  (forall c t, c <> 103%N -> f (c :: t) = None) ->
  search f (githubPrefix ++ s) = search f (str "github.com/" ++ s).
Proof.
  intros Hf. unfold githubPrefix.
  change (str "https://github.com/") with (str "https://" ++ str "github.com/").
  rewrite <- app_assoc.
  change (str "https://") with [104; 116; 116; 112; 115; 58; 47; 47]%N.
  cbn [app].
  rewrite !search_skip by (apply Hf; discriminate). reflexivity.
Qed.






Lemma parseInt_nonneg (digits : jsstring) :
  forallb isDigit digits = true -> 0 <= parseInt digits.
Proof.
  unfold parseInt.
  assert (H : forall acc, 0 <= acc -> forallb isDigit digits = true ->
                          0 <= fold_left (fun a c => 10 * a + (Z.of_N c - 48)) digits acc).
  { induction digits as [|c d IH]; simpl; intros a Ha Hd; [exact Ha|].
    apply andb_prop in Hd as [Hc Hd]. apply IH; [|exact Hd].
    unfold isDigit in Hc. apply andb_prop in Hc as [Hlo _].
    apply N.leb_le in Hlo. lia. }
  intros Hd. apply H; [|exact Hd]. lia.
Qed.

(** The number of slashes of a text. *)
Definition slashes (s : jsstring) : nat := length (List.filter Tasks.isSlash s).

Lemma slashes_app (a b : jsstring) : slashes (a ++ b) = (slashes a + slashes b)%nat.
Proof. unfold slashes. rewrite List.filter_app, length_app. reflexivity. Qed.

Lemma slashes_noSlash (a : jsstring) : noSlash a = true -> slashes a = 0%nat.
Proof.
  unfold slashes, noSlash. induction a as [|c a IH]; simpl; [reflexivity|].
  intros H. apply andb_prop in H as [Hc Ha]. apply negb_true_iff in Hc.
  rewrite Hc. exact (IH Ha).
Qed.

Lemma matchIssueOrPull_Some s p :
  Tasks.matchIssueOrPull s = Some p ->
  exists post,
    s = str "github.com/" ++ Tasks.owner p ++ 47%N :: Tasks.repo p ++ 47%N :: post
    /\ Tasks.owner p <> [] /\ noSlash (Tasks.owner p) = true
    /\ Tasks.repo p <> [] /\ noSlash (Tasks.repo p) = true
    /\ Tasks.utype p <> Tasks.url_repo
    /\ (exists n, Tasks.number p = Some n /\ 0 <= n)
    /\ (1 <= slashes post)%nat.
Proof.
  unfold Tasks.matchIssueOrPull.
  destruct (stripPrefix _ s) as [s1|] eqn:H1; [|discriminate].
  destruct (Tasks.segment s1) as [[o s2]|] eqn:H2; [|discriminate].
  destruct (Tasks.segment s2) as [[r s3]|] eqn:H3; [|discriminate].
  apply stripPrefix_Some in H1. apply segment_Some in H2 as (-> & Ho & Hos).
  apply segment_Some in H3 as (-> & Hr & Hrs). subst s.
  set (kind := match stripPrefix (str "issues/") s3 with
               | Some s4 => Some (Tasks.url_issue, s4)
               | None => match stripPrefix (str "pull/") s3 with
                         | Some s4 => Some (Tasks.url_pr, s4)
                         | None => None
                         end
               end).
  assert (Hkind : forall t s4, kind = Some (t, s4) ->
                               t <> Tasks.url_repo /\ (1 <= slashes s3)%nat).
  { subst kind. intros t s4.
    destruct (stripPrefix (str "issues/") s3) as [s5|] eqn:Hi.
    - intros [= <- _]. split; [discriminate|].
      apply stripPrefix_Some in Hi as ->. rewrite slashes_app.
      change (slashes (str "issues/")) with 1%nat. lia.
    - destruct (stripPrefix (str "pull/") s3) as [s5|] eqn:Hp; [|discriminate].
      intros [= <- _]. split; [discriminate|].
      apply stripPrefix_Some in Hp as ->. rewrite slashes_app.
      change (slashes (str "pull/")) with 1%nat. lia. }
  destruct kind as [[t s4]|]; [|discriminate].
  destruct (span isDigit s4) as [digits rest] eqn:Hd.
  destruct (span_spec _ _ _ _ Hd) as (_ & Hds & _).
  destruct digits as [|d ds]; [discriminate|].
  intros [= <-]. cbn [Tasks.owner Tasks.repo Tasks.utype Tasks.number].
  destruct (Hkind _ _ eq_refl) as [Ht Hsl].
  exists s3. repeat split; try assumption.
  eexists. split; [reflexivity|]. apply parseInt_nonneg, Hds.
Qed.

Definition repoChar (c : N) : bool :=
  negb (Tasks.isSlash c || (c =? 63) || (c =? 35))%N.

Lemma repoChar_noSlash (r : jsstring) : forallb repoChar r = true -> noSlash r = true.
Proof.
  unfold noSlash. induction r as [|c r IH]; simpl; [reflexivity|].
  intros H. apply andb_prop in H as [Hc Hr]. rewrite (IH Hr), andb_true_r.
  unfold repoChar in Hc. destruct (Tasks.isSlash c); [discriminate|reflexivity].
Qed.

Lemma matchRepo_Some s p :
  Tasks.matchRepo s = Some p ->
  exists post,
    s = str "github.com/" ++ Tasks.owner p ++ 47%N :: Tasks.repo p ++ post
    /\ Tasks.owner p <> [] /\ noSlash (Tasks.owner p) = true
    /\ Tasks.repo p <> [] /\ forallb repoChar (Tasks.repo p) = true
    /\ Tasks.utype p = Tasks.url_repo /\ Tasks.number p = None.
Proof.
  unfold Tasks.matchRepo.
  destruct (stripPrefix _ s) as [s1|] eqn:H1; [|discriminate].
  destruct (Tasks.segment s1) as [[o s2]|] eqn:H2; [|discriminate].
  apply stripPrefix_Some in H1. apply segment_Some in H2 as (-> & Ho & Hos). subst s.
  destruct (span _ s2) as [r rest] eqn:Hr.
  destruct (span_spec _ _ _ _ Hr) as (-> & Hrs & _).
  destruct r as [|c r]; [discriminate|].
  intros [= <-]. cbn [Tasks.owner Tasks.repo Tasks.utype Tasks.number].
  exists rest. repeat split; try assumption. discriminate.
Qed.

(** Whatever [parseGithubUrl] returns names a non-empty owner and a
    non-empty repository, neither with a slash, that stand in the address
    after [github.com/]; a repository has no number, an issue or a pull
    request has a number that is not negative. *)
Theorem parseGithubUrl_wellformed (url : option jsstring) (p : Tasks.ParsedUrl) :
  Tasks.parseGithubUrl url = Some p ->
  Tasks.owner p <> [] /\ noSlash (Tasks.owner p) = true
  /\ Tasks.repo p <> [] /\ noSlash (Tasks.repo p) = true
  /\ (Tasks.utype p = Tasks.url_repo /\ Tasks.number p = None
      \/ Tasks.utype p <> Tasks.url_repo
         /\ exists n, Tasks.number p = Some n /\ 0 <= n)
  /\ exists pre post,
       url = Some (pre ++ str "github.com/" ++ Tasks.owner p ++ 47%N :: Tasks.repo p ++ post).
Proof.
  unfold Tasks.parseGithubUrl. destruct url as [[|c u]|]; try discriminate.
  destruct (search Tasks.matchIssueOrPull (c :: u)) as [m|] eqn:Hm.
  - intros [= <-]. apply search_Some in Hm as (pre & s' & Hu & Hm).
    apply matchIssueOrPull_Some in Hm as (post & -> & Ho & Hos & Hr & Hrs & Ht & Hn & _).
    repeat split; try assumption; [right; auto|].
    exists pre, (47%N :: post). rewrite Hu. reflexivity.
  - intros Hr. apply search_Some in Hr as (pre & s' & Hu & Hr).
    apply matchRepo_Some in Hr as (post & -> & Ho & Hos & Hr & Hrs & Ht & Hn).
    repeat split; try assumption; [apply repoChar_noSlash, Hrs|left; auto|].
    exists pre, post. rewrite Hu. reflexivity.
Qed.

Lemma parseGithubUrl_wellformed_witness :
  let p := {| Tasks.owner := str "aibtcdev"; Tasks.repo := str "skills";
              Tasks.utype := Tasks.url_pr; Tasks.number := Some 7 |} in
  Tasks.owner p <> [] /\ noSlash (Tasks.owner p) = true
  /\ Tasks.repo p <> [] /\ noSlash (Tasks.repo p) = true
  /\ (Tasks.utype p = Tasks.url_repo /\ Tasks.number p = None
      \/ Tasks.utype p <> Tasks.url_repo
         /\ exists n, Tasks.number p = Some n /\ 0 <= n)
  /\ exists pre post,
       Some (str "see github.com/aibtcdev/skills/pull/7")
       = Some (pre ++ str "github.com/" ++ Tasks.owner p ++ 47%N :: Tasks.repo p ++ post).
Proof.
  exact (parseGithubUrl_wellformed (Some (str "see github.com/aibtcdev/skills/pull/7"))
           _ eq_refl).
Defined.

Lemma matchIssueOrPull_slashes s p :
  Tasks.matchIssueOrPull s = Some p -> (4 <= slashes s)%nat.
Proof.
  intros H.
  apply matchIssueOrPull_Some in H as (post & -> & _ & _ & _ & _ & _ & _ & Hpost).
  rewrite !slashes_app. change (slashes (str "github.com/")) with 1%nat.
  change (47%N :: Tasks.repo p ++ 47%N :: post)
    with ([47%N] ++ Tasks.repo p ++ [47%N] ++ post).
  rewrite !slashes_app. change (slashes [47%N]) with 1%nat. lia.
Qed.

(** The address of a repository, alone or followed by a slash, a query or a
    fragment with at most one slash, parses to its owner and its name. *)
Theorem parseGithubUrl_repo (o r rest : jsstring) :
  o <> [] -> noSlash o = true ->
  r <> [] -> forallb repoChar r = true ->
  match rest with c :: _ => repoChar c = false | [] => True end ->
  (slashes rest <= 1)%nat ->
  Tasks.parseGithubUrl (Some (githubPrefix ++ o ++ 47%N :: r ++ rest))
  = Some {| Tasks.owner := o; Tasks.repo := r; Tasks.utype := Tasks.url_repo;
            Tasks.number := None |}.
Proof.
  intros Ho Hos Hr Hrs Hrest Hsl. unfold Tasks.parseGithubUrl.
  replace (githubPrefix ++ _) with
    (104%N :: drop 1 githubPrefix ++ o ++ 47%N :: r ++ rest) by reflexivity.
  change (104%N :: drop 1 githubPrefix ++ ?s) with (githubPrefix ++ s).
  rewrite (search_githubPrefix Tasks.matchIssueOrPull) by apply matchIssueOrPull_first.
  rewrite (search_githubPrefix Tasks.matchRepo) by apply matchRepo_first.
  rewrite search_None.
  - erewrite search_here; [reflexivity|]. unfold Tasks.matchRepo.
    rewrite stripPrefix_app, (segment_app o _ Ho Hos).
    fold repoChar. rewrite (span_app repoChar r rest Hrs Hrest).
    destruct r; [contradiction|reflexivity].
  - intros pre s' Hs.
    destruct (Tasks.matchIssueOrPull s') as [p|] eqn:Hp; [|reflexivity].
    apply matchIssueOrPull_slashes in Hp.
    apply (f_equal slashes) in Hs. rewrite !slashes_app in Hs.
    change (47%N :: r ++ rest) with ([47%N] ++ r ++ rest) in Hs.
    rewrite !slashes_app in Hs.
    rewrite (slashes_noSlash o Hos), (slashes_noSlash r (repoChar_noSlash r Hrs)) in Hs.
    change (slashes (str "github.com/")) with 1%nat in Hs.
    change (slashes [47%N]) with 1%nat in Hs. lia.
Qed.

Lemma parseGithubUrl_repo_witness :
  Tasks.parseGithubUrl (Some (str "https://github.com/aibtcdev/skills/"))
  = Some {| Tasks.owner := str "aibtcdev"; Tasks.repo := str "skills";
            Tasks.utype := Tasks.url_repo; Tasks.number := None |}.
Proof.
  apply (parseGithubUrl_repo (str "aibtcdev") (str "skills") (str "/"));
    first [discriminate | reflexivity | vm_compute; lia].
Defined.

(** ** [addContributor] *)

Definition addresses (item : Item) : list jsstring :=
  map btcAddress (contributors item).

Lemma existsb_address (addr : jsstring) (l : list Agent) :
  existsb (fun c => jseqb (btcAddress c) addr) l = true <-> addr ∈ map btcAddress l.
Proof.
  induction l as [|c l IH]; simpl.
  - split; [discriminate|]. intros H. inversion H.
  - rewrite orb_true_iff, jseqb_eq, IH, elem_of_cons. split; intros [H|H]; auto.
Qed.

Lemma addContributor_cases (item : Item) (agent : option Agent) :
  Tasks.addContributor item agent = item
  /\ (forall a, agent = Some a -> btcAddress a <> [] -> btcAddress a ∈ addresses item)
  \/ exists a,
       agent = Some a /\ btcAddress a <> [] /\ (btcAddress a ∉ addresses item)
       /\ Tasks.addContributor item agent
          = set_contributors
              (contributors item ++
               [{| btcAddress := btcAddress a; displayName := displayName a;
                   agentId := agentId a; profileUrl := None; claimedAt := None |}])
              item.
Proof.
  destruct agent as [a|]; [|left; split; [reflexivity|discriminate]].
  unfold Tasks.addContributor.
  destruct (btcAddress a) as [|c addr] eqn:Ha.
  - left. split; [reflexivity|]. intros a' [= <-]. congruence.
  - destruct (existsb _ (contributors item)) eqn:He.
    + left. split; [reflexivity|]. intros a' [= <-] _. rewrite Ha.
      apply existsb_address, He.
    + right. exists a. rewrite Ha. repeat split; try discriminate.
      intros Hin. apply existsb_address in Hin. congruence.
Qed.

(** [addContributor] changes nothing but the list of contributors, to which
    it appends at most one entry; afterwards an agent with an address is
    listed, and adding the same agent again changes nothing. *)
Theorem addContributor_once (item : Item) (agent : option Agent) :
  let item' := Tasks.addContributor item agent in
  (exists extra,
     item' = set_contributors (contributors item ++ extra) item
     /\ (length extra <= 1)%nat)
  /\ (forall a, agent = Some a -> btcAddress a <> [] -> btcAddress a ∈ addresses item')
  /\ Tasks.addContributor item' agent = item'.
Proof.
  intros item'. subst item'.
  destruct (addContributor_cases item agent) as [[Hsame Hin]|(a & -> & Ha & Hnin & Hadd)].
  - rewrite Hsame. split; [|split; [exact Hin|exact Hsame]].
    exists []. rewrite app_nil_r. split; [destruct item; reflexivity|simpl; lia].
  - rewrite Hadd. split; [eexists; split; [reflexivity|simpl; lia]|].
    assert (Hlisted : btcAddress a ∈ addresses
              (set_contributors
                 (contributors item ++
                  [{| btcAddress := btcAddress a; displayName := displayName a;
                      agentId := agentId a; profileUrl := None; claimedAt := None |}])
                 item)).
    { unfold addresses. cbn [contributors set_contributors].
      rewrite map_app, elem_of_app. right. simpl. apply list_elem_of_singleton.
      reflexivity. }
    split; [intros a' [= <-] _; exact Hlisted|].
    destruct (addContributor_cases
                (set_contributors
                   (contributors item ++
                    [{| btcAddress := btcAddress a; displayName := displayName a;
                        agentId := agentId a; profileUrl := None; claimedAt := None |}])
                   item) (Some a)) as [[Hsame _]|(a' & [= <-] & _ & Hnin' & _)].
    + exact Hsame.
    + contradiction.
Qed.

(** Contributors with pairwise different addresses stay so. *)
Theorem addContributor_distinct (item : Item) (agent : option Agent) :
  NoDup (addresses item) ->
  NoDup (addresses (Tasks.addContributor item agent)).
Proof.
  intros Hnd.
  destruct (addContributor_cases item agent) as [[-> _]|(a & -> & Ha & Hnin & ->)];
    [exact Hnd|].
  unfold addresses in *. cbn [contributors set_contributors].
  rewrite map_app. apply NoDup_app. split; [exact Hnd|]. split.
  - intros x Hx Hx'. simpl in Hx'. apply list_elem_of_singleton in Hx'. subst x.
    contradiction.
  - simpl. apply NoDup_singleton.
Qed.

Definition carol : Agent :=
  {| btcAddress := str "bc1qcarol"; displayName := str "Carol"; agentId := None;
     profileUrl := None; claimedAt := None |}.

Lemma addContributor_distinct_witness :
  NoDup (addresses (Tasks.addContributor
                      (Tasks.addContributor skillsItem (Some carol)) (Some carol))).
Proof.
  apply addContributor_distinct, addContributor_distinct. apply NoDup_nil_2.
Defined.

(** ** The rate action and the answers of [onRequestPut] *)

Definition validScore (r : Rating) : Prop := 1 <= r_score r <= 5.

Lemma scoreSum_bounds (l : list Rating) :
  Forall validScore l ->
  Z.of_nat (length l) <= scoreSum l <= 5 * Z.of_nat (length l).
Proof.
  unfold scoreSum.
  assert (H : forall acc, Forall validScore l ->
            acc + Z.of_nat (length l)
            <= fold_left (fun s r => s + r_score r) l acc
            <= acc + 5 * Z.of_nat (length l)).
  { induction l as [|r l IH]; intros acc Hl; simpl length; cbn [fold_left]; [lia|].
    inversion Hl as [|? ? Hr Hl']; subst. specialize (IH (acc + r_score r) Hl').
    unfold validScore in Hr. lia. }
  intros Hl. specialize (H 0 Hl). lia.
Qed.

Lemma computeReputation_range (l : list Rating) :
  Forall validScore l -> l <> [] ->
  10 <= average10 (Items.computeReputation l) <= 50.
Proof.
  intros Hl Hne.
  destruct (computeReputation_mean l) as (_ & Hmean & _).
  specialize (Hmean Hne). cbn zeta in Hmean.
  pose proof (scoreSum_bounds l Hl) as Hsum.
  assert (0 < Z.of_nat (length l)) by (destruct l; [contradiction|simpl; lia]).
  nia.
Qed.

(** An accepted rating keeps every stored score between 1 and 5, and the
    reputation it recomputes counts the ratings and has an average between
    1.0 and 5.0. *)
Theorem rate_keeps_scores_valid (now : Z) (agent : Agent) (score : Z)
    (review : option jsstring) (item item' : Item) :
  Forall validScore (ratings item) ->
  Items.rateItem now agent (Some score) review item = inr item' ->
  Forall validScore (ratings item')
  /\ exists rep,
       reputation item' = Some rep
       /\ count rep = length (ratings item')
       /\ (1 <= count rep)%nat
       /\ 10 <= average10 rep <= 50.
Proof.
  intros Hvalid Hrate.
  destruct (rateItem_ratings _ _ _ _ _ _ Hrate)
    as (Hscore & Hrep & rating & _ & Hrs & Hcases).
  assert (Hnew : validScore rating) by (unfold validScore; lia).
  assert (Hvalid' : Forall validScore (ratings item')).
  { destruct Hcases as [(i & old & _ & _ & _ & ->)|(_ & ->)].
    - apply Forall_insert; assumption.
    - apply Forall_app. split; [assumption|]. apply Forall_singleton. exact Hnew. }
  assert (Hne : ratings item' <> []).
  { destruct Hcases as [(i & old & Hi & _ & _ & ->)|(_ & ->)].
    - intros Hnil. apply (f_equal length) in Hnil. rewrite length_insert in Hnil.
      apply lookup_lt_Some in Hi. simpl in Hnil. lia.
    - intros Hnil. apply app_eq_nil in Hnil as [_ Hnil]. discriminate. }
  split; [exact Hvalid'|].
  exists (Items.computeReputation (ratings item')). split; [exact Hrep|].
  destruct (computeReputation_mean (ratings item')) as (Hcount & _ & _).
  split; [exact Hcount|]. split.
  - rewrite Hcount. destruct (ratings item'); [contradiction|simpl; lia].
  - apply computeReputation_range; assumption.
Qed.

Lemma rate_keeps_scores_valid_witness :
  exists item',
    Items.rateItem 1000 carol (Some 4) None skillsItem = inr item'
    /\ Forall validScore (ratings item')
    /\ exists rep,
         reputation item' = Some rep
         /\ count rep = length (ratings item')
         /\ (1 <= count rep)%nat
         /\ 10 <= average10 rep <= 50.
Proof.
  eexists. split; [reflexivity|].
  eapply (rate_keeps_scores_valid 1000 carol 4 None skillsItem);
    [apply Forall_nil_2|reflexivity].
Defined.










(** ** [getData] and [saveData] *)

(** The fields of an item that no migration touches. *)
Definition core (item : Item) :=
  (id item, title item, githubUrl item, githubData item, founder item,
   claimedBy item, contributors item, deliverables item, ratings item,
   searchTerms item, createdAt item, updatedAt item).

Lemma migrate_v5_core item : core (Tasks.migrate_v5 item) = core item.
Proof.
  unfold Tasks.migrate_v5.
  destruct (reputation item); cbn; destruct (mentions item); reflexivity.
Qed.

Lemma migrate_v6_core now item : core (Tasks.migrate_v6 now item) = core item.
Proof.
  unfold Tasks.migrate_v6. destruct (leader item); [reflexivity|].
  destruct (Tasks.first_some _ _); reflexivity.
Qed.

Lemma migrate_v8_core now item : core (Tasks.migrate_v8 now item) = core item.
Proof.
  unfold Tasks.migrate_v8. destruct (website item); try reflexivity.
  destruct (Tasks.homepageOf item); reflexivity.
Qed.

Lemma migrate_v10_core item : core (Tasks.migrate_v10 item) = core item.
Proof.
  unfold Tasks.migrate_v10. destruct (website item) as [| |w]; try reflexivity.
  destruct (Tasks.isHomepageSource _); reflexivity.
Qed.

Lemma migrate_step_core below f data :
  (forall item, core (f item) = core item) ->
  map core (items (Tasks.migrate_step below f data)) = map core (items data).
Proof.
  intros Hf. unfold Tasks.migrate_step. destruct (_ <? _); [|reflexivity].
  cbn [items set_version set_items]. rewrite map_map. apply map_ext, Hf.
Qed.

Lemma migrate_step_version below f data :
  version (Tasks.migrate_step below f data) = Z.max below (version data).
Proof.
  unfold Tasks.migrate_step. destruct (Z.ltb_spec (version data) below);
    cbn [version set_version set_items]; lia.
Qed.

(** Only homepage claims pass the last migration. *)
Definition homepageOnly (item : Item) : Prop :=
  match website item with
  | Val w => w_source w = src_homepage
  | _ => True
  end.

Lemma migrate_v10_homepageOnly item : homepageOnly (Tasks.migrate_v10 item).
Proof.
  unfold Tasks.migrate_v10, homepageOnly.
  destruct (website item) as [| |w] eqn:Hw; try (rewrite Hw; exact I).
  destruct (w_source w) eqn:Hs; cbn; rewrite ?Hw; auto.
Qed.

(** [getData] reads and never writes.  What it returns is at schema
    version 10 or the stored one if that is later, carries the stored
    write-version (0 if there is none), and holds the stored items in their
    order with their identity, their links, their people and their ratings
    untouched.  A registry stored below version 10 comes back with none but
    homepage websites, and loading what a load returned gives the same. *)
Theorem getData_migrates (now : Z) (w : World) :
  let stored :=
    default {| version := 1; writeVersion := None; items := [];
               reg_updatedAt := None |} (kv_items (kv w)) in
  exists data,
    Tasks.getData now w = (Ok data, w)
    /\ version data = Z.max 10 (version stored)
    /\ writeVersion data = Some (default 0 (writeVersion stored))
    /\ map core (items data) = map core (items stored)
    /\ (version stored < 10 -> Forall homepageOnly (items data))
    /\ forall now', loaded now' (put_items data (kv w)) = data.
Proof.
  intros stored. exists (loaded now (kv w)).
  split; [apply getData_loaded|].
  unfold loaded. fold stored.
  set (d0 := set_writeVersion _ stored).
  set (d1 := Tasks.migrate_step 5 _ d0).
  set (d2 := Tasks.migrate_step 6 _ d1).
  set (d3 := Tasks.migrate_step 7 _ d2).
  set (d4 := Tasks.migrate_step 8 _ d3).
  set (d5 := Tasks.migrate_step 10 _ d4).
  assert (Hver : version d5 = Z.max 10 (version stored)).
  { subst d5 d4 d3 d2 d1 d0. rewrite !migrate_step_version.
    cbn [version set_writeVersion]. lia. }
  assert (Hwv : writeVersion d5 = Some (default 0 (writeVersion stored))).
  { subst d5 d4 d3 d2 d1 d0. rewrite !migrate_step_writeVersion. reflexivity. }
  split; [exact Hver|]. split; [exact Hwv|]. split; [|split].
  - subst d5 d4 d3 d2 d1 d0.
    rewrite (migrate_step_core 10) by apply migrate_v10_core.
    rewrite (migrate_step_core 8) by apply migrate_v8_core.
    rewrite (migrate_step_core 7) by reflexivity.
    rewrite (migrate_step_core 6) by apply migrate_v6_core.
    rewrite (migrate_step_core 5) by apply migrate_v5_core.
    reflexivity.
  - intros Hold.
    assert (H4 : version d4 < 10).
    { subst d4 d3 d2 d1 d0. rewrite !migrate_step_version.
      cbn [version set_writeVersion]. lia. }
    subst d5. unfold Tasks.migrate_step at 1.
    apply Z.ltb_lt in H4. rewrite H4. cbn [items set_version set_items].
    apply Forall_forall. intros item Hin.
    apply list_elem_of_fmap in Hin as (item0 & -> & _).
    apply migrate_v10_homepageOnly.
  - intros now'. apply (loaded_current now' _ d5 (default 0 (writeVersion stored)));
      [reflexivity|lia|exact Hwv].
Qed.

(** A save that goes through followed by a load gives back what was saved:
    the registry with its write-version raised by one and the time of the
    save. *)
Theorem save_then_load (now now' : Z) (data : Registry) (k : KV)
    (sl : list Z) (au : list AuditEvent) :
  storedVersion k = default 0 (writeVersion data) ->
  10 <= version data ->
  (Tasks.saveData now data ;; Tasks.getData now') (quiet k sl au)
  = (Ok (saved now data), quiet (put_items (saved now data) k) sl au)
  /\ writeVersion (saved now data) = Some (storedVersion k + 1)
  /\ items (saved now data) = items data.
Proof.
  intros Hv Hver. unfold bind at 1. rewrite saveData_run.
  replace (storedVersion k =? _) with true by (symmetry; apply Z.eqb_eq; exact Hv).
  rewrite getData_loaded. cbn [kv quiet].
  rewrite (loaded_current now' _ (saved now data) (storedVersion k + 1));
    [|reflexivity|exact Hver|cbn; rewrite Hv; reflexivity].
  split; [reflexivity|]. split; [cbn; rewrite Hv; reflexivity|reflexivity].
Qed.

Lemma save_then_load_witness :
  (Tasks.saveData 1000 (set_items [skillsItem] emptyRegistry) ;; Tasks.getData 2000)
    (quiet emptyKV [] [])
  = (Ok (saved 1000 (set_items [skillsItem] emptyRegistry)),
     quiet (put_items (saved 1000 (set_items [skillsItem] emptyRegistry)) emptyKV) [] []).
Proof.
  apply (save_then_load 1000 2000 (set_items [skillsItem] emptyRegistry) emptyKV [] []);
    [reflexivity|vm_compute; discriminate].
Defined.

(** ** [refreshStaleGithubData] *)


Definition fetchedAtOf (item : Item) : Z :=
  match githubData item with
  | Some gd => default 0 (gd_fetchedAt gd)
  | None => 0
  end.

(** An item that the refresh passes over: no link, or fetched less than a
    quarter of an hour ago. *)
Definition isFresh (now : Z) (item : Item) : bool :=
  negb (truthy (githubUrl item)) || (now - fetchedAtOf item <? Tasks.STALE_AFTER_MS).






(** A stale item whose address answers 404 has the failure counted in its
    snapshot, which is marked as fetched now.  Below three failures the
    state stays and nothing else happens; from the third failure on the
    state is archived, so that a repository derives the status done. *)
Theorem refresh_counts_not_found (net : Network) (now : Z) (item : Item) :
  isFresh now item = false ->
  Tasks.fetchGithubData net now (githubUrl item) = Tasks.fetch_notFound ->
  let gd := default emptyGithubData (githubData item) in
  let fails := default 0 (gd_notFoundCount gd) + 1 in
  let r := Tasks.refreshItem net now item in
  Tasks.rf_changed r = true /\ Tasks.rf_refreshed r = false
  /\ exists gd',
       githubData (Tasks.rf_item r) = Some gd'
       /\ gd_notFoundCount gd' = Some fails
       /\ gd_fetchedAt gd' = Some now
       /\ gd_type gd' = gd_type gd
       /\ (fails < 3 ->
           gd_state gd' = gd_state gd /\ Tasks.rf_events r = []
           /\ updatedAt (Tasks.rf_item r) = updatedAt item)
       /\ (3 <= fails ->
           gd_state gd' = Some (str "archived")
           /\ (is_str (gd_type gd) "repo" = true ->
               Tasks.deriveStatus (Tasks.rf_item r) = done)).
Proof.
  intros Hstale Hfetch gd fails r. subst r.
  unfold isFresh in Hstale. apply orb_false_elim in Hstale as [Hurl Hold].
  unfold Tasks.refreshItem. fold (fetchedAtOf item). rewrite Hurl, Hold, Hfetch.
  fold gd. fold fails.
  destruct (Z.leb_spec 3 fails) as [Hthree|Hfew]; cbn [andb].
  - destruct (is_str (gd_state gd) "archived") eqn:Harch; cbn [negb].
    + split; [reflexivity|]. split; [reflexivity|].
      eexists. split; [reflexivity|]. cbn.
      split; [reflexivity|]. split; [reflexivity|]. split; [reflexivity|].
      split; [lia|]. intros _. apply is_str_eq in Harch. split; [exact Harch|].
      intros Hrepo. unfold Tasks.deriveStatus. cbn.
      apply is_str_eq in Hrepo. rewrite Hrepo, Harch. reflexivity.
    + split; [reflexivity|]. split; [reflexivity|].
      eexists. split; [reflexivity|]. cbn.
      split; [reflexivity|]. split; [reflexivity|]. split; [reflexivity|].
      split; [lia|]. intros _. split; [reflexivity|].
      intros Hrepo. unfold Tasks.deriveStatus. cbn.
      apply is_str_eq in Hrepo. rewrite Hrepo. reflexivity.
  - split; [reflexivity|]. split; [reflexivity|].
    eexists. split; [reflexivity|]. cbn.
    split; [reflexivity|]. split; [reflexivity|]. split; [reflexivity|].
    split; [auto|]. lia.
Qed.

Definition goneNetwork : Network :=
  {| github := fun _ => http 404 activeRepo;
     readme := fun _ => readme_status 404;
     activity := feed_events [] |}.

(** A repository that has failed twice already. *)
Definition failingItem : Item :=
  set_githubData
    (Some {| gd_type := Some (str "repo"); gd_number := None; gd_title := None;
             gd_state := Some (str "active"); gd_merged := false;
             gd_assignees := []; gd_labels := []; gd_stars := None;
             gd_homepage := None; gd_ownerLogin := None;
             gd_fetchedAt := Some 0; gd_notFoundCount := Some 2 |})
    staleItem.

Lemma refresh_counts_not_found_witness :
  Tasks.deriveStatus failingItem = in_progress
  /\ Tasks.deriveStatus
       (Tasks.rf_item (Tasks.refreshItem goneNetwork 3600000 failingItem)) = done.
Proof.
  split; [reflexivity|].
  destruct (refresh_counts_not_found goneNetwork 3600000 failingItem
              eq_refl eq_refl) as (_ & _ & gd' & _ & _ & _ & _ & _ & Harch).
  apply Harch; [vm_compute; discriminate|reflexivity].
Defined.


(** ** [getMatchTerms] and [matchMention] *)

Section TermFacts.
Context {P : Platform}.

Lemma dedupe_spec (seen : list jsstring) (terms : list Tasks.Term) :
  NoDup (map Tasks.text (Tasks.dedupe seen terms))
  /\ forall t, t ∈ Tasks.dedupe seen terms -> t ∈ terms /\ Tasks.text t ∉ seen.
Proof.
  revert seen; induction terms as [|t terms IH]; intros seen; simpl.
  - split; [apply NoDup_nil_2|]. intros t H. inversion H.
  - destruct (mem (Tasks.text t) seen) eqn:Hmem.
    + destruct (IH seen) as [Hnd Hin]. split; [exact Hnd|].
      intros t' Ht'. destruct (Hin t' Ht'). split; [apply elem_of_cons; auto|auto].
    + destruct (IH (Tasks.text t :: seen)) as [Hnd Hin]. split.
      * simpl. apply NoDup_cons. split; [|exact Hnd].
        intros Hdup. apply list_elem_of_fmap in Hdup as (t' & Heq & Ht').
        destruct (Hin t' Ht') as [_ Hnot]. apply Hnot. rewrite Heq.
        apply list_elem_of_here.
      * intros t' Ht'. apply elem_of_cons in Ht' as [->|Ht'].
        -- split; [apply list_elem_of_here|]. apply mem_false, Hmem.
        -- destruct (Hin t' Ht') as [Hin' Hnot]. split; [apply elem_of_cons; auto|].
           intros Hs. apply Hnot. apply elem_of_cons. auto.
Qed.

Definition nonEmptyText (t : Tasks.Term) : Prop := Tasks.text t <> [].

Lemma longer_nonempty (n : nat) (s : jsstring) : (n <? length s)%nat = true -> s <> [].
Proof. intros H ->. simpl in H. apply Nat.ltb_lt in H. lia. Qed.

Lemma titleTerm_nonempty item : Forall nonEmptyText (Tasks.titleTerm item).
Proof.
  unfold Tasks.titleTerm. destruct (Tasks.titleLower item); [apply Forall_nil_2|].
  apply Forall_singleton. discriminate.
Qed.

Lemma titleParts_nonempty item : Forall (fun p => p <> []) (Tasks.titleParts item).
Proof.
  unfold Tasks.titleParts. apply Forall_forall. intros p Hp.
  apply list_elem_of_In, filter_In in Hp as [_ Hp]. exact (longer_nonempty _ _ Hp).
Qed.

Lemma partTerms_nonempty item : Forall nonEmptyText (Tasks.partTerms item).
Proof.
  unfold Tasks.partTerms. apply Forall_forall. intros t Ht.
  apply list_elem_of_fmap in Ht as (p & -> & Hp).
  apply list_elem_of_In, filter_In in Hp as [Hp _]. apply list_elem_of_In in Hp.
  pose proof (titleParts_nonempty item) as H. rewrite Forall_forall in H.
  exact (H p Hp).
Qed.

Lemma slugTerms_nonempty item : Forall nonEmptyText (Tasks.slugTerms item).
Proof.
  unfold Tasks.slugTerms. apply Forall_forall. intros t Ht.
  apply list_elem_of_In, in_flat_map in Ht as (part & _ & Ht).
  destruct (_ <? _)%nat eqn:Hlen; cbn [andb] in Ht; [|destruct Ht].
  destruct (negb _); [|destruct Ht]. destruct Ht as [<-|[]].
  exact (longer_nonempty _ _ Hlen).
Qed.

Lemma repoNameTerms_nonempty path : Forall nonEmptyText (Tasks.repoNameTerms path).
Proof.
  unfold Tasks.repoNameTerms. destruct (Tasks.repoName path) as [|c name];
    [apply Forall_nil_2|].
  destruct (_ <=? _)%nat; [|apply Forall_nil_2].
  apply Forall_cons. split; [discriminate|].
  destruct (negb _); [|apply Forall_nil_2]. apply Forall_singleton. discriminate.
Qed.

Lemma githubTerms_nonempty item : Forall nonEmptyText (Tasks.githubTerms item).
Proof.
  unfold Tasks.githubTerms, Tasks.ghPath.
  destruct (truthy (githubUrl item)) eqn:Hurl; [|apply Forall_nil_2].
  destruct (toLowerCase (Tasks.stripTrailingSlash _)) as [|c path]; [apply Forall_nil_2|].
  apply Forall_app. split; [|apply repoNameTerms_nonempty].
  unfold Tasks.urlTerms. apply Forall_cons. split; [|apply Forall_singleton; discriminate].
  unfold nonEmptyText. cbn [Tasks.text]. intros Hnil.
  apply toLowerCase_nonempty in Hnil.
  destruct (githubUrl item) as [[|d u]|]; discriminate.
Qed.

Lemma siteTerms_nonempty item : Forall nonEmptyText (Tasks.siteTerms item).
Proof.
  unfold Tasks.siteTerms. destruct (Tasks.homepageOf item); [|apply Forall_nil_2].
  destruct (parseUrl _); [|apply Forall_nil_2].
  destruct (negb _); [|apply Forall_nil_2]. cbn [andb].
  destruct (_ <? _)%nat eqn:Hlen; [|apply Forall_nil_2].
  apply Forall_singleton. exact (longer_nonempty _ _ Hlen).
Qed.

Lemma aliasTerms_nonempty item : Forall nonEmptyText (Tasks.aliasTerms item).
Proof.
  unfold Tasks.aliasTerms. apply Forall_forall. intros t Ht.
  apply list_elem_of_fmap in Ht as (p & -> & Hp).
  apply list_elem_of_In, filter_In in Hp as [_ Hp]. exact (longer_nonempty _ _ Hp).
Qed.

Lemma includes_nil (t : jsstring) : t <> [] -> includes [] t = false.
Proof. destruct t; [contradiction|reflexivity]. Qed.

(** No two match terms of an item have the same text and none is empty;
    so an empty preview mentions no item. *)
Theorem getMatchTerms_distinct_nonempty (item : Item) :
  NoDup (map Tasks.text (Tasks.getMatchTerms item))
  /\ Forall nonEmptyText (Tasks.getMatchTerms item)
  /\ Tasks.matchMention [] item = None.
Proof.
  unfold Tasks.getMatchTerms.
  set (terms := Tasks.titleTerm item ++ _).
  destruct (dedupe_spec [] terms) as [Hnd Hin].
  assert (Hall : Forall nonEmptyText terms).
  { subst terms.
    apply Forall_app; split; [apply titleTerm_nonempty|].
    apply Forall_app; split; [apply partTerms_nonempty|].
    apply Forall_app; split; [apply slugTerms_nonempty|].
    apply Forall_app; split; [apply githubTerms_nonempty|].
    apply Forall_app; split; [apply siteTerms_nonempty|apply aliasTerms_nonempty]. }
  assert (Hded : Forall nonEmptyText (Tasks.dedupe [] terms)).
  { apply Forall_forall. intros t Ht. rewrite Forall_forall in Hall.
    apply Hall, Hin, Ht. }
  split; [exact Hnd|]. split; [exact Hded|].
  unfold Tasks.matchMention, Tasks.getMatchTerms. fold terms.
  destruct (List.find _ _) as [t|] eqn:Hfind; [|reflexivity].
  apply find_some in Hfind as [Ht Hinc]. apply list_elem_of_In in Ht.
  rewrite Forall_forall in Hded. rewrite (includes_nil _ (Hded t Ht)) in Hinc.
  discriminate.
Qed.

End TermFacts.

(** ** The address extractors *)

Lemma byScoreDesc_total (x y : Tasks.Scored) :
  inOrder Tasks.byScoreDesc x y \/ inOrder Tasks.byScoreDesc y x.
Proof. unfold inOrder, Tasks.byScoreDesc. lia. Qed.

Lemma byScoreDesc_trans (x y z : Tasks.Scored) :
  inOrder Tasks.byScoreDesc x y -> inOrder Tasks.byScoreDesc y z ->
  inOrder Tasks.byScoreDesc x z.
Proof. unfold inOrder, Tasks.byScoreDesc. lia. Qed.

(** The first element after the sort by falling score is one of the highest
    score. *)
Lemma best_head (l : list Tasks.Scored) :
  match head (jsSort Tasks.byScoreDesc l) with
  | Some b => b ∈ l /\ forall x, x ∈ l -> Tasks.sc_score x <= Tasks.sc_score b
  | None => l = []
  end.
Proof.
  pose proof (jsSort_perm Tasks.byScoreDesc l) as Hperm.
  pose proof (jsSort_sorted Tasks.byScoreDesc byScoreDesc_total byScoreDesc_trans l)
    as Hsorted.
  destruct (jsSort Tasks.byScoreDesc l) as [|b rest]; simpl.
  - apply Permutation_nil_l in Hperm. congruence.
  - apply StronglySorted_cons in Hsorted as [Hb _]. split.
    + rewrite <- Hperm. apply list_elem_of_here.
    + intros x Hx. rewrite <- Hperm in Hx. apply elem_of_cons in Hx as [->|Hx]; [lia|].
      rewrite Forall_forall in Hb. specialize (Hb x Hx).
      unfold inOrder, Tasks.byScoreDesc in Hb. lia.
Qed.

Section ExtractFacts.
Context {P : Platform}.

Lemma scoredUrls_spec (urls : list jsstring) (skip : gset jsstring) (s : Tasks.Scored) :
  s ∈ Tasks.scoredUrls urls skip <->
  Tasks.sc_url s ∈ urls /\ Tasks.sc_score s = Tasks.isDeploymentUrl (Tasks.sc_url s)
  /\ 0 < Tasks.sc_score s /\ (Tasks.sc_url s ∉ skip).
Proof.
  unfold Tasks.scoredUrls. rewrite list_elem_of_In, filter_In, <- list_elem_of_In.
  rewrite list_elem_of_fmap, andb_true_iff, Z.ltb_lt, negb_true_iff, bool_decide_eq_false.
  split.
  - intros [(u & -> & Hu) [Hpos Hskip]]. cbn in *. auto.
  - intros (Hu & Hs & Hpos & Hskip). split; [|auto].
    exists (Tasks.sc_url s). split; [|exact Hu]. destruct s; cbn in *. congruence.
Qed.

(** [extractUrlFromDescription] returns an address of the description that
    is a deployment address outside the skipped set, and none scores
    higher; it returns nothing only when there is no such address. *)
Theorem extractUrlFromDescription_best (description : option jsstring)
    (skipUrls : gset jsstring) :
  let urls := Tasks.extractUrlsFromText description in
  match Tasks.extractUrlFromDescription description skipUrls with
  | Some u =>
    u ∈ urls /\ 0 < Tasks.isDeploymentUrl u /\ (u ∉ skipUrls)
    /\ forall v, v ∈ urls -> v ∉ skipUrls ->
                 Tasks.isDeploymentUrl v <= Tasks.isDeploymentUrl u
  | None =>
    forall v, v ∈ urls -> v ∉ skipUrls -> Tasks.isDeploymentUrl v <= 0
  end.
Proof.
  intros urls.
  assert (Hgen :
    match option_map Tasks.sc_url
            (head (jsSort Tasks.byScoreDesc (Tasks.scoredUrls urls skipUrls))) with
    | Some u =>
      u ∈ urls /\ 0 < Tasks.isDeploymentUrl u /\ (u ∉ skipUrls)
      /\ forall v, v ∈ urls -> v ∉ skipUrls ->
                   Tasks.isDeploymentUrl v <= Tasks.isDeploymentUrl u
    | None =>
      forall v, v ∈ urls -> v ∉ skipUrls -> Tasks.isDeploymentUrl v <= 0
    end).
  { pose proof (best_head (Tasks.scoredUrls urls skipUrls)) as Hbest.
    destruct (head _) as [b|]; cbn [option_map].
    - destruct Hbest as [Hb Hmax].
      apply scoredUrls_spec in Hb as (Hu & Hs & Hpos & Hskip).
      split; [exact Hu|]. split; [lia|]. split; [exact Hskip|].
      intros v Hv Hvskip.
      destruct (Z.lt_ge_cases 0 (Tasks.isDeploymentUrl v)) as [Hvpos|]; [|lia].
      specialize (Hmax {| Tasks.sc_url := v; Tasks.sc_score := Tasks.isDeploymentUrl v |}).
      cbn in Hmax. rewrite <- Hs. apply Hmax. apply scoredUrls_spec. cbn. auto.
    - intros v Hv Hvskip.
      destruct (Z.lt_ge_cases 0 (Tasks.isDeploymentUrl v)) as [Hvpos|]; [|lia].
      assert (Hin : {| Tasks.sc_url := v; Tasks.sc_score := Tasks.isDeploymentUrl v |}
                    ∈ Tasks.scoredUrls urls skipUrls)
        by (apply scoredUrls_spec; cbn; auto).
      rewrite Hbest in Hin. inversion Hin. }
  unfold Tasks.extractUrlFromDescription.
  destruct description as [[|c d]|]; [| exact Hgen |];
    intros v Hv; inversion Hv.
Qed.

(** The score of an address in a README: its deployment score with the
    bonus and the penalty of the text before it. *)
Definition readmeScore (content url : jsstring) : Z :=
  Tasks.sc_score
    (Tasks.adjustScore content
       {| Tasks.sc_url := url; Tasks.sc_score := Tasks.isDeploymentUrl url |}).

Lemma adjustScore_url content s :
  Tasks.sc_url (Tasks.adjustScore content s) = Tasks.sc_url s.
Proof. unfold Tasks.adjustScore. destruct (Tasks.indexOf _ _); reflexivity. Qed.

Lemma adjustScore_score content s :
  Tasks.sc_score s = Tasks.isDeploymentUrl (Tasks.sc_url s) ->
  Tasks.sc_score (Tasks.adjustScore content s) = readmeScore content (Tasks.sc_url s).
Proof.
  intros Hs. unfold readmeScore, Tasks.adjustScore. cbn [Tasks.sc_url].
  destruct (Tasks.indexOf _ _); cbn; rewrite ?Hs; reflexivity.
Qed.

Lemma extractUrlFromReadme_nonempty content skipUrls :
  content <> [] ->
  Tasks.extractUrlFromReadme (Some content) skipUrls
  = option_map Tasks.sc_url
      (head (jsSort Tasks.byScoreDesc
               (List.filter (fun s => 5 <=? Tasks.sc_score s)
                  (map (Tasks.adjustScore content)
                     (Tasks.scoredUrls (Tasks.extractUrlsFromText (Some content))
                        skipUrls))))).
Proof. destruct content; [contradiction|reflexivity]. Qed.

(** [extractUrlFromReadme] returns an address of the README that is a
    deployment address outside the skipped set and whose score with the
    context bonus and penalty is at least 5, and none such scores higher;
    it returns nothing only when there is no such address. *)
Theorem extractUrlFromReadme_best (content : jsstring) (skipUrls : gset jsstring) :
  let urls := Tasks.extractUrlsFromText (Some content) in
  let candidate v :=
    v ∈ urls /\ 0 < Tasks.isDeploymentUrl v /\ (v ∉ skipUrls)
    /\ 5 <= readmeScore content v in
  match Tasks.extractUrlFromReadme (Some content) skipUrls with
  | Some u =>
    candidate u
    /\ forall v, candidate v -> readmeScore content v <= readmeScore content u
  | None => forall v, ~ candidate v
  end.
Proof.
  intros urls candidate.
  destruct (decide (content = [])) as [->|Hne].
  { intros v (Hv & _). inversion Hv. }
  rewrite (extractUrlFromReadme_nonempty content skipUrls Hne). fold urls.
  assert (Hin : forall s,
            s ∈ List.filter (fun s => 5 <=? Tasks.sc_score s)
                  (map (Tasks.adjustScore content) (Tasks.scoredUrls urls skipUrls))
            <-> candidate (Tasks.sc_url s)
                /\ Tasks.sc_score s = readmeScore content (Tasks.sc_url s)).
  { intros s. rewrite list_elem_of_In, filter_In, <- list_elem_of_In, list_elem_of_fmap.
    rewrite Z.leb_le. subst candidate. cbn beta. split.
    - intros [(s0 & -> & Hs0) Hfive].
      apply scoredUrls_spec in Hs0 as (Hu & Hs & Hpos & Hskip).
      rewrite adjustScore_url. rewrite (adjustScore_score _ _ Hs) in *.
      split; [|reflexivity]. split; [exact Hu|]. split; [lia|]. split; assumption.
    - intros [(Hu & Hpos & Hskip & Hfive) Hs]. split; [|lia].
      exists {| Tasks.sc_url := Tasks.sc_url s;
                Tasks.sc_score := Tasks.isDeploymentUrl (Tasks.sc_url s) |}.
      split.
      + destruct s as [u sc]. cbn in *. subst sc. unfold readmeScore, Tasks.adjustScore.
        cbn. destruct (Tasks.indexOf _ _); reflexivity.
      + apply scoredUrls_spec. cbn. auto. }
  pose proof (best_head
                (List.filter (fun s => 5 <=? Tasks.sc_score s)
                   (map (Tasks.adjustScore content)
                      (Tasks.scoredUrls urls skipUrls)))) as Hbest.
  destruct (head _) as [b|]; cbn [option_map].
  - destruct Hbest as [Hb Hmax]. apply Hin in Hb as [Hcand Hs].
    split; [exact Hcand|]. intros v Hv. rewrite <- Hs.
    specialize (Hmax {| Tasks.sc_url := v; Tasks.sc_score := readmeScore content v |}).
    cbn in Hmax. apply Hmax. apply Hin. cbn. auto.
  - intros v Hv.
    assert (Hv' : {| Tasks.sc_url := v; Tasks.sc_score := readmeScore content v |}
                  ∈ List.filter (fun s => 5 <=? Tasks.sc_score s)
                      (map (Tasks.adjustScore content)
                         (Tasks.scoredUrls urls skipUrls)))
      by (apply Hin; cbn; auto).
    rewrite Hbest in Hv'. inversion Hv'.
Qed.

End ExtractFacts.

(** *** [extractUrlsFromText] *)

Definition isDotOrParen (c : N) : bool := ((c =? 46) || (c =? 41))%N.

Lemma last_rev_head {A} (l : list A) : last (rev l) = head l.
Proof. destruct l as [|x l]; [reflexivity|]. simpl. apply last_snoc. Qed.

Lemma stripTrailingDots_after (pre body : jsstring) (c : N) :
  isDotOrParen c = false ->
  Tasks.stripTrailingDots (pre ++ c :: body)
  = pre ++ c :: Tasks.stripTrailingDots body.
Proof.
  intros Hc. unfold Tasks.stripTrailingDots. fold isDotOrParen.
  rewrite rev_app_distr. simpl rev. rewrite <- app_assoc. simpl app.
  destruct (span isDotOrParen (rev body)) as [a b] eqn:Hs.
  destruct (span_spec _ _ _ _ Hs) as (Hrev & Ha & Hb). rewrite Hrev.
  destruct b as [|d b].
  - rewrite app_nil_r. rewrite (span_app isDotOrParen a (c :: rev pre) Ha Hc).
    cbn [snd]. simpl rev. rewrite rev_involutive. reflexivity.
  - rewrite <- app_assoc. simpl app.
    rewrite (span_app isDotOrParen a (d :: b ++ c :: rev pre) Ha Hb).
    cbn [snd]. change (d :: b ++ c :: rev pre) with ((d :: b) ++ c :: rev pre).
    rewrite rev_app_distr. simpl rev. rewrite rev_involutive, <- !app_assoc.
    reflexivity.
Qed.


Lemma stripTrailingDots_last (x : jsstring) :
  match last (Tasks.stripTrailingDots x) with
  | Some c => isDotOrParen c = false
  | None => True
  end.
Proof.
  unfold Tasks.stripTrailingDots. fold isDotOrParen.
  destruct (span isDotOrParen (rev x)) as [a b] eqn:Hs.
  destruct (span_spec _ _ _ _ Hs) as (_ & _ & Hb). cbn [snd].
  rewrite last_rev_head. destruct b; [exact I|exact Hb].
Qed.

Lemma stripTrailingDots_prefix (x : jsstring) :
  exists dots, x = Tasks.stripTrailingDots x ++ dots.
Proof.
  unfold Tasks.stripTrailingDots. fold isDotOrParen.
  destruct (span isDotOrParen (rev x)) as [a b] eqn:Hs.
  destruct (span_spec _ _ _ _ Hs) as (Hrev & _ & _). cbn [snd].
  exists (rev a). rewrite <- rev_app_distr, <- Hrev, rev_involutive. reflexivity.
Qed.

Lemma forallb_app_l {A} (f : A -> bool) (a b : list A) :
  forallb f (a ++ b) = true -> forallb f a = true.
Proof. rewrite forallb_app. intros H. apply andb_prop in H as [H _]. exact H. Qed.

(** The shape of an address: a scheme that is [http] or [https] in any
    case, [://], and units that may stand in an address. *)
Definition addressShape (u : jsstring) : Prop :=
  exists scheme rest,
    u = scheme ++ str "://" ++ rest
    /\ (map lowerAscii scheme = str "http" \/ map lowerAscii scheme = str "https")
    /\ forallb Tasks.isUrlChar rest = true.

Lemma matchUrl_Some (s u rest : jsstring) :
  Tasks.matchUrl s = Some (u, rest) ->
  s = u ++ rest
  /\ exists scheme body,
       u = scheme ++ str "://" ++ body
       /\ (map lowerAscii scheme = str "http" \/ map lowerAscii scheme = str "https")
       /\ forallb Tasks.isUrlChar body = true.
Proof.
  unfold Tasks.matchUrl.
  destruct s as [|h [|t1 [|t2 [|p s1]]]]; try discriminate.
  destruct (jseqb _ _) eqn:Hhttp; [|discriminate]. apply jseqb_eq in Hhttp.
  set (sch := match s1 with
              | c :: r => if (lowerAscii c =? 115)%N then ([h; t1; t2; p; c], r)
                          else ([h; t1; t2; p], s1)
              | [] => ([h; t1; t2; p], s1)
              end).
  assert (Hsch : h :: t1 :: t2 :: p :: s1 = fst sch ++ snd sch
                 /\ (map lowerAscii (fst sch) = str "http"
                     \/ map lowerAscii (fst sch) = str "https")).
  { subst sch. destruct s1 as [|c r]; [split; [reflexivity|left; exact Hhttp]|].
    destruct (N.eqb_spec (lowerAscii c) 115) as [Hc|Hc].
    - split; [reflexivity|]. right. cbn [fst map] in *.
      injection Hhttp as -> -> -> ->. rewrite Hc. reflexivity.
    - split; [reflexivity|left; exact Hhttp]. }
  destruct sch as [scheme s2]. cbn [fst snd] in Hsch. destruct Hsch as [Hs Hscheme].
  destruct (stripPrefix (str "://") s2) as [s3|] eqn:H3; [|discriminate].
  apply stripPrefix_Some in H3. subst s2.
  destruct (span Tasks.isUrlChar s3) as [body rest'] eqn:Hb.
  destruct (span_spec _ _ _ _ Hb) as (-> & Hbody & _).
  destruct body as [|b body]; [discriminate|].
  intros [= <- <-]. split.
  - rewrite Hs, <- !app_assoc. reflexivity.
  - exists scheme, (b :: body). auto.
Qed.

Lemma matchUrls_spec (fuel : nat) (s u : jsstring) :
  u ∈ Tasks.matchUrls fuel s ->
  (exists pre post, s = pre ++ u ++ post)
  /\ exists scheme body,
       u = scheme ++ str "://" ++ body
       /\ (map lowerAscii scheme = str "http" \/ map lowerAscii scheme = str "https")
       /\ forallb Tasks.isUrlChar body = true.
Proof.
  revert s; induction fuel as [|fuel IH]; intros s; simpl; [intros H; inversion H|].
  destruct s as [|c s']; [intros H; inversion H|].
  destruct (Tasks.matchUrl (c :: s')) as [[u' rest]|] eqn:Hm.
  - apply matchUrl_Some in Hm as [Hs Hshape].
    intros Hin. apply elem_of_cons in Hin as [->|Hin].
    + split; [exists [], rest; exact Hs|exact Hshape].
    + destruct (IH _ Hin) as [(pre & post & ->) Hu]. split; [|exact Hu].
      exists (u' ++ pre), post. rewrite Hs, <- app_assoc. reflexivity.
  - intros Hin. destruct (IH _ Hin) as [(pre & post & ->) Hu]. split; [|exact Hu].
    exists (c :: pre), post. reflexivity.
Qed.

(** Every address that [extractUrlsFromText] returns stands in the text,
    up to its trailing dots and closing parentheses, which are cut; it
    starts with [http://] or [https://] in any case and does not end with a
    dot or a closing parenthesis. *)
Theorem extractUrlsFromText_shape (text u : jsstring) :
  u ∈ Tasks.extractUrlsFromText (Some text) ->
  (exists pre post, text = pre ++ u ++ post)
  /\ addressShape u
  /\ match last u with
     | Some c => isDotOrParen c = false
     | None => False
     end.
Proof.
  unfold Tasks.extractUrlsFromText. intros Hu.
  apply list_elem_of_fmap in Hu as (x & -> & Hx).
  apply matchUrls_spec in Hx as [(pre & post & ->) (scheme & body & -> & Hscheme & Hbody)].
  replace (scheme ++ str "://" ++ body)
    with ((scheme ++ [58%N; 47%N]) ++ 47%N :: body)
    by (rewrite <- app_assoc; reflexivity).
  rewrite (stripTrailingDots_after _ body 47) by reflexivity.
  destruct (stripTrailingDots_prefix body) as [dots Hdots].
  split; [|split].
  - exists pre, (dots ++ post). rewrite Hdots at 1.
    rewrite <- !app_assoc. simpl. rewrite <- !app_assoc. reflexivity.
  - exists scheme, (Tasks.stripTrailingDots body). split; [|split; [exact Hscheme|]].
    + rewrite <- !app_assoc. reflexivity.
    + rewrite Hdots in Hbody. exact (forallb_app_l _ _ _ Hbody).
  - pose proof (stripTrailingDots_last body) as Hlast.
    destruct (Tasks.stripTrailingDots body) as [|b body'] eqn:Hstrip.
    + rewrite last_snoc. reflexivity.
    + change (47%N :: b :: body') with ([47%N] ++ b :: body'). rewrite app_assoc.
      rewrite last_app_cons. change (last ([] ++ b :: body')) with (last (b :: body')).
      destruct (last (b :: body')) eqn:Hl; [exact Hlast|].
      apply last_None in Hl. discriminate.
Qed.

Lemma extractUrlsFromText_shape_witness :
  let text := str "Live at (HTTPS://App.pages.dev/x). Enjoy" in
  let u := str "HTTPS://App.pages.dev/x" in
  (exists pre post, text = pre ++ u ++ post)
  /\ addressShape u
  /\ match last u with
     | Some c => isDotOrParen c = false
     | None => False
     end.
Proof.
  intros text u. apply (extractUrlsFromText_shape text u).
  vm_compute. apply list_elem_of_here.
Defined.

(** ** [archiveMessages] *)

Section ArchiveInvariants.
Context {P : Platform}.

Lemma fresh_NoDup msgs timestamps :
  NoDup (map am_timestamp (fresh msgs timestamps)).
Proof.
  revert timestamps; induction msgs as [|ev msgs IH]; intros timestamps; simpl.
  - apply NoDup_nil_2.
  - destruct (ev_timestamp ev) as [[|c ts]|]; try apply IH.
    destruct (mem (c :: ts) timestamps); [apply IH|].
    simpl. apply NoDup_cons. split; [|apply IH].
    intros Hin. apply list_elem_of_fmap in Hin as (d & Hd & Hin).
    destruct (fresh_elem _ _ _ Hin) as (Hnot & _). apply Hnot. rewrite <- Hd.
    apply list_elem_of_here.
Qed.

Lemma fresh_copy msgs timestamps d :
  d ∈ fresh msgs timestamps ->
  exists ev, ev ∈ msgs /\ ev_timestamp ev = Some (am_timestamp d)
             /\ d = archivedCopy ev (am_timestamp d).
Proof.
  revert timestamps; induction msgs as [|ev msgs IH]; intros timestamps; simpl.
  - intros H. inversion H.
  - assert (Hrest : forall tss, d ∈ fresh msgs tss ->
              exists ev', ev' ∈ ev :: msgs
                          /\ ev_timestamp ev' = Some (am_timestamp d)
                          /\ d = archivedCopy ev' (am_timestamp d)).
    { intros tss Hd. destruct (IH tss Hd) as (ev' & Hev & Hts & Hcopy).
      exists ev'. split; [apply elem_of_cons; auto|auto]. }
    destruct (ev_timestamp ev) as [[|c ts]|] eqn:Ets; try apply Hrest.
    destruct (mem (c :: ts) timestamps); [apply Hrest|].
    intros Hd. apply elem_of_cons in Hd as [->|Hd]; [|exact (Hrest _ Hd)].
    exists ev. split; [apply list_elem_of_here|]. split; [exact Ets|reflexivity].
Qed.

(** The archive that a call leaves is the old one, or a new one of at most
    2000 messages, newest first, made of messages of the old one and of
    copies of the entries given; if no two messages of the old one had the
    same time stamp, no two of the new one have.  Nothing else in the store
    changes, and a call without entries writes nothing. *)
Theorem archiveMessages_invariants (msgs : list Message) (k : KV)
    (sl : list Z) (au : list AuditEvent) :
  let existing := default [] (kv_archive k) in
  exists k',
    Tasks.archiveMessages msgs (quiet k sl au) = (Ok tt, quiet k' sl au)
    /\ kv_items k' = kv_items k /\ kv_mention_scan k' = kv_mention_scan k
    /\ kv_github_scan k' = kv_github_scan k
    /\ (msgs = [] -> k' = k)
    /\ (kv_archive k' = kv_archive k
        \/ exists l,
             kv_archive k' = Some l
             /\ (length l <= Tasks.MAX_ARCHIVED_MESSAGES)%nat
             /\ StronglySorted (inOrder Tasks.newestFirst) l
             /\ (forall m, m ∈ l ->
                   m ∈ existing
                   \/ exists ev, ev ∈ msgs
                                 /\ ev_timestamp ev = Some (am_timestamp m)
                                 /\ m = archivedCopy ev (am_timestamp m))
             /\ (NoDup (map am_timestamp existing) -> NoDup (map am_timestamp l))).
Proof.
  intros existing. exists (archiveKV k msgs).
  split; [apply archiveMessages_run|].
  unfold archiveKV, archiveWrite. fold existing.
  destruct msgs as [|ev0 msgs0]; [repeat split; auto|].
  set (msgs := ev0 :: msgs0).
  destruct (fresh msgs (map am_timestamp existing)) as [|d0 added0] eqn:Hfresh;
    [repeat split; auto; discriminate|].
  set (added := d0 :: added0) in *. set (sorted := jsSort _ _).
  cbn [kv_items kv_mention_scan kv_github_scan kv_archive put_archive].
  split; [reflexivity|]. split; [reflexivity|]. split; [reflexivity|].
  split; [discriminate|]. right.
  assert (Hsorted : StronglySorted (inOrder Tasks.newestFirst) sorted)
    by (apply jsSort_sorted; [apply newestFirst_total | apply newestFirst_trans]).
  assert (Hperm : sorted ≡ₚ existing ++ added) by apply jsSort_perm.
  assert (Hsplit : sorted = take Tasks.MAX_ARCHIVED_MESSAGES sorted
                            ++ drop Tasks.MAX_ARCHIVED_MESSAGES sorted)
    by (symmetry; apply take_drop).
  eexists. split; [reflexivity|]. split; [rewrite length_take; lia|]. split; [|split].
  - rewrite Hsplit in Hsorted. eapply StronglySorted_app_1_l, Hsorted.
  - intros m Hm.
    assert (Hm' : m ∈ sorted) by (rewrite Hsplit; apply elem_of_app; auto).
    clear Hm. rename Hm' into Hm. rewrite Hperm in Hm.
    apply elem_of_app in Hm as [Hm|Hm]; [left; exact Hm|right].
    subst added. rewrite <- Hfresh in Hm. exact (fresh_copy _ _ _ Hm).
  - intros Hnd.
    assert (Hall : NoDup (map am_timestamp sorted)).
    { change (map am_timestamp sorted) with (am_timestamp <$> sorted).
      rewrite Hperm, fmap_app. apply NoDup_app. split; [exact Hnd|]. split.
      - intros t Ht Ht'. apply list_elem_of_fmap in Ht' as (d & -> & Hd).
        rewrite <- Hfresh in Hd. destruct (fresh_elem _ _ _ Hd) as (Hnot & _).
        contradiction.
      - rewrite <- Hfresh. apply fresh_NoDup. }
    rewrite Hsplit in Hall.
    change (map am_timestamp ?l) with (am_timestamp <$> l) in Hall.
    rewrite fmap_app in Hall. apply NoDup_app in Hall as [Hall _]. exact Hall.
Qed.

End ArchiveInvariants.

(** ** [scanForMentions] without reset *)

Section ScanFacts.
Context {P : Platform}.











Lemma scanEvents_processed evs st :
  Tasks.sc_processed (fold_left Tasks.scanEvent evs st)
  = fold_left Tasks.ts_add (map ev_timestamp evs) (Tasks.sc_processed st).
Proof.
  revert st; induction evs as [|ev evs IH]; intros st; [reflexivity|].
  cbn [fold_left map]. rewrite IH. reflexivity.
Qed.








End ScanFacts.

